(** * Mail bridge (src/utils/mail.ts): a shallow embedding and its properties

    The module drives a desktop mail client through generated AppleScript
    texts.  Every operation checks access, renders a script from a template,
    hands it to [runAppleScript] and decodes the reply.

    Modelling conventions.
    - A JavaScript string is a [string]; one character stands for one UTF-16
      code unit below 256 (the Latin-1 range), which is closed under
      [toLowerCase] and holds the seven white-space code units 9, 10, 11, 12,
      13, 32 and 160 that [trim] and the regular expression class \s remove
      in that range.
    - A limit is a [number]: a double, given by its sign, mantissa and
      binary exponent, or one of NaN and the two infinities.  [Math_min]
      follows Math.min and [Number_toString] the text a template literal
      interpolates.  The constants and the clock, which are integers below
      2^53, stay [Z] and print in decimal.
    - The interpreter, the clock and the file system are outside the program:
      they are the fields of [Env], and the trace of what the program did to
      them is the [World] threaded through every operation.  The world keeps
      a record of every interpreter invocation, as a recording fake of
      [runAppleScript] would.
    - A thrown value is kept as the text the catch blocks read from it
      ([error.message], or [String(error)]). *)

From Stdlib Require Import ZArith NArith Ascii String List Bool Lia DecimalString.
From stdpp Require Import base option list strings gmap.

Import ListNotations.

Set Warnings "-register-all".

(** ** JavaScript string primitives *)

Definition dquote : ascii := "034"%char.
Definition backslash : ascii := "092"%char.
Definition langle : ascii := "060"%char.
Definition rangle : ascii := "062"%char.

(** A one-character string. *)
Definition chr (c : ascii) : string := String c EmptyString.

(** Truthiness of a string: only the empty string is falsy. *)
Definition truthy (s : string) : bool :=
  match s with EmptyString => false | String _ _ => true end.

(** [a || b] on strings. *)
Definition str_or (a b : string) : string := if truthy a then a else b.

(** White space of the ECMAScript grammar (WhiteSpace and LineTerminator)
    among the code units below 256. *)
Definition is_ws (c : ascii) : bool :=
  match c with
  | "009" | "010" | "011" | "012" | "013" | "032" | "160" => true
  | _ => false
  end%char.

(** [s.trimStart()]. *)
Fixpoint trimStart (s : string) : string :=
  match s with
  | EmptyString => EmptyString
  | String c r => if is_ws c then trimStart r else s
  end.

(** [s.trimEnd()]. *)
Fixpoint trimEnd (s : string) : string :=
  match s with
  | EmptyString => EmptyString
  | String c r =>
      match trimEnd r with
      | EmptyString => if is_ws c then EmptyString else chr c
      | r' => String c r'
      end
  end.

(** [s.trim()]. *)
Definition trim (s : string) : string := trimEnd (trimStart s).

(** [s.replace(/c/g, by)] for a pattern that is one literal character. *)
Fixpoint replaceAll (c : ascii) (by_ : string) (s : string) : string :=
  match s with
  | EmptyString => EmptyString
  | String d r =>
      if Ascii.eqb d c then by_ +:+ replaceAll c by_ r
      else String d (replaceAll c by_ r)
  end.

(** [s.startsWith(p)]. *)
Definition startsWith (p s : string) : bool := String.prefix p s.

(** [s.substring(n)]. *)
Fixpoint substring_from (n : nat) (s : string) : string :=
  match n, s with
  | O, _ => s
  | S k, EmptyString => EmptyString
  | S k, String _ r => substring_from k r
  end.

(** [s.split(sep)] for a non-empty separator [sep]: the pieces between the
    occurrences of [sep], found left to right without overlap.  [skip]
    counts the characters of a separator just found that are still to be
    passed over. *)
Fixpoint split_go (sep : string) (skip : nat) (s : string) : list string :=
  match s with
  | EmptyString => [EmptyString]
  | String c r =>
      match skip with
      | S k => split_go sep k r
      | O =>
          if String.prefix sep s
          then EmptyString :: split_go sep (String.length sep - 1) r
          else match split_go sep 0 r with
               | p :: ps => String c p :: ps
               | [] => [chr c]
               end
      end
  end.

Definition split (sep s : string) : list string := split_go sep 0 s.

(** [parts.join(sep)], the inverse direction of [split]. *)
Fixpoint join (sep : string) (parts : list string) : string :=
  match parts with
  | [] => EmptyString
  | [p] => p
  | p :: ps => p +:+ sep +:+ join sep ps
  end.

(** [c.toLowerCase()] on one code unit below 256: A to Z, and the
    Latin-1 capitals 192 to 222 without the multiplication sign 215. *)
Definition lower_char (c : ascii) : ascii :=
  let n := nat_of_ascii c in
  if ((65 <=? n) && (n <=? 90))%nat then ascii_of_nat (n + 32)
  else if ((192 <=? n) && (n <=? 222) && negb (n =? 215))%nat
       then ascii_of_nat (n + 32)
  else c.

(** [s.toLowerCase()]. *)
Fixpoint toLowerCase (s : string) : string :=
  match s with
  | EmptyString => EmptyString
  | String c r => String (lower_char c) (toLowerCase r)
  end.

(** The decimal text of an integer: what [String(n)] gives for the integers
    below 2^53 in magnitude, which the constants and [Date.now()] are. *)
Definition string_of_Z (n : Z) : string := NilZero.string_of_int (Z.to_int n).

(** ** Numbers *)

(** A JavaScript number.  [Finite s m e] is the double of value
    (-1)^s * m * 2^e; the doubles are the values with m below 2^53 and e from
    -1074 to 971, and a mantissa 0 gives the two zeros. *)
Inductive number : Type :=
  | NaN
  | Infinity (negative : bool)
  | Finite (negative : bool) (m : N) (e : Z).

(** The number of an integer literal. *)
Definition of_Z (z : Z) : number := Finite (z <? 0)%Z (Z.to_N (Z.abs z)) 0.

Definition signed (negative : bool) (x : Z) : Z := if negative then (- x)%Z else x.

(** [x < y] on numbers: false as soon as one side is NaN, and the two zeros
    are equal. *)
Definition number_lt (x y : number) : bool :=
  match x, y with
  | NaN, _ | _, NaN => false
  | Infinity true, Infinity true => false
  | Infinity true, _ => true
  | _, Infinity true => false
  | Infinity false, _ => false
  | _, Infinity false => true
  | Finite s1 m1 e1, Finite s2 m2 e2 =>
      let e := Z.min e1 e2 in
      (signed s1 (Z.of_N m1 * 2 ^ (e1 - e)) <? signed s2 (Z.of_N m2 * 2 ^ (e2 - e)))%Z
  end.

(** [x] is the zero of the given sign. *)
Definition is_zero (negative : bool) (x : number) : bool :=
  match x with
  | Finite s 0%N _ => Bool.eqb s negative
  | _ => false
  end.

Definition is_NaN (x : number) : bool :=
  match x with
  | NaN => true
  | _ => false
  end.

(** One round of the loop of Math.min: [x] replaces [lowest] when it is the
    negative zero against the positive one, or when it is smaller. *)
Definition min_step (lowest x : number) : number :=
  if is_zero true x && is_zero false lowest then x
  else if number_lt x lowest then x
  else lowest.

(** [Math.min(a, b)]: NaN when an argument is NaN, otherwise the loop
    started at positive infinity. *)
Definition Math_min (a b : number) : number :=
  match a, b with
  | NaN, _ | _, NaN => NaN
  | _, _ => min_step (min_step (Infinity false) a) b
  end.

(** The double m * 2^e with its mantissa on 53 bits, or on fewer at the
    least exponent -1074. *)
Definition canonical (m e : Z) : Z * Z :=
  let tz := Z.log2 (Z.land m (- m)) in
  let m0 := Z.shiftr m tz in
  let e0 := (e + tz)%Z in
  let bits := (Z.log2 m0 + 1)%Z in
  if ((bits <=? 53) && (-1074 <=? e0))%Z
  then let shift := Z.min (53 - bits) (e0 + 1074) in (Z.shiftl m0 shift, (e0 - shift)%Z)
  else (m0, e0).

(** a * 2^ea compared with b * 10^j. *)
Definition compare_scaled (a ea b j : Z) : comparison :=
  (a * 2 ^ Z.max ea 0 * 10 ^ Z.max (- j) 0 ?= b * 10 ^ Z.max j 0 * 2 ^ Z.max (- ea) 0)%Z.

(** The least n' from [n] on with m * 2^e < 10^n'. *)
Fixpoint first_above (fuel : nat) (m e n : Z) : Z :=
  match fuel with
  | O => n
  | S fuel' =>
      match compare_scaled m e 1 n with
      | Lt => n
      | _ => first_above fuel' m e (n + 1)%Z
      end
  end.

(** c * 10^j rounds to the double m * 2^e: it lies between the middles to
    the two neighbouring doubles, a middle counting when m is even.
    [delta] is 1 where the lower neighbour is half as far, 2 otherwise. *)
Definition inside (m e delta c j : Z) : bool :=
  match compare_scaled (4 * m - delta) (e - 2) c j with
  | Lt => true
  | Eq => Z.even m
  | Gt => false
  end
  && match compare_scaled (4 * m + 2) (e - 2) c j with
     | Gt => true
     | Eq => Z.even m
     | Lt => false
     end.

(** The digits s and the exponent j of the shortest s * 10^j that rounds
    to m * 2^e, the closest one where two of that length do, the even one
    where both are as close; [k] is the length tried, [n] the number of
    digits before the decimal point. *)
Fixpoint shortest (fuel : nat) (k m e delta n : Z) : Z * Z :=
  let j := (n - k)%Z in
  let s := (m * 2 ^ Z.max e 0 * 10 ^ Z.max (- j) 0 / (2 ^ Z.max (- e) 0 * 10 ^ Z.max j 0))%Z in
  match inside m e delta s j, inside m e delta (s + 1) j, fuel with
  | true, true, _ =>
      match compare_scaled (2 * m) e (2 * s + 1) j with
      | Lt => (s, j)
      | Gt => ((s + 1)%Z, j)
      | Eq => if Z.even s then (s, j) else ((s + 1)%Z, j)
      end
  | true, false, _ => (s, j)
  | false, true, _ => ((s + 1)%Z, j)
  | false, false, S fuel' => shortest fuel' (k + 1)%Z m e delta n
  | false, false, O => (s, j)
  end.

Fixpoint strip_zeros (fuel : nat) (s j : Z) : Z * Z :=
  match fuel with
  | O => (s, j)
  | S fuel' => if (s mod 10 =? 0)%Z then strip_zeros fuel' (s / 10)%Z (j + 1)%Z else (s, j)
  end.

Fixpoint zeros (n : nat) : string :=
  match n with
  | O => EmptyString
  | S n' => String "0" (zeros n')
  end.

(** The digits [d] laid out with [n] of them before the decimal point:
    plain up to 21 digits, with a point, with leading zeros down to 10^-7,
    and in exponent form beyond. *)
Definition layout (d : string) (n : Z) : string :=
  let k := Z.of_nat (String.length d) in
  if ((k <=? n) && (n <=? 21))%Z then d +:+ zeros (Z.to_nat (n - k))
  else if ((0 <? n) && (n <=? 21))%Z
  then String.substring 0 (Z.to_nat n) d +:+ "." +:+
       String.substring (Z.to_nat n) (Z.to_nat (k - n)) d
  else if ((-6 <? n) && (n <=? 0))%Z then "0." +:+ zeros (Z.to_nat (- n)) +:+ d
  else
    (if (k =? 1)%Z then d
     else String.substring 0 1 d +:+ "." +:+ String.substring 1 (Z.to_nat (k - 1)) d)
    +:+ "e" +:+ (if (n - 1 <? 0)%Z then "-" else "+") +:+ string_of_Z (Z.abs (n - 1)).

Definition digits_of (m e : Z) : string :=
  let '(m', e') := canonical m e in
  let delta := if ((m' =? 2 ^ 52) && (-1074 <? e'))%Z then 1%Z else 2%Z in
  let n0 := first_above 6 m' e' ((Z.log2 m' + e') * 30103 / 100000 - 1)%Z in
  let '(s, j) := shortest 16 1 m' e' delta n0 in
  let '(s', j') := strip_zeros 400 s j in
  let d := string_of_Z s' in
  layout d (j' + Z.of_nat (String.length d)).

(** The text of a positive number: an integer below 2^53 prints all its
    digits, which are its shortest digits. *)
Definition positive_toString (m e : Z) : string :=
  if ((0 <=? e) && (m * 2 ^ e <? 2 ^ 53))%Z then string_of_Z (m * 2 ^ e)
  else digits_of m e.

(** [String(x)], the text that [`${x}`] interpolates. *)
Definition Number_toString (x : number) : string :=
  match x with
  | NaN => "NaN"
  | Infinity false => "Infinity"
  | Infinity true => "-Infinity"
  | Finite negative m e =>
      if (m =? 0)%N then "0"
      else (if negative then "-" else "") +:+ positive_toString (Z.of_N m) e
  end.


(** ** Configuration and data model *)

Definition MAX_EMAILS : number := of_Z 20.
Definition MAX_CONTENT_PREVIEW : Z := 300.
Definition TIMEOUT_MS : Z := 10000.

Record EmailMessage := mkEmailMessage {
  subject : string;
  sender : string;
  dateSent : string;
  content : string;
  isRead : bool;
  mailbox : string
}.

Record AccessResult := mkAccessResult {
  hasAccess : bool;
  message : string
}.

(** The result of archiveEmail, deleteEmail and markAsRead. *)
Record OperationResult := mkOperationResult {
  success : bool;
  op_message : string
}.

(** The result of checkIfReplied. *)
Record ReplyResult := mkReplyResult {
  replied : bool;
  replySentAt : option string;
  reply_message : string
}.

(** What [runAppleScript] may resolve to.  The library promises text, the
    code also tests for arrays, so a reply is any JavaScript value. *)
Inductive value :=
  | VUndefined
  | VNull
  | VBool (b : bool)
  | VNumber (n : number)
  | VString (s : string)
  | VArray (xs : list value).

(** One round trip to the interpreter: it returns a value or raises an error,
    kept as the text that [error.message] (or [String(error)]) yields. *)
Inductive reply :=
  | Returns (v : value)
  | Raises (msg : string).

(** ** The world outside the program *)

(** One recorded interpreter invocation: the script it was handed, the
    files that existed at that moment, and how it ended. *)
Record Invocation := mkInvocation {
  inv_script : string;
  inv_files : gmap string string;
  inv_reply : reply
}.

Record World := mkWorld {
  calls : list Invocation;          (* invocations so far, oldest first *)
  files : gmap string string;       (* path to content *)
  console : list string             (* lines given to console.error *)
}.

Record Env := mkEnv {
  bridge : World -> string -> reply;     (* runAppleScript *)
  date_now : Z;                          (* Date.now() *)
  date_string : string;                  (* new Date().toString() *)
  write_error : string -> option string; (* fs.writeFileSync failing on a path *)
  write_partial : string -> string -> option string;
                                         (* what a failing write of some data
                                            leaves at the path: the part it
                                            wrote after opening the file, or
                                            nothing when it could not open it *)
  unlink_error : string -> option string; (* fs.unlinkSync failing on a path *)
  inspect_error : string -> string       (* how console.error prints a thrown
                                            value that is given to it as an
                                            argument of its own *)
}.

(** ** Computations that may throw *)

Inductive completion (A : Type) :=
  | Normal (a : A)
  | Throw (msg : string).
Arguments Normal {A} a.
Arguments Throw {A} msg.

Definition M (A : Type) : Type := Env -> World -> completion A * World.

Definition ret {A} (a : A) : M A := fun _ w => (Normal a, w).

Definition throw {A} (msg : string) : M A := fun _ w => (Throw msg, w).

Definition bind {A B} (m : M A) (k : A -> M B) : M B := fun e w =>
  match m e w with
  | (Normal a, w') => k a e w'
  | (Throw msg, w') => (Throw msg, w')
  end.

(** [try { m } catch (error) { h error }], the error kept as its text. *)
Definition try_catch {A} (m : M A) (h : string -> M A) : M A := fun e w =>
  match m e w with
  | (Normal a, w') => (Normal a, w')
  | (Throw msg, w') => h msg e w'
  end.

Definition ask : M Env := fun e w => (Normal e, w).

Notation "'let*' x := m 'in' k" := (bind m (fun x => k))
  (at level 10, x name, m at level 100, k at level 200).
Notation "m ;; k" := (bind m (fun _ => k))
  (at level 100, k at level 200, right associativity).

Definition console_error (line : string) : M unit := fun _ w =>
  (Normal tt, mkWorld (calls w) (files w) (console w ++ [line])).

Definition log_call (script : string) (r : reply) (w : World) : World :=
  mkWorld (calls w ++ [mkInvocation script (files w) r]) (files w) (console w).

(** [await runAppleScript(script)]. *)
Definition runAppleScript (script : string) : M value := fun e w =>
  let r := bridge e w script in
  match r with
  | Returns v => (Normal v, log_call script r w)
  | Raises msg => (Throw msg, log_call script r w)
  end.

(** [fs.writeFileSync(path, data, "utf8")]: the file is opened, which
    creates or empties it, and then written.  A write that fails leaves the
    files alone when it could not open the file, and otherwise leaves at the
    path what it wrote before it failed. *)
Definition writeFileSync (path data : string) : M unit := fun e w =>
  match write_error e path with
  | Some msg =>
      match write_partial e path data with
      | None => (Throw msg, w)
      | Some part =>
          (Throw msg, mkWorld (calls w) (<[path := part]> (files w)) (console w))
      end
  | None => (Normal tt, mkWorld (calls w) (<[path := data]> (files w)) (console w))
  end.

(** [fs.unlinkSync(path)]: fails on a missing file or when the system
    refuses. *)
Definition unlinkSync (path : string) : M unit := fun e w =>
  match files w !! path, unlink_error e path with
  | None, _ => (Throw ("ENOENT: no such file or directory, unlink '" +:+ path +:+ "'"), w)
  | Some _, Some msg => (Throw msg, w)
  | Some _, None => (Normal tt, mkWorld (calls w) (delete path (files w)) (console w))
  end.

(** ** Escaping and pattern helpers *)

(** The template text of the source is written with a tilde where the
    source has a double quote; [q] puts the quotes back. *)
Definition q (s : string) : string := replaceAll "~"%char (chr dquote) s.

(** [s.replace(/"/g, '\\"')]: a backslash before every double quote. *)
Definition escapeQuotes (s : string) : string :=
  replaceAll dquote (String backslash (chr dquote)) s.

(** [s.replace(/\\/g, '\\\\')]: every backslash twice. *)
Definition escapeBackslashes (s : string) : string :=
  replaceAll backslash (String backslash (chr backslash)) s.

(** A literal of the pattern matched under the flag i. *)
Definition matches_ci (p s : string) : bool :=
  String.prefix (toLowerCase p) (toLowerCase s).

(** The alternatives of /^(Re:|RE:|Fwd:|FWD:)\s*/i, in their order. *)
Definition reply_prefixes : list string := ["Re:"; "RE:"; "Fwd:"; "FWD:"].

(** [s.replace(/^(Re:|RE:|Fwd:|FWD:)\s*/i, '')]: the first alternative that
    matches at the start is removed with all white space after it. *)
Definition stripReplyPrefix (s : string) : string :=
  match List.find (fun p => matches_ci p s) reply_prefixes with
  | Some p => trimStart (substring_from (String.length p) s)
  | None => s
  end.

(** The longest run of characters other than the closing bracket at the
    start of [s], and what follows it. *)
Fixpoint span_not_rangle (s : string) : string * string :=
  match s with
  | EmptyString => (EmptyString, EmptyString)
  | String c r =>
      if Ascii.eqb c rangle then (EmptyString, s)
      else let '(run, rest) := span_not_rangle r in (String c run, rest)
  end.

(** [s.match(/<([^>]+)>/)], reduced to its first capture group: the
    leftmost opening bracket that is followed by one or more characters
    other than the closing bracket and then by the closing bracket. *)
Fixpoint matchAngle (s : string) : option string :=
  match s with
  | EmptyString => None
  | String c r =>
      if Ascii.eqb c langle then
        match span_not_rangle r with
        | (String a run, String _ _) => Some (String a run)
        | _ => matchAngle r
        end
      else matchAngle r
  end.

(** The delimiters of the latest-messages reply. *)
Definition DELIM : string := "<<<EMAIL_SEP>>>".
Definition FIELD_DELIM : string := "<<<FIELD>>>".


(** ** The script templates

    Each definition is the template literal of the operation named in its
    comment, with the interpolated expressions as arguments. *)

(** [cc ? `make new cc recipient ...` : ""] in sendMail. *)
Definition ccClause (cc : option string) : string :=
  match cc with
  | Some c =>
      if truthy c
      then q "make new cc recipient with properties {address:~"
           +:+ escapeQuotes c +:+ q "~}"
      else ""
  | None => ""
  end.

(** [bcc ? `make new bcc recipient ...` : ""] in sendMail. *)
Definition bccClause (bcc : option string) : string :=
  match bcc with
  | Some c =>
      if truthy c
      then q "make new bcc recipient with properties {address:~"
           +:+ escapeQuotes c +:+ q "~}"
      else ""
  | None => ""
  end.

(** The script of checkMailAccess. *)
Definition probeScript : string :=
  q "
tell application ~Mail~
    return name
end tell".

(** The script of getUnreadMails. *)
Definition unreadScript (maxEmails : number) : string :=
  q "
tell application ~Mail~
    set emailList to {}
    set emailCount to 0

    -- Get mailboxes (limited to avoid performance issues)
    set allMailboxes to mailboxes

    repeat with i from 1 to (count of allMailboxes)
        if emailCount >= "
  +:+ Number_toString maxEmails
  +:+ " then exit repeat

        try
            set currentMailbox to item i of allMailboxes
            set mailboxName to name of currentMailbox

            -- Get unread messages from this mailbox
            set unreadMessages to messages of currentMailbox

            repeat with j from 1 to (count of unreadMessages)
                if emailCount >= "
  +:+ Number_toString maxEmails
  +:+ q " then exit repeat

                try
                    set currentMsg to item j of unreadMessages

                    -- Only process unread messages
                    if read status of currentMsg is false then
                        set emailSubject to subject of currentMsg
                        set emailSender to sender of currentMsg
                        set emailDate to (date sent of currentMsg) as string

                        -- Get content with length limit
                        set emailContent to ~~
                        try
                            set fullContent to content of currentMsg
                            if (length of fullContent) > "
  +:+ string_of_Z MAX_CONTENT_PREVIEW
  +:+ " then
                                set emailContent to (characters 1 thru "
  +:+ string_of_Z MAX_CONTENT_PREVIEW
  +:+ q " of fullContent) as string
                                set emailContent to emailContent & ~...~
                            else
                                set emailContent to fullContent
                            end if
                        on error
                            set emailContent to ~[Content not available]~
                        end try

                        set emailInfo to {subject:emailSubject, sender:emailSender, dateSent:emailDate, content:emailContent, isRead:false, mailbox:mailboxName}
                        set emailList to emailList & {emailInfo}
                        set emailCount to emailCount + 1
                    end if
                on error
                    -- Skip problematic messages
                end try
            end repeat
        on error
            -- Skip problematic mailboxes
        end try
    end repeat

    return ~SUCCESS:~ & (count of emailList)
end tell".

(** The script of searchMails. *)
Definition searchScript (cleanSearchTerm : string) (maxEmails : number) : string :=
  q "
tell application ~Mail~
    set emailList to {}
    set emailCount to 0
    set searchTerm to ~"
  +:+ cleanSearchTerm
  +:+ q "~

    -- Get mailboxes (limited to avoid performance issues)
    set allMailboxes to mailboxes

    repeat with i from 1 to (count of allMailboxes)
        if emailCount >= "
  +:+ Number_toString maxEmails
  +:+ " then exit repeat

        try
            set currentMailbox to item i of allMailboxes
            set mailboxName to name of currentMailbox

            -- Get messages from this mailbox
            set allMessages to messages of currentMailbox

            repeat with j from 1 to (count of allMessages)
                if emailCount >= "
  +:+ Number_toString maxEmails
  +:+ q " then exit repeat

                try
                    set currentMsg to item j of allMessages
                    set emailSubject to subject of currentMsg

                    -- Simple case-insensitive search in subject
                    if emailSubject contains searchTerm then
                        set emailSender to sender of currentMsg
                        set emailDate to (date sent of currentMsg) as string
                        set emailRead to read status of currentMsg

                        -- Get content with length limit
                        set emailContent to ~~
                        try
                            set fullContent to content of currentMsg
                            if (length of fullContent) > "
  +:+ string_of_Z MAX_CONTENT_PREVIEW
  +:+ " then
                                set emailContent to (characters 1 thru "
  +:+ string_of_Z MAX_CONTENT_PREVIEW
  +:+ q " of fullContent) as string
                                set emailContent to emailContent & ~...~
                            else
                                set emailContent to fullContent
                            end if
                        on error
                            set emailContent to ~[Content not available]~
                        end try

                        set emailInfo to {subject:emailSubject, sender:emailSender, dateSent:emailDate, content:emailContent, isRead:emailRead, mailbox:mailboxName}
                        set emailList to emailList & {emailInfo}
                        set emailCount to emailCount + 1
                    end if
                on error
                    -- Skip problematic messages
                end try
            end repeat
        on error
            -- Skip problematic mailboxes
        end try
    end repeat

    return ~SUCCESS:~ & (count of emailList)
end tell".

(** The script of sendMail. *)
Definition sendScript (tmpFile safeSubject safeTo ccPart bccPart : string) : string :=
  q "
tell application ~Mail~
    activate

    -- Read email body from file to preserve formatting
    set emailBody to read file POSIX file ~"
  +:+ tmpFile
  +:+ q "~ as "
  +:+ chr "171"%char
  +:+ "class utf8"
  +:+ chr "187"%char
  +:+ q "

    -- Create new message
    set newMessage to make new outgoing message with properties {subject:~"
  +:+ safeSubject
  +:+ q "~, content:emailBody, visible:true}

    tell newMessage
        make new to recipient with properties {address:~"
  +:+ safeTo
  +:+ q "~}
        "
  +:+ ccPart
  +:+ "
        "
  +:+ bccPart
  +:+ q "
    end tell

    send newMessage
    return ~SUCCESS~
end tell".

(** The script of getMailboxes. *)
Definition mailboxesScript : string :=
  q "
tell application ~Mail~
    try
        set boxNames to {}
        set allBoxes to every mailbox
        repeat with mb in allBoxes
            try
                set end of boxNames to name of mb
            on error
                -- Skip mailboxes we can't read
            end try
        end repeat
        return boxNames
    on error
        return {}
    end try
end tell".

(** The script of getAccounts. *)
Definition accountsScript : string :=
  q "
tell application ~Mail~
    try
        set accountNames to {}
        set allAccounts to every account
        repeat with acct in allAccounts
            try
                set end of accountNames to name of acct
            on error
                -- Skip accounts we can't read
            end try
        end repeat
        return accountNames
    on error
        return {}
    end try
end tell".

(** The script of getMailboxesForAccount. *)
Definition mailboxesForAccountScript (safeAccountName : string) : string :=
  q "
tell application ~Mail~
    set boxList to {}

    try
        -- Find the account
        set targetAccount to first account whose name is ~"
  +:+ safeAccountName
  +:+ q "~
        set accountMailboxes to mailboxes of targetAccount

        repeat with i from 1 to (count of accountMailboxes)
            try
                set currentMailbox to item i of accountMailboxes
                set mailboxName to name of currentMailbox
                set boxList to boxList & {mailboxName}
            on error
                -- Skip problematic mailboxes
            end try
        end repeat
    on error
        -- Account not found or other error
        return {}
    end try

    return boxList
end tell".

(** The script of getLatestMails. *)
Definition latestScript (safeAccount : string) (maxMessages : number) : string :=
  q "
tell application ~Mail~
    set resultText to ~~
    try
        set targetAccount to first account whose name is ~"
  +:+ safeAccount
  +:+ q "~
        -- Try INBOX first, fall back to first mailbox
        try
            set targetMailbox to mailbox ~INBOX~ of targetAccount
        on error
            set targetMailbox to first mailbox of targetAccount
        end try

        set msgCount to count of messages of targetMailbox
        if msgCount > "
  +:+ Number_toString maxMessages
  +:+ " then set msgCount to "
  +:+ Number_toString maxMessages
  +:+ q "

        repeat with i from 1 to msgCount
            try
                set currentMsg to message i of targetMailbox
                set msgSubject to subject of currentMsg
                set msgSender to sender of currentMsg
                set msgDate to (date sent of currentMsg) as string
                set msgRead to read status of currentMsg

                -- Get content safely
                set msgContent to ~[Content not available]~
                try
                    set rawContent to content of currentMsg
                    if (length of rawContent) > 300 then
                        set msgContent to (text 1 thru 300 of rawContent) & ~...~
                    else
                        set msgContent to rawContent
                    end if
                end try

                -- Build delimited output
                set resultText to resultText & msgSubject & ~"
  +:+ FIELD_DELIM
  +:+ q "~ & msgSender & ~"
  +:+ FIELD_DELIM
  +:+ q "~ & msgDate & ~"
  +:+ FIELD_DELIM
  +:+ q "~ & msgRead & ~"
  +:+ FIELD_DELIM
  +:+ q "~ & msgContent & ~"
  +:+ DELIM
  +:+ q "~
            on error
                -- Skip problematic messages
            end try
        end repeat
    on error errMsg
        return ~ERROR:~ & errMsg
    end try

    return resultText
end tell".

(** The script of archiveEmail. *)
Definition archiveScript (safeAccount safeSubject safeSender : string) : string :=
  q "
tell application ~Mail~
    try
        set targetAccount to first account whose name is ~"
  +:+ safeAccount
  +:+ q "~
        set archiveBox to missing value

        -- Find Archive mailbox (Gmail uses ~[Gmail]/All Mail~, others use ~Archive~)
        repeat with mb in mailboxes of targetAccount
            set mbName to name of mb
            if mbName is ~Archive~ or mbName is ~[Gmail]/All Mail~ or mbName contains ~Archive~ then
                set archiveBox to mb
                exit repeat
            end if
        end repeat

        if archiveBox is missing value then
            return ~ERROR:No Archive mailbox found for account "
  +:+ safeAccount
  +:+ q "~
        end if

        -- Find the message
        set foundMsg to missing value
        repeat with mb in mailboxes of targetAccount
            try
                set msgs to (messages of mb whose subject contains ~"
  +:+ safeSubject
  +:+ q "~ and sender contains ~"
  +:+ safeSender
  +:+ q "~)
                if (count of msgs) > 0 then
                    set foundMsg to item 1 of msgs
                    exit repeat
                end if
            end try
        end repeat

        if foundMsg is missing value then
            return ~ERROR:Message not found~
        end if

        -- Move to archive
        move foundMsg to archiveBox
        return ~SUCCESS:Message archived~
    on error errMsg
        return ~ERROR:~ & errMsg
    end try
end tell".

(** The script of deleteEmail. *)
Definition deleteScript (safeAccount safeSubject safeSender : string) : string :=
  q "
tell application ~Mail~
    try
        set targetAccount to first account whose name is ~"
  +:+ safeAccount
  +:+ q "~
        set trashBox to missing value

        -- Find Trash mailbox
        repeat with mb in mailboxes of targetAccount
            set mbName to name of mb
            if mbName is ~Trash~ or mbName is ~[Gmail]/Trash~ or mbName contains ~Trash~ then
                set trashBox to mb
                exit repeat
            end if
        end repeat

        if trashBox is missing value then
            return ~ERROR:No Trash mailbox found~
        end if

        -- Find the message
        set foundMsg to missing value
        repeat with mb in mailboxes of targetAccount
            try
                set msgs to (messages of mb whose subject contains ~"
  +:+ safeSubject
  +:+ q "~ and sender contains ~"
  +:+ safeSender
  +:+ q "~)
                if (count of msgs) > 0 then
                    set foundMsg to item 1 of msgs
                    exit repeat
                end if
            end try
        end repeat

        if foundMsg is missing value then
            return ~ERROR:Message not found~
        end if

        -- Move to trash
        move foundMsg to trashBox
        return ~SUCCESS:Message deleted~
    on error errMsg
        return ~ERROR:~ & errMsg
    end try
end tell".

(** The script of markAsRead. *)
Definition markAsReadScript (safeAccount safeSubject safeSender : string) : string :=
  q "
tell application ~Mail~
    try
        set targetAccount to first account whose name is ~"
  +:+ safeAccount
  +:+ q "~

        -- Find the message
        set foundMsg to missing value
        repeat with mb in mailboxes of targetAccount
            try
                set msgs to (messages of mb whose subject contains ~"
  +:+ safeSubject
  +:+ q "~ and sender contains ~"
  +:+ safeSender
  +:+ q "~)
                if (count of msgs) > 0 then
                    set foundMsg to item 1 of msgs
                    exit repeat
                end if
            end try
        end repeat

        if foundMsg is missing value then
            return ~ERROR:Message not found~
        end if

        -- Mark as read
        set read status of foundMsg to true
        return ~SUCCESS:Message marked as read~
    on error errMsg
        return ~ERROR:~ & errMsg
    end try
end tell".

(** The script of checkIfReplied. *)
Definition checkIfRepliedScript (safeAccount safeSubject senderEmail : string) : string :=
  q "
tell application ~Mail~
    try
        set targetAccount to first account whose name is ~"
  +:+ safeAccount
  +:+ q "~

        -- Find Sent mailbox (different names: ~Sent~, ~Sent Messages~, ~[Gmail]/Sent Mail~)
        set sentBox to missing value
        repeat with mb in mailboxes of targetAccount
            set mbName to name of mb
            if mbName is ~Sent~ or mbName is ~Sent Messages~ or mbName contains ~Sent Mail~ or mbName is ~[Gmail]/Sent Mail~ then
                set sentBox to mb
                exit repeat
            end if
        end repeat

        if sentBox is missing value then
            return ~ERROR:Could not find Sent mailbox~
        end if

        -- Search for messages with matching subject pattern sent to the original sender
        set foundReply to false
        set replyDate to ~~
        set subjectPattern to ~"
  +:+ safeSubject
  +:+ q "~
        set recipientPattern to ~"
  +:+ senderEmail
  +:+ q "~

        repeat with msg in messages of sentBox
            try
                set msgSubject to subject of msg
                -- Check if subject matches (contains the original subject, accounting for Re: prefixes)
                if msgSubject contains subjectPattern then
                    -- Check if any recipient matches the original sender
                    set msgRecipients to recipients of msg
                    repeat with recip in msgRecipients
                        set recipAddr to address of recip
                        if recipAddr contains recipientPattern then
                            set foundReply to true
                            set replyDate to (date sent of msg) as string
                            exit repeat
                        end if
                    end repeat
                end if
                if foundReply then exit repeat
            on error
                -- Skip problematic messages
            end try
        end repeat

        if foundReply then
            return ~REPLIED:~ & replyDate
        else
            return ~NOREPLYFOUND~
        end if
    on error errMsg
        return ~ERROR:~ & errMsg
    end try
end tell".

(** ** Decoding helpers *)

(** Truthiness of a reply. *)
Definition value_truthy (v : value) : bool :=
  match v with
  | VUndefined | VNull => false
  | VBool b => b
  | VNumber n => negb (is_zero false n || is_zero true n || is_NaN n)
  | VString s => truthy s
  | VArray _ => true
  end.

(** [result.startsWith(p)] on a reply that the code only cast to text: a
    value without that method makes the call throw a TypeError. *)
Definition call_startsWith (p : string) (v : value) : M bool :=
  match v with
  | VString s => ret (startsWith p s)
  | _ => throw "result.startsWith is not a function"
  end.

(** [result === text] for a text literal. *)
Definition strict_eq (v : value) (text : string) : bool :=
  match v with
  | VString s => String.eqb s text
  | _ => false
  end.

(** [name && typeof name === "string"]: the entries that [filter] keeps. *)
Definition text_entry (v : value) : option string :=
  match v with
  | VString s => if truthy s then Some s else None
  | _ => None
  end.

(** [result.filter((name) => name && typeof name === "string")]. *)
Definition filter_names (xs : list value) : list string := omap text_entry xs.

(** [result.split(",").map((s) => s.trim()).filter(Boolean)]. *)
Definition split_names (s : string) : list string :=
  List.filter truthy (List.map trim (split "," s)).

(** [fields[i] || placeholder]: an absent or empty field gives the
    placeholder. *)
Definition field_or (fields : list string) (i : nat) (placeholder : string) : string :=
  match fields !! i with
  | Some f => str_or f placeholder
  | None => placeholder
  end.

(** [fields[3] === "true"]. *)
Definition field_is_true (fields : list string) : bool :=
  match fields !! 3%nat with
  | Some f => String.eqb f "true"
  | None => false
  end.

(** The object pushed for one accepted record of getLatestMails. *)
Definition email_of_fields (account now : string) (fields : list string) : EmailMessage :=
  {| subject := field_or fields 0 "No subject";
     sender := field_or fields 1 "Unknown sender";
     dateSent := field_or fields 2 now;
     isRead := field_is_true fields;
     content := field_or fields 4 "[Content not available]";
     mailbox := account +:+ " - INBOX" |}.

(** The loop [for (const emailStr of emailStrings)] of getLatestMails, with
    [emailData] as the array it pushes to. *)
Fixpoint parse_loop (account now : string) (emailStrings : list string)
    (emailData : list EmailMessage) : list EmailMessage :=
  match emailStrings with
  | [] => emailData
  | emailStr :: rest =>
      let fields := split FIELD_DELIM emailStr in
      if (4 <=? length fields)%nat
      then parse_loop account now rest (emailData ++ [email_of_fields account now fields])
      else parse_loop account now rest emailData
  end.

(** Lines 563 to 580 of getLatestMails: the reply text to the messages. *)
Definition parseLatest (account now asResult : string) : list EmailMessage :=
  let emailStrings := List.filter truthy (split DELIM asResult) in
  parse_loop account now emailStrings [].

(** ** The access gate *)

Definition access_instructions : string :=
  "Mail access is required but not granted. Please:
1. Open System Settings > Privacy & Security > Automation
2. Find your terminal/app in the list and enable 'Mail'
3. Make sure Mail app is running and configured with at least one account
4. Restart your terminal and try again".

Definition checkMailAccess : M bool :=
  try_catch
    (let* _ := runAppleScript probeScript in
     ret true)
    (fun error =>
       console_error ("Cannot access Mail app: " +:+ error) ;;
       ret false).

Definition requestMailAccess : M AccessResult :=
  try_catch
    (let* granted := checkMailAccess in
     if granted
     then ret (mkAccessResult true "Mail access is already granted.")
     else ret (mkAccessResult false access_instructions))
    (fun error =>
       ret (mkAccessResult false ("Error checking Mail access: " +:+ error))).

(** The opening of every operation: [if (!accessResult.hasAccess) throw]. *)
Definition require_access : M unit :=
  let* accessResult := requestMailAccess in
  if negb (hasAccess accessResult) then throw (message accessResult) else ret tt.

(** ** The public operations *)

Definition getUnreadMails (limit : option number) : M (list EmailMessage) :=
  let limit := default (of_Z 10) limit in
  try_catch
    (require_access ;;
     let maxEmails := Math_min limit MAX_EMAILS in
     let script := unreadScript maxEmails in
     let* result := runAppleScript script in
     let* listed :=
       (if value_truthy result then call_startsWith "SUCCESS:" result else ret false) in
     if listed then ret [] else ret [])
    (fun error =>
       console_error ("Error getting unread emails: " +:+ error) ;;
       ret []).

Definition searchMails (searchTerm : string) (limit : option number) : M (list EmailMessage) :=
  let limit := default (of_Z 10) limit in
  try_catch
    (require_access ;;
     if negb (truthy searchTerm) || String.eqb (trim searchTerm) ""
     then ret []
     else
       let maxEmails := Math_min limit MAX_EMAILS in
       let cleanSearchTerm := toLowerCase searchTerm in
       let script := searchScript cleanSearchTerm maxEmails in
       let* result := runAppleScript script in
       let* listed :=
         (if value_truthy result then call_startsWith "SUCCESS:" result else ret false) in
       if listed then ret [] else ret [])
    (fun error =>
       console_error ("Error searching emails: " +:+ error) ;;
       ret []).

(** [`/tmp/email-body-${Date.now()}.txt`]. *)
Definition tmp_path (now : Z) : string :=
  "/tmp/email-body-" +:+ string_of_Z now +:+ ".txt".

Definition sendMail (to subject body : string) (cc bcc : option string) : M string :=
  try_catch
    (require_access ;;
     if negb (truthy to) || negb (truthy (trim to))
     then throw "To address is required"
     else if negb (truthy subject) || negb (truthy (trim subject))
     then throw "Subject is required"
     else if negb (truthy body) || negb (truthy (trim body))
     then throw "Email body is required"
     else
       let* e := ask in
       let tmpFile := tmp_path (date_now e) in
       writeFileSync tmpFile (trim body) ;;
       let script :=
         sendScript tmpFile (escapeQuotes subject) (escapeQuotes to)
                    (ccClause cc) (bccClause bcc) in
       let* result := runAppleScript script in
       try_catch (unlinkSync tmpFile) (fun _ => ret tt) ;;
       if strict_eq result "SUCCESS"
       then ret ("Email sent to " +:+ to +:+ " with subject " +:+ chr dquote
                 +:+ subject +:+ chr dquote)
       else throw "Failed to send email")
    (fun error =>
       console_error ("Error sending email: " +:+ error) ;;
       throw ("Error sending email: " +:+ error)).

(** The decoding shared by getMailboxes and getAccounts. *)
Definition names_of_reply (result : value) : list string :=
  match result with
  | VArray xs => filter_names xs
  | VString s => if truthy (trim s) then split_names s else []
  | _ => []
  end.

Definition getMailboxes : M (list string) :=
  try_catch
    (require_access ;;
     let* result := runAppleScript mailboxesScript in
     ret (names_of_reply result))
    (fun error =>
       console_error ("Error getting mailboxes: " +:+ error) ;;
       ret []).

Definition getAccounts : M (list string) :=
  try_catch
    (require_access ;;
     let* result := runAppleScript accountsScript in
     ret (names_of_reply result))
    (fun error =>
       console_error ("Error getting accounts: " +:+ error) ;;
       ret []).

Definition getMailboxesForAccount (accountName : string) : M (list string) :=
  try_catch
    (require_access ;;
     if negb (truthy accountName) || negb (truthy (trim accountName))
     then ret []
     else
       let script := mailboxesForAccountScript (escapeQuotes accountName) in
       let* result := runAppleScript script in
       match result with
       | VArray xs => ret (filter_names xs)
       | _ => ret []
       end)
    (fun error =>
       console_error ("Error getting mailboxes for account: " +:+ error) ;;
       ret []).

Definition getLatestMails (account : string) (limit : option number) : M (list EmailMessage) :=
  let limit := default (of_Z 5) limit in
  try_catch
    (require_access ;;
     let safeAccount := escapeQuotes account in
     let maxMessages := Math_min limit MAX_EMAILS in
     let script := latestScript safeAccount maxMessages in
     let* asResult := runAppleScript script in
     match asResult with
     | VString s =>
         if startsWith "ERROR:" s
         then throw (substring_from 6 s)
         else
           let* e := ask in
           ret (parseLatest account (date_string e) s)
     | _ => ret []
     end)
    (fun error =>
       (* console.error("Error getting latest emails:", error): the label,
          a space, and the thrown value as the console prints it *)
       let* e := ask in
       console_error ("Error getting latest emails:" +:+ " " +:+ inspect_error e error) ;;
       ret []).

(** The decoding shared by archiveEmail, deleteEmail and markAsRead. *)
Definition operation_result (result : value) : OperationResult :=
  match result with
  | VString s =>
      if startsWith "SUCCESS:" s then mkOperationResult true (substring_from 8 s)
      else if startsWith "ERROR:" s then mkOperationResult false (substring_from 6 s)
      else mkOperationResult false "Unknown response from Mail"
  | _ => mkOperationResult false "Unknown response from Mail"
  end.

Definition archiveEmail (account subject sender : string) : M OperationResult :=
  try_catch
    (require_access ;;
     let safeAccount := escapeQuotes account in
     let safeSubject := escapeBackslashes (escapeQuotes subject) in
     let safeSender := escapeQuotes sender in
     let script := archiveScript safeAccount safeSubject safeSender in
     let* result := runAppleScript script in
     ret (operation_result result))
    (fun error =>
       ret (mkOperationResult false ("Error archiving email: " +:+ error))).

Definition deleteEmail (account subject sender : string) : M OperationResult :=
  try_catch
    (require_access ;;
     let safeAccount := escapeQuotes account in
     let safeSubject := escapeBackslashes (escapeQuotes subject) in
     let safeSender := escapeQuotes sender in
     let script := deleteScript safeAccount safeSubject safeSender in
     let* result := runAppleScript script in
     ret (operation_result result))
    (fun error =>
       ret (mkOperationResult false ("Error deleting email: " +:+ error))).

Definition markAsRead (account subject sender : string) : M OperationResult :=
  try_catch
    (require_access ;;
     let safeAccount := escapeQuotes account in
     let safeSubject := escapeBackslashes (escapeQuotes subject) in
     let safeSender := escapeQuotes sender in
     let script := markAsReadScript safeAccount safeSubject safeSender in
     let* result := runAppleScript script in
     ret (operation_result result))
    (fun error =>
       ret (mkOperationResult false ("Error marking email as read: " +:+ error))).

(** [originalSender.match(/<([^>]+)>/) || [null, originalSender]], then
    [emailMatch[1] || originalSender]. *)
Definition sender_address (originalSender : string) : string :=
  let emailMatch1 :=
    match matchAngle originalSender with
    | Some addr => addr
    | None => originalSender
    end in
  str_or emailMatch1 originalSender.

(** The two containment patterns that checkIfReplied interpolates. *)
Definition subjectPattern (originalSubject : string) : string :=
  escapeBackslashes (escapeQuotes (stripReplyPrefix originalSubject)).

Definition recipientPattern (originalSender : string) : string :=
  escapeQuotes (toLowerCase (sender_address originalSender)).

Definition reply_result (result : value) : ReplyResult :=
  match result with
  | VString s =>
      if startsWith "REPLIED:" s
      then mkReplyResult true (Some (substring_from 8 s)) "Reply found"
      else if String.eqb s "NOREPLYFOUND"
      then mkReplyResult false None "No reply found"
      else if startsWith "ERROR:" s
      then mkReplyResult false None (substring_from 6 s)
      else mkReplyResult false None "Unknown response from Mail"
  | _ => mkReplyResult false None "Unknown response from Mail"
  end.

Definition checkIfReplied (account originalSubject originalSender : string) : M ReplyResult :=
  try_catch
    (require_access ;;
     let safeAccount := escapeQuotes account in
     let safeSubject := subjectPattern originalSubject in
     let senderEmail := recipientPattern originalSender in
     let script := checkIfRepliedScript safeAccount safeSubject senderEmail in
     let* result := runAppleScript script in
     ret (reply_result result))
    (fun error =>
       ret (mkReplyResult false None ("Error checking for reply: " +:+ error))).

(** ** Vocabulary of the statements *)

(** Empty or made of white space only. *)
Definition whitespace_only (s : string) : bool :=
  forallb is_ws (list_ascii_of_string s).

(** The first, respectively the last, character of [s] is white space. *)
Definition starts_with_ws (s : string) : bool :=
  match s with
  | EmptyString => false
  | String c _ => is_ws c
  end.

Fixpoint ends_with_ws (s : string) : bool :=
  match s with
  | EmptyString => false
  | String c EmptyString => is_ws c
  | String _ r => ends_with_ws r
  end.

(** The invocations an operation added to the record. *)
Definition new_calls (before after : World) : list Invocation :=
  drop (length (calls before)) (calls after).

(** The scripts an operation handed to the interpreter, in order. *)
Definition scripts (before after : World) : list string :=
  List.map inv_script (new_calls before after).

Definition raised (i : Invocation) : bool :=
  match inv_reply i with
  | Raises _ => true
  | Returns _ => false
  end.

(** Some invocation made by the operation ended in an error: the access
    probe (access failure) or the operation's own script. *)
Definition some_call_failed (before after : World) : bool :=
  existsb raised (new_calls before after).

(** A listing operation swallows failures: it never throws, and when one of
    its invocations ended in an error it returns the empty list. *)
Definition swallows {A : Type} (op : M (list A)) (e : Env) (w : World) : Prop :=
  (exists l, fst (op e w) = Normal l)
  /\ (some_call_failed w (snd (op e w)) = true -> fst (op e w) = Normal []).

(** An operation re-throws: when one of its invocations ended in an error
    it throws, with the text of sendMail's catch block. *)
Definition rethrows {A : Type} (op : M A) (e : Env) (w : World) : Prop :=
  some_call_failed w (snd (op e w)) = true ->
  exists msg, fst (op e w) = Throw ("Error sending email: " +:+ msg).

(** An operation never returns silently: it ends normally only when the
    last script it invoked was answered with the text SUCCESS, and every
    other run ends in a throw. *)
Definition returns_only_on_success {A : Type} (op : M A) (e : Env) (w : World) : Prop :=
  match fst (op e w) with
  | Normal _ =>
      exists i, last (new_calls w (snd (op e w))) = Some i
                /\ inv_reply i = Returns (VString "SUCCESS")
  | Throw msg => exists cause, msg = "Error sending email: " +:+ cause
  end.

(** The script sendMail renders for its arguments. *)
Definition send_script_of (e : Env) (subject to : string) (cc bcc : option string) : string :=
  sendScript (tmp_path (date_now e)) (escapeQuotes subject) (escapeQuotes to)
             (ccClause cc) (bccClause bcc).

(** The world in which sendMail invokes its script: the probe is on
    record with its reply and the body file is written. *)
Definition world_at_send (e : Env) (w : World) (probe : reply) (body : string) : World :=
  mkWorld (calls w ++ [mkInvocation probeScript (files w) probe])
          (<[tmp_path (date_now e) := trim body]> (files w))
          (console w).

(** The escaping in the words of the specification: quotes doubled, then
    backslashes escaped. *)
Definition doubleQuotes (s : string) : string :=
  replaceAll dquote (String dquote (chr dquote)) s.

Definition spec_escape (s : string) : string :=
  escapeBackslashes (doubleQuotes s).

(** What the code does to a literal before interpolation: the quote step,
    alone or followed by the backslash step. *)
Inductive escaped (raw : string) : string -> Prop :=
  | escaped_quotes : escaped raw (escapeQuotes raw)
  | escaped_quotes_then_backslashes :
      escaped raw (escapeBackslashes (escapeQuotes raw)).

(** No character of [s] is [c]. *)
Definition free_of (c : ascii) (s : string) : bool :=
  forallb (fun d => negb (Ascii.eqb d c)) (list_ascii_of_string s).

(** One of Re:, RE:, Fwd:, FWD: in any mix of cases. *)
Definition is_reply_prefix (p : string) : bool :=
  String.eqb (toLowerCase p) "re:" || String.eqb (toLowerCase p) "fwd:".

(** [s] starts with such a prefix. *)
Definition has_reply_prefix (s : string) : bool :=
  String.prefix "re:" (toLowerCase s) || String.prefix "fwd:" (toLowerCase s).

(** [s] holds an angle-bracket form: an opening bracket, one or more
    characters other than the closing bracket, and the closing bracket. *)
Definition bracket_form (s : string) : Prop :=
  exists pre addr post,
    s = pre +:+ chr langle +:+ addr +:+ chr rangle +:+ post
    /\ truthy addr = true
    /\ free_of rangle addr = true.

(** The records of a reply in the words of the specification: the
    non-empty fragments between record delimiters, each cut into fields. *)
Definition records_of (asResult : string) : list (list string) :=
  List.map (split FIELD_DELIM) (List.filter truthy (split DELIM asResult)).

Definition accepted (fields : list string) : bool := (4 <=? length fields)%nat.

(** The delimited encoding: the fields of a record joined by the field
    delimiter, every record closed by the record delimiter, as the generated
    script of getLatestMails writes its five fields per message. *)
Definition encode_record (fields : list string) : string :=
  join FIELD_DELIM fields +:+ DELIM.

Definition encode_reply (records : list (list string)) : string :=
  List.fold_right (fun r acc => encode_record r +:+ acc) EmptyString records.

(** A field as the specification reads it: the placeholder stands in for
    a field that is absent or empty. *)
Definition or_placeholder (fields : list string) (i : nat) (placeholder : string) : string :=
  if String.eqb (nth i fields EmptyString) EmptyString
  then placeholder
  else nth i fields EmptyString.

(** No occurrence of [sep] starts inside [x] when [x] is followed by [y]. *)
Fixpoint unmatched (sep x y : string) : bool :=
  match x with
  | EmptyString => true
  | String _ r => negb (String.prefix sep (x +:+ y)) && unmatched sep r y
  end.

(** [x] put in front of the first piece of a split. *)
Definition cons_first (x : string) (pieces : list string) : list string :=
  match pieces with
  | p :: ps => (x +:+ p) :: ps
  | [] => [x]
  end.

(** Every field of every record is free of the opening angle bracket, the
    character both delimiters start with. *)
Definition plain_records (records : list (list string)) : bool :=
  forallb (forallb (free_of langle)) records.

(** An operation makes the access probe its first invocation and at most
    one invocation after it. *)
Definition probe_then_at_most_one (before after : World) : Prop :=
  exists rest,
    scripts before after = probeScript :: rest /\ (length rest <= 1)%nat.

(** The environment [e] with a file system that never refuses a removal. *)
Definition with_working_unlink (e : Env) : Env :=
  mkEnv (bridge e) (date_now e) (date_string e) (write_error e) (write_partial e)
        (fun _ => None) (inspect_error e).

(** Every double quote of [s] stands right after a backslash; [prev] says
    whether the character before [s] is a backslash. *)
Fixpoint quotes_preceded (prev : bool) (s : string) : bool :=
  match s with
  | EmptyString => true
  | String c r =>
      (if Ascii.eqb c dquote then prev else true)
      && quotes_preceded (Ascii.eqb c backslash) r
  end.

(** The number of characters of [s] that are [c]. *)
Fixpoint count_char (c : ascii) (s : string) : nat :=
  match s with
  | EmptyString => O
  | String d r => (if Ascii.eqb d c then 1 else 0) + count_char c r
  end.

(** What every message of getLatestMails shows: the label made of the
    account, and no empty subject, sender or content. *)
Definition well_labelled (account : string) (m : EmailMessage) : Prop :=
  mailbox m = account +:+ " - INBOX"
  /\ truthy (subject m) = true
  /\ truthy (sender m) = true
  /\ truthy (content m) = true.

(** An operation that reports an outcome never throws, and reports success
    only when access was granted and the reply to [script] was the success
    mark followed by the message it reports. *)
Definition success_means_marked
    (op : M OperationResult) (script : string) (e : Env) (w : World) : Prop :=
  exists r,
    fst (op e w) = Normal r
    /\ (success r = true ->
        exists v,
          bridge e w probeScript = Returns v
          /\ bridge e (log_call probeScript (Returns v) w) script
             = Returns (VString ("SUCCESS:" +:+ op_message r))).

(** Every double quote of [s] stands after a run of backslashes whose
    length is even when [want] is true and odd when it is false; [even] says
    whether the run that ends just before [s] has even length. *)
Fixpoint quotes_after_run (want even : bool) (s : string) : bool :=
  match s with
  | EmptyString => true
  | String c r =>
      if Ascii.eqb c backslash then quotes_after_run want (negb even) r
      else (if Ascii.eqb c dquote then Bool.eqb even want else true)
           && quotes_after_run want true r
  end.

(** A name as a comma-joined text reply gives it: not empty, no white
    space at either end, no comma. *)
Definition clean_name (n : string) : Prop :=
  truthy n = true
  /\ starts_with_ws n = false
  /\ ends_with_ws n = false
  /\ free_of ","%char n = true.

(** The lines an operation wrote to the error console. *)
Definition logged (before after : World) : list string :=
  drop (length (console before)) (console after).

(** The line the access probe writes to the error console when it fails. *)
Definition probe_line (e : Env) (w : World) : list string :=
  match bridge e w probeScript with
  | Returns _ => []
  | Raises msg => ["Cannot access Mail app: " +:+ msg]
  end.

(** ** Interpreters and worlds for the examples *)

Definition empty_world : World := mkWorld [] ∅ [].

Definition today : string :=
  "Tue Nov 14 2023 22:13:20 GMT+0000 (Coordinated Universal Time)".

(** The limit -1e21, which is -(5^21) * 2^21. *)
Definition minus_1e21 : number := Finite true 476837158203125 21.

(** The text of a thrown error as a console prints it. *)
Definition plain_inspect (msg : string) : string := "Error: " +:+ msg.

(** An interpreter that ends every invocation the same way. *)
Definition steady_env (r : reply) : Env :=
  mkEnv (fun _ _ => r) 1700000000000 today (fun _ => None) (fun _ _ => None)
        (fun _ => None) plain_inspect.

(** An interpreter that answers the access probe with [probe] and every
    other script with [op]. *)
Definition scripted_env (probe op : reply) : Env :=
  mkEnv (fun _ script => if String.eqb script probeScript then probe else op)
        1700000000000 today (fun _ => None) (fun _ _ => None)
        (fun _ => None) plain_inspect.

(** Three records: one of four fields, one of five with its first three
    fields empty, one of three fields. *)
Definition demo_records : list (list string) :=
  [["Hello"; "ann@example.com"; "Monday"; "true"];
   [""; ""; ""; "false"; "Body"];
   ["a"; "b"; "c"]].

(** A reply of [n] records of four fields each. *)
Definition many_records (n : nat) : string :=
  encode_reply (repeat ["Hello"; "ann@example.com"; "Monday"; "true"] n).

(** An interpreter that answers every script with [r], on a file system that
    refuses to open any file for writing, that runs full after the first two
    characters of a write, respectively that refuses to remove any file. *)
Definition read_only_env (r : reply) : Env :=
  mkEnv (fun _ _ => r) 1700000000000 today
        (fun _ => Some "EACCES: permission denied") (fun _ _ => None)
        (fun _ => None) plain_inspect.

Definition full_disk_env (r : reply) : Env :=
  mkEnv (fun _ _ => r) 1700000000000 today
        (fun _ => Some "ENOSPC: no space left on device")
        (fun _ data => Some (String.substring 0 2 data))
        (fun _ => None) plain_inspect.

Definition sticky_env (r : reply) : Env :=
  mkEnv (fun _ _ => r) 1700000000000 today
        (fun _ => None) (fun _ _ => None)
        (fun _ => Some "EPERM: operation not permitted") plain_inspect.

Arguments q : simpl never.
Arguments string_of_Z : simpl never.
Arguments Number_toString : simpl never.
Arguments probeScript : simpl never.
Arguments unreadScript : simpl never.
Arguments searchScript : simpl never.
Arguments sendScript : simpl never.
Arguments mailboxesScript : simpl never.
Arguments accountsScript : simpl never.
Arguments mailboxesForAccountScript : simpl never.
Arguments latestScript : simpl never.
Arguments archiveScript : simpl never.
Arguments deleteScript : simpl never.
Arguments markAsReadScript : simpl never.
Arguments checkIfRepliedScript : simpl never.
Arguments access_instructions : simpl never.

(** The template texts are long: proofs treat them as atoms, and open them
    only where a statement is about their text. *)
Opaque q probeScript unreadScript searchScript sendScript mailboxesScript
  accountsScript mailboxesForAccountScript latestScript archiveScript
  deleteScript markAsReadScript checkIfRepliedScript access_instructions.

(** * Properties *)

Example split_demo :
  split "," "a,b,,c," = ["a"; "b"; ""; "c"; ""]
  /\ split "<<>>" "x<<>>y<<<>>" = ["x"; "y<"; ""]
  /\ split "," "" = [""]
  /\ trim "  a b  " = "a b"
  /\ toLowerCase "Re: ABC" = "re: abc"
  /\ string_of_Z 20 = "20" /\ string_of_Z (-3) = "-3" /\ string_of_Z 0 = "0".
Proof. repeat split; reflexivity. Qed.

Example escape_demo :
  escapeQuotes (q "say ~hi~") = String.append "say \" (q "~hi\~")
  /\ escapeBackslashes "a\b" = "a\\b"
  /\ stripReplyPrefix "RE:   Re: plan" = "Re: plan"
  /\ stripReplyPrefix "fWd:plan" = "plan"
  /\ stripReplyPrefix "Reply" = "Reply"
  /\ matchAngle "John Doe <john@example.com>" = Some "john@example.com"
  /\ matchAngle "a <> b <x@y> <z>" = Some "x@y"
  /\ matchAngle "john@example.com" = None
  /\ matchAngle "<unclosed" = None.
Proof. vm_compute. repeat split; reflexivity. Qed.

(** ** Strings *)

Lemma append_cons (c : ascii) (a b : string) :
  String c a +:+ b = String c (a +:+ b).
Proof. reflexivity. Qed.

Lemma append_nil_l (a : string) : "" +:+ a = a.
Proof. reflexivity. Qed.

Lemma append_assoc (a b c : string) : (a +:+ b) +:+ c = a +:+ b +:+ c.
Proof.
  induction a as [|x a IH]; [reflexivity|].
  rewrite !append_cons. f_equal. exact IH.
Qed.

Lemma append_nil_r (a : string) : a +:+ "" = a.
Proof.
  induction a as [|x a IH]; [reflexivity|].
  rewrite append_cons. f_equal. exact IH.
Qed.

(** Regrouping a rendered template around one interpolated value: the
    closed text [l1] before it ends with [before], the closed text [l2]
    after it starts with [after]. *)
Lemma regroup_first (l1 pre before rest : string) :
  l1 = pre +:+ before ->
  l1 +:+ rest = pre +:+ before +:+ rest.
Proof. intros ->. apply append_assoc. Qed.

Lemma regroup_first_after (l1 pre before hole l2 after post rest : string) :
  l1 = pre +:+ before ->
  l2 = after +:+ post ->
  l1 +:+ hole +:+ l2 +:+ rest = pre +:+ before +:+ hole +:+ after +:+ post +:+ rest.
Proof. intros -> ->. rewrite !append_assoc. reflexivity. Qed.

Lemma regroup_later (l0 t l1 pre before rest : string) :
  l1 = pre +:+ before ->
  l0 +:+ t +:+ l1 +:+ rest = (l0 +:+ t +:+ pre) +:+ before +:+ rest.
Proof. intros ->. rewrite !append_assoc. reflexivity. Qed.

Lemma regroup_later_after (l0 t l1 pre before hole l2 after post rest : string) :
  l1 = pre +:+ before ->
  l2 = after +:+ post ->
  l0 +:+ t +:+ l1 +:+ hole +:+ l2 +:+ rest =
  (l0 +:+ t +:+ pre) +:+ before +:+ hole +:+ after +:+ post +:+ rest.
Proof. intros -> ->. rewrite !append_assoc. reflexivity. Qed.

(** The part of the closed text [l] before its ending [ending]. *)
Ltac text_before l ending :=
  let k := eval vm_compute in (String.length l - String.length ending)%nat in
  eval vm_compute in (String.substring 0 k l).

(** The part of the closed text [l] after its beginning [beginning]. *)
Ltac text_after l beginning :=
  eval vm_compute in (substring_from (String.length beginning) l).

Lemma string_prefix_app (s t : string) : String.prefix s (s +:+ t) = true.
Proof.
  induction s as [|a s IH]; [destruct t; reflexivity|].
  rewrite append_cons. cbn [String.prefix].
  destruct (ascii_dec a a); [exact IH|contradiction].
Qed.

Lemma prefix_head_differs (a b : ascii) (s t : string) :
  Ascii.eqb b a = false -> String.prefix (String a s) (String b t) = false.
Proof.
  intros H. cbn [String.prefix]. destruct (ascii_dec a b) as [->|]; [|reflexivity].
  rewrite Ascii.eqb_refl in H. discriminate.
Qed.

Lemma truthy_false (s : string) : truthy s = false <-> s = EmptyString.
Proof. destruct s; simpl; split; congruence. Qed.

Lemma trimStart_blank (s : string) :
  whitespace_only s = true -> trimStart s = EmptyString.
Proof.
  induction s as [|c r IH]; simpl; [reflexivity|].
  unfold whitespace_only in *. simpl.
  intros H. apply andb_prop in H as [Hc Hr]. rewrite Hc. auto.
Qed.

Lemma trimEnd_blank (s : string) :
  trimEnd s = EmptyString -> whitespace_only s = true.
Proof.
  induction s as [|c r IH]; simpl; [reflexivity|].
  unfold whitespace_only in *. simpl.
  destruct (trimEnd r) eqn:E; [|discriminate].
  destruct (is_ws c); [|discriminate]. intros _. simpl. auto.
Qed.

Lemma trimStart_not_blank (s : string) :
  whitespace_only (trimStart s) = true -> whitespace_only s = true.
Proof.
  induction s as [|c r IH]; simpl; [reflexivity|].
  destruct (is_ws c) eqn:E.
  - intros H. unfold whitespace_only in *. simpl. rewrite E. simpl. auto.
  - auto.
Qed.

(** [trim] gives the empty string exactly on the empty and the
    white-space-only strings. *)
Lemma trim_blank (s : string) :
  trim s = EmptyString <-> whitespace_only s = true.
Proof.
  unfold trim. split.
  - intros H. apply trimStart_not_blank, trimEnd_blank, H.
  - intros H. rewrite trimStart_blank by exact H. reflexivity.
Qed.

(** The guard [!s || !s.trim()] is the test for a blank string. *)
Lemma blank_guard (s : string) :
  negb (truthy s) || negb (truthy (trim s)) = whitespace_only s.
Proof.
  destruct (whitespace_only s) eqn:E.
  - apply trim_blank in E. rewrite E. simpl. apply orb_true_r.
  - destruct (truthy s) eqn:Es.
    + simpl. destruct (truthy (trim s)) eqn:Et; [reflexivity|].
      apply truthy_false, trim_blank in Et. congruence.
    + apply truthy_false in Es. subst. discriminate.
Qed.

Lemma blank_guard_eqb (s : string) :
  negb (truthy s) || String.eqb (trim s) "" = whitespace_only s.
Proof.
  rewrite <- blank_guard. f_equal.
  destruct (trim s); reflexivity.
Qed.

(** ** The access gate *)

(** The gate makes exactly one invocation, the probe, and lets the
    operation continue exactly when the probe returns. *)
Lemma require_access_run (e : Env) (w : World) :
  require_access e w =
  match bridge e w probeScript with
  | Returns v => (Normal tt, log_call probeScript (Returns v) w)
  | Raises msg =>
      (Throw access_instructions,
       mkWorld (calls w ++ [mkInvocation probeScript (files w) (Raises msg)])
               (files w)
               (console w ++ ["Cannot access Mail app: " +:+ msg]))
  end.
Proof.
  unfold require_access, requestMailAccess, checkMailAccess, try_catch, bind,
    runAppleScript, console_error, ret, throw, log_call.
  destruct (bridge e w probeScript); reflexivity.
Qed.

Lemma new_calls_app (w w' : World) (l : list Invocation) :
  calls w' = calls w ++ l -> new_calls w w' = l.
Proof. unfold new_calls. intros ->. apply drop_app_length. Qed.

(** Unfolds one operation down to the replies of the interpreter. *)
Ltac run_gate :=
  unfold try_catch, bind; rewrite require_access_run.

Ltac run_steps :=
  unfold runAppleScript, console_error, writeFileSync, unlinkSync, call_startsWith,
    ask, ret, throw, try_catch, bind, log_call; simpl.

Ltac settle_calls :=
  unfold scripts, some_call_failed;
  erewrite new_calls_app by (simpl; rewrite <- ?app_assoc; reflexivity);
  simpl.

(** ** Unread and search listings *)

Lemma getUnreadMails_empty (limit : option number) (e : Env) (w : World) :
  fst (getUnreadMails limit e w) = Normal [].
Proof.
  unfold getUnreadMails. run_gate.
  destruct (bridge e w probeScript) as [v|msg]; [|reflexivity].
  run_steps.
  destruct (bridge e _ _) as [r|msg]; [|reflexivity].
  destruct r as [| |[]|n|s|xs]; simpl; try reflexivity.
  - destruct (negb (is_zero false n || is_zero true n || is_NaN n)); reflexivity.
  - destruct (truthy s); [destruct (startsWith _ s)|]; reflexivity.
Qed.

Lemma searchMails_empty (searchTerm : string) (limit : option number) (e : Env) (w : World) :
  fst (searchMails searchTerm limit e w) = Normal [].
Proof.
  unfold searchMails. run_gate.
  destruct (bridge e w probeScript) as [v|msg]; [|reflexivity].
  destruct (negb (truthy searchTerm) || String.eqb (trim searchTerm) "");
    [reflexivity|].
  run_steps.
  destruct (bridge e _ _) as [r|msg]; [|reflexivity].
  destruct r as [| |[]|n|s|xs]; simpl; try reflexivity.
  - destruct (negb (is_zero false n || is_zero true n || is_NaN n)); reflexivity.
  - destruct (truthy s); [destruct (startsWith _ s)|]; reflexivity.
Qed.

(** C5. Whatever the limit, the search term, the interpreter and the world,
    getUnreadMails and searchMails end normally with the empty list; in
    particular a reply that starts with SUCCESS: is not decoded. *)
Theorem unread_and_search_return_empty
    (limit : option number) (searchTerm : string) (e : Env) (w : World) :
  fst (getUnreadMails limit e w) = Normal []
  /\ fst (searchMails searchTerm limit e w) = Normal [].
Proof.
  split; [apply getUnreadMails_empty|apply searchMails_empty].
Qed.

(** ** Blank inputs *)

(** C3, as stated, fails: with an interpreter that records its calls,
    searchMails on the empty and on a white-space-only term,
    getMailboxesForAccount on the empty name and sendMail on an empty
    recipient each record one invocation, the access probe, not zero. *)
Lemma blank_input_records_the_probe :
  fst (searchMails "" None (steady_env (Returns (VString "Mail"))) empty_world) = Normal []
  /\ scripts empty_world
       (snd (searchMails "" None (steady_env (Returns (VString "Mail"))) empty_world))
     = [probeScript]
  /\ scripts empty_world
       (snd (searchMails "   " None (steady_env (Returns (VString "Mail"))) empty_world))
     = [probeScript]
  /\ scripts empty_world
       (snd (getMailboxesForAccount "" (steady_env (Returns (VString "Mail"))) empty_world))
     = [probeScript]
  /\ length (calls (snd (sendMail "" "Hi" "Hello" None None
                           (steady_env (Returns (VString "Mail"))) empty_world))) = 1%nat.
Proof. vm_compute. repeat split; reflexivity. Qed.

(** C3, amended. On an empty or white-space-only search term searchMails
    returns the empty list, on such an account name getMailboxesForAccount
    returns the empty list, and on such a recipient, subject or body sendMail
    throws; in each case the only script handed to the interpreter is the
    access probe, so the operation's own script is never invoked (and
    sendMail writes no file). *)
Theorem blank_input_invokes_only_probe
    (e : Env) (w : World) (searchTerm : string) (limit : option number)
    (accountName to subject body : string) (cc bcc : option string) :
  (whitespace_only searchTerm = true ->
     fst (searchMails searchTerm limit e w) = Normal []
     /\ scripts w (snd (searchMails searchTerm limit e w)) = [probeScript])
  /\ (whitespace_only accountName = true ->
     fst (getMailboxesForAccount accountName e w) = Normal []
     /\ scripts w (snd (getMailboxesForAccount accountName e w)) = [probeScript])
  /\ (whitespace_only to || whitespace_only subject || whitespace_only body = true ->
     (exists msg, fst (sendMail to subject body cc bcc e w) = Throw msg)
     /\ scripts w (snd (sendMail to subject body cc bcc e w)) = [probeScript]
     /\ files (snd (sendMail to subject body cc bcc e w)) = files w).
Proof.
  repeat split.
  - unfold searchMails. run_gate. rewrite blank_guard_eqb, H.
    destruct (bridge e w probeScript); reflexivity.
  - unfold searchMails. run_gate. rewrite blank_guard_eqb, H.
    destruct (bridge e w probeScript); run_steps; settle_calls; reflexivity.
  - unfold getMailboxesForAccount. run_gate. rewrite blank_guard, H.
    destruct (bridge e w probeScript); reflexivity.
  - unfold getMailboxesForAccount. run_gate. rewrite blank_guard, H.
    destruct (bridge e w probeScript); run_steps; settle_calls; reflexivity.
  - unfold sendMail. run_gate. rewrite !blank_guard.
    destruct (bridge e w probeScript); [|run_steps; eauto].
    destruct (whitespace_only to); [run_steps; eauto|].
    destruct (whitespace_only subject); [run_steps; eauto|].
    destruct (whitespace_only body); [run_steps; eauto|discriminate].
  - unfold sendMail. run_gate. rewrite !blank_guard.
    destruct (bridge e w probeScript); [|run_steps; settle_calls; reflexivity].
    destruct (whitespace_only to); [run_steps; settle_calls; reflexivity|].
    destruct (whitespace_only subject); [run_steps; settle_calls; reflexivity|].
    destruct (whitespace_only body); [run_steps; settle_calls; reflexivity|discriminate].
  - unfold sendMail. run_gate. rewrite !blank_guard.
    destruct (bridge e w probeScript); [|reflexivity].
    destruct (whitespace_only to); [reflexivity|].
    destruct (whitespace_only subject); [reflexivity|].
    destruct (whitespace_only body); [reflexivity|discriminate].
Qed.

Lemma blank_input_invokes_only_probe_witness :
  (fst (searchMails "   " None (steady_env (Returns (VString "Mail"))) empty_world) = Normal []
   /\ scripts empty_world
        (snd (searchMails "   " None (steady_env (Returns (VString "Mail"))) empty_world))
      = [probeScript])
  /\ (fst (getMailboxesForAccount "" (steady_env (Returns (VString "Mail"))) empty_world)
      = Normal []
      /\ scripts empty_world
           (snd (getMailboxesForAccount "" (steady_env (Returns (VString "Mail"))) empty_world))
         = [probeScript])
  /\ ((exists msg, fst (sendMail "ann@example.com" " " "Hello" None None
                          (steady_env (Returns (VString "Mail"))) empty_world) = Throw msg)
      /\ scripts empty_world
           (snd (sendMail "ann@example.com" " " "Hello" None None
                   (steady_env (Returns (VString "Mail"))) empty_world))
         = [probeScript]
      /\ files (snd (sendMail "ann@example.com" " " "Hello" None None
                       (steady_env (Returns (VString "Mail"))) empty_world))
         = files empty_world).
Proof.
  destruct (blank_input_invokes_only_probe
              (steady_env (Returns (VString "Mail"))) empty_world
              "   " None "" "ann@example.com" " " "Hello" None None)
    as (H1 & H2 & H3).
  split; [apply H1; reflexivity|].
  split; [apply H2; reflexivity|].
  apply H3; reflexivity.
Defined.

(** ** Failures *)

Ltac settle_calls_in H :=
  unfold scripts, some_call_failed in H;
  erewrite new_calls_app in H by (simpl; rewrite <- ?app_assoc; reflexivity);
  simpl in H.

Lemma getUnreadMails_failure (limit : option number) (e : Env) (w : World) :
  some_call_failed w (snd (getUnreadMails limit e w)) = true ->
  fst (getUnreadMails limit e w) = Normal [].
Proof. intros _. apply getUnreadMails_empty. Qed.

Lemma searchMails_failure (searchTerm : string) (limit : option number) (e : Env) (w : World) :
  some_call_failed w (snd (searchMails searchTerm limit e w)) = true ->
  fst (searchMails searchTerm limit e w) = Normal [].
Proof. intros _. apply searchMails_empty. Qed.

Lemma getMailboxes_failure (e : Env) (w : World) :
  (exists l, fst (getMailboxes e w) = Normal l)
  /\ (some_call_failed w (snd (getMailboxes e w)) = true ->
      fst (getMailboxes e w) = Normal []).
Proof.
  unfold getMailboxes. run_gate.
  destruct (bridge e w probeScript) as [v|msg]; [|run_steps; eauto].
  run_steps. destruct (bridge e _ _) as [r|msg]; simpl; [|eauto].
  split; [eauto|]. intros H. settle_calls_in H. discriminate.
Qed.

Lemma getAccounts_failure (e : Env) (w : World) :
  (exists l, fst (getAccounts e w) = Normal l)
  /\ (some_call_failed w (snd (getAccounts e w)) = true ->
      fst (getAccounts e w) = Normal []).
Proof.
  unfold getAccounts. run_gate.
  destruct (bridge e w probeScript) as [v|msg]; [|run_steps; eauto].
  run_steps. destruct (bridge e _ _) as [r|msg]; simpl; [|eauto].
  split; [eauto|]. intros H. settle_calls_in H. discriminate.
Qed.

Lemma getMailboxesForAccount_failure (accountName : string) (e : Env) (w : World) :
  (exists l, fst (getMailboxesForAccount accountName e w) = Normal l)
  /\ (some_call_failed w (snd (getMailboxesForAccount accountName e w)) = true ->
      fst (getMailboxesForAccount accountName e w) = Normal []).
Proof.
  unfold getMailboxesForAccount. run_gate.
  destruct (bridge e w probeScript) as [v|msg]; [|run_steps; eauto].
  destruct (negb (truthy accountName) || negb (truthy (trim accountName))).
  - run_steps. split; [eauto|]. intros H. settle_calls_in H. discriminate.
  - run_steps. destruct (bridge e _ _) as [r|msg]; simpl; [|eauto].
    destruct r; simpl; (split; [eauto|]); intros H; settle_calls_in H; discriminate.
Qed.

Lemma getLatestMails_failure (account : string) (limit : option number) (e : Env) (w : World) :
  (exists l, fst (getLatestMails account limit e w) = Normal l)
  /\ (some_call_failed w (snd (getLatestMails account limit e w)) = true ->
      fst (getLatestMails account limit e w) = Normal []).
Proof.
  unfold getLatestMails. run_gate.
  destruct (bridge e w probeScript) as [v|msg]; [|run_steps; eauto].
  run_steps. destruct (bridge e _ _) as [r|msg]; simpl; [|eauto].
  destruct r as [| |b|n|s|xs]; simpl;
    try (split; [eauto|]; intros H; settle_calls_in H; discriminate).
  destruct (startsWith "ERROR:" s); simpl; [eauto|].
  split; [eauto|]. intros H. settle_calls_in H. discriminate.
Qed.

(** ** Sending *)

(** The run of sendMail on accepted arguments once access is granted and the
    body file could be written: what it invokes, how it ends and which files
    it leaves, by the reply to its script. *)
Lemma sendMail_valid_run
    (e : Env) (w : World) (v : value) (to subject body : string) (cc bcc : option string) :
  bridge e w probeScript = Returns v ->
  whitespace_only to = false ->
  whitespace_only subject = false ->
  whitespace_only body = false ->
  write_error e (tmp_path (date_now e)) = None ->
  let tmpFile := tmp_path (date_now e) in
  let w2 := world_at_send e w (Returns v) body in
  let script := send_script_of e subject to cc bcc in
  let out := sendMail to subject body cc bcc e w in
  new_calls w (snd out) =
    [mkInvocation probeScript (files w) (Returns v);
     mkInvocation script (files w2) (bridge e w2 script)]
  /\ match bridge e w2 script with
     | Raises msg =>
         fst out = Throw ("Error sending email: " +:+ msg)
         /\ files (snd out) = files w2
     | Returns x =>
         fst out =
           (if strict_eq x "SUCCESS"
            then Normal ("Email sent to " +:+ to +:+ " with subject " +:+ chr dquote
                         +:+ subject +:+ chr dquote)
            else Throw "Error sending email: Failed to send email")
         /\ files (snd out) =
              match unlink_error e tmpFile with
              | None => delete tmpFile (files w2)
              | Some _ => files w2
              end
     end.
Proof.
  intros Hp Hto Hsub Hbody Hw. cbv zeta. unfold world_at_send, send_script_of.
  unfold sendMail. run_gate. rewrite Hp, !blank_guard, Hto, Hsub, Hbody.
  run_steps. rewrite Hw. simpl.
  destruct (bridge e _ (sendScript _ _ _ _ _)) as [x|msg] eqn:Hr; simpl.
  - rewrite lookup_insert_eq.
    destruct (unlink_error e _); simpl;
      (destruct (strict_eq x "SUCCESS"); simpl;
       (split; [apply new_calls_app; simpl; rewrite <- ?app_assoc; reflexivity|]);
       split; reflexivity).
  - split; [apply new_calls_app; simpl; rewrite <- ?app_assoc; reflexivity|].
    split; reflexivity.
Qed.

Lemma strict_eq_true (x : value) (text : string) :
  strict_eq x text = true -> x = VString text.
Proof.
  destruct x; simpl; try discriminate.
  intros H. apply String.eqb_eq in H. congruence.
Qed.

Lemma sendMail_failure
    (to subject body : string) (cc bcc : option string) (e : Env) (w : World) :
  rethrows (sendMail to subject body cc bcc) e w
  /\ returns_only_on_success (sendMail to subject body cc bcc) e w.
Proof.
  unfold rethrows, returns_only_on_success, sendMail. run_gate.
  destruct (bridge e w probeScript) as [v|msg]; [|run_steps; eauto].
  rewrite !blank_guard.
  destruct (whitespace_only to);
    [run_steps; split; [intros H; settle_calls_in H; discriminate|eauto]|].
  destruct (whitespace_only subject);
    [run_steps; split; [intros H; settle_calls_in H; discriminate|eauto]|].
  destruct (whitespace_only body);
    [run_steps; split; [intros H; settle_calls_in H; discriminate|eauto]|].
  run_steps.
  destruct (write_error e _); simpl;
    [destruct (write_partial e _ _); simpl;
     (split; [intros H; settle_calls_in H; discriminate|eauto])|].
  destruct (bridge e _ (sendScript _ _ _ _ _)) as [x|msg] eqn:Hr; simpl; [|eauto].
  rewrite lookup_insert_eq.
  destruct (unlink_error e _); simpl;
    (destruct (strict_eq x "SUCCESS") eqn:Hx; simpl;
     [apply strict_eq_true in Hx; subst x|]);
    (split; [intros H; settle_calls_in H; discriminate|]); eauto;
    (erewrite new_calls_app by (simpl; rewrite <- ?app_assoc; reflexivity);
     simpl; eauto).
Qed.

(** C6. Each listing operation (getUnreadMails, searchMails, getMailboxes,
    getAccounts, getMailboxesForAccount, getLatestMails) never throws, and
    returns the empty list whenever the access probe or its own invocation
    ended in an error; sendMail throws on every such failure, and more
    generally ends normally only after its script was answered with
    SUCCESS, every other run ending in a throw. *)
Theorem reads_swallow_failures_send_rethrows
    (e : Env) (w : World) (limit : option number)
    (searchTerm accountName account to subject body : string) (cc bcc : option string) :
  swallows (getUnreadMails limit) e w
  /\ swallows (searchMails searchTerm limit) e w
  /\ swallows getMailboxes e w
  /\ swallows getAccounts e w
  /\ swallows (getMailboxesForAccount accountName) e w
  /\ swallows (getLatestMails account limit) e w
  /\ rethrows (sendMail to subject body cc bcc) e w
  /\ returns_only_on_success (sendMail to subject body cc bcc) e w.
Proof.
  unfold swallows.
  pose proof (getUnreadMails_empty limit e w) as Hu.
  pose proof (searchMails_empty searchTerm limit e w) as Hs.
  split; [split; [eauto|intros _; exact Hu]|].
  split; [split; [eauto|intros _; exact Hs]|].
  split; [apply getMailboxes_failure|].
  split; [apply getAccounts_failure|].
  split; [apply getMailboxesForAccount_failure|].
  split; [apply getLatestMails_failure|].
  apply sendMail_failure.
Qed.

Lemma reads_swallow_failures_send_rethrows_witness :
  fst (getLatestMails "Work" None
         (scripted_env (Returns (VString "Mail")) (Raises "boom")) empty_world) = Normal []
  /\ fst (getMailboxes (steady_env (Raises "no access")) empty_world) = Normal []
  /\ exists msg,
       fst (sendMail "ann@example.com" "Hi" "Hello" None None
              (scripted_env (Returns (VString "Mail")) (Raises "boom")) empty_world)
       = Throw ("Error sending email: " +:+ msg).
Proof.
  destruct (reads_swallow_failures_send_rethrows
              (scripted_env (Returns (VString "Mail")) (Raises "boom")) empty_world
              None "" "" "Work" "ann@example.com" "Hi" "Hello" None None)
    as (_ & _ & _ & _ & _ & [_ Hlatest] & Hsend & _).
  destruct (reads_swallow_failures_send_rethrows
              (steady_env (Raises "no access")) empty_world
              None "" "" "" "" "" "" None None)
    as (_ & _ & [_ Hboxes] & _).
  split; [apply Hlatest; vm_compute; reflexivity|].
  split; [apply Hboxes; vm_compute; reflexivity|].
  apply Hsend; vm_compute; reflexivity.
Defined.

(** *** What [trim] removes and what it leaves *)

Lemma whitespace_only_cons (c : ascii) (s : string) :
  whitespace_only (String c s) = is_ws c && whitespace_only s.
Proof. reflexivity. Qed.

Lemma trimStart_split (s : string) :
  exists lead, whitespace_only lead = true /\ s = lead +:+ trimStart s.
Proof.
  induction s as [|c r (lead & Hl & Hr)]; simpl.
  - exists EmptyString. split; reflexivity.
  - destruct (is_ws c) eqn:Hc.
    + exists (String c lead). rewrite whitespace_only_cons, Hc, Hl.
      split; [reflexivity|]. rewrite append_cons. f_equal. exact Hr.
    + exists EmptyString. split; reflexivity.
Qed.

Lemma trimEnd_split (s : string) :
  exists trail, whitespace_only trail = true /\ s = trimEnd s +:+ trail.
Proof.
  induction s as [|c r (trail & Ht & Hr)]; simpl.
  - exists EmptyString. split; reflexivity.
  - destruct (trimEnd r) as [|d r'] eqn:E.
    + rewrite append_nil_l in Hr. subst r.
      destruct (is_ws c) eqn:Hc.
      * exists (String c trail). rewrite whitespace_only_cons, Hc, Ht.
        split; reflexivity.
      * exists trail. split; [exact Ht|]. reflexivity.
    + exists trail. split; [exact Ht|].
      rewrite append_cons. f_equal. exact Hr.
Qed.

Lemma trimStart_no_leading_ws (s : string) : starts_with_ws (trimStart s) = false.
Proof.
  induction s as [|c r IH]; simpl; [reflexivity|].
  destruct (is_ws c) eqn:Hc; [exact IH|]. simpl. exact Hc.
Qed.

Lemma trimEnd_keeps_start (s : string) :
  starts_with_ws s = false -> starts_with_ws (trimEnd s) = false.
Proof.
  destruct s as [|c r]; simpl; [reflexivity|].
  intros Hc. destruct (trimEnd r); [rewrite Hc|]; simpl; auto.
Qed.

Lemma trimEnd_no_trailing_ws (s : string) : ends_with_ws (trimEnd s) = false.
Proof.
  induction s as [|c r IH]; simpl; [reflexivity|].
  destruct (trimEnd r) as [|d r'] eqn:E.
  - destruct (is_ws c) eqn:Hc; simpl; auto.
  - simpl in *. exact IH.
Qed.

(** [trim] removes white space only, and leaves none at either end. *)
Lemma trim_spec (s : string) :
  (exists lead trail,
      whitespace_only lead = true /\ whitespace_only trail = true
      /\ s = lead +:+ trim s +:+ trail)
  /\ starts_with_ws (trim s) = false
  /\ ends_with_ws (trim s) = false.
Proof.
  unfold trim. split; [|split].
  - destruct (trimStart_split s) as (lead & Hl & Hs).
    destruct (trimEnd_split (trimStart s)) as (trail & Ht & He).
    exists lead, trail. repeat split; try assumption.
    rewrite <- He. exact Hs.
  - apply trimEnd_keeps_start, trimStart_no_leading_ws.
  - apply trimEnd_no_trailing_ws.
Qed.

(** The script of sendMail reads the file whose path it is given. *)
Lemma sendScript_reads_tmpFile
    (tmpFile safeSubject safeTo ccPart bccPart : string) :
  exists head rest,
    sendScript tmpFile safeSubject safeTo ccPart bccPart =
    head +:+ q "set emailBody to read file POSIX file ~" +:+ tmpFile +:+ q "~ as "
    +:+ rest.
Proof.
  with_strategy transparent [sendScript] unfold sendScript.
  match goal with
  | |- exists head rest, ?l1 +:+ ?tmp +:+ ?l2 +:+ ?r = _ =>
      let before := constr:(q "set emailBody to read file POSIX file ~") in
      let pre := text_before l1 before in
      exists pre, r;
      exact (regroup_first l1 pre before (tmp +:+ l2 +:+ r)
               ltac:(vm_compute; reflexivity))
  end.
Qed.

(** The cleanup on the path that reaches it: when the script's invocation
    returns, whatever the reply, and the system lets the file be removed,
    the body file is gone when sendMail ends. *)
Lemma sendMail_cleans_up_on_return
    (e : Env) (w : World) (v x : value) (to subject body : string) (cc bcc : option string) :
  bridge e w probeScript = Returns v ->
  whitespace_only to = false ->
  whitespace_only subject = false ->
  whitespace_only body = false ->
  write_error e (tmp_path (date_now e)) = None ->
  unlink_error e (tmp_path (date_now e)) = None ->
  bridge e (world_at_send e w (Returns v) body)
         (send_script_of e subject to cc bcc) = Returns x ->
  files (snd (sendMail to subject body cc bcc e w)) !! tmp_path (date_now e) = None.
Proof.
  intros Hp Hto Hsub Hbody Hw Hu Hr.
  destruct (sendMail_valid_run e w v to subject body cc bcc Hp Hto Hsub Hbody Hw)
    as [_ H].
  rewrite Hr, Hu in H. destruct H as [_ ->]. apply lookup_delete_eq.
Qed.

(** C1, at the failing path. When the invocation of the send script raises
    an error, sendMail throws and the body file it wrote is still there:
    the removal stands after the awaited invocation inside the try block,
    so the jump to the catch block passes it by. *)
Theorem sendMail_leaves_body_file_on_error
    (e : Env) (w : World) (v : value) (msg to subject body : string)
    (cc bcc : option string) :
  bridge e w probeScript = Returns v ->
  whitespace_only to = false ->
  whitespace_only subject = false ->
  whitespace_only body = false ->
  write_error e (tmp_path (date_now e)) = None ->
  bridge e (world_at_send e w (Returns v) body)
         (send_script_of e subject to cc bcc) = Raises msg ->
  fst (sendMail to subject body cc bcc e w) = Throw ("Error sending email: " +:+ msg)
  /\ files (snd (sendMail to subject body cc bcc e w)) !! tmp_path (date_now e)
     = Some (trim body).
Proof.
  intros Hp Hto Hsub Hbody Hw Hr.
  destruct (sendMail_valid_run e w v to subject body cc bcc Hp Hto Hsub Hbody Hw)
    as [_ H].
  rewrite Hr in H. destruct H as [-> ->].
  split; [reflexivity|]. apply lookup_insert_eq.
Qed.

Lemma sendMail_leaves_body_file_on_error_witness :
  fst (sendMail "ann@example.com" "Hi" "Hello" None None
         (scripted_env (Returns (VString "Mail")) (Raises "boom")) empty_world)
  = Throw "Error sending email: boom"
  /\ files (snd (sendMail "ann@example.com" "Hi" "Hello" None None
                   (scripted_env (Returns (VString "Mail")) (Raises "boom")) empty_world))
     !! "/tmp/email-body-1700000000000.txt"
     = Some "Hello".
Proof.
  apply (sendMail_leaves_body_file_on_error
           (scripted_env (Returns (VString "Mail")) (Raises "boom")) empty_world
           (VString "Mail") "boom" "ann@example.com" "Hi" "Hello" None None);
    vm_compute; reflexivity.
Defined.

(** C10. On accepted arguments, once access is granted and the body file
    could be written, the second invocation of sendMail hands the
    interpreter the send script, that script reads the temporary file, and
    at that moment the file holds the trimmed body: the body with white
    space removed at both ends and nothing else, and with no white space
    left at either end. *)
Theorem sendMail_script_reads_trimmed_body
    (e : Env) (w : World) (v : value) (to subject body : string) (cc bcc : option string) :
  bridge e w probeScript = Returns v ->
  whitespace_only to = false ->
  whitespace_only subject = false ->
  whitespace_only body = false ->
  write_error e (tmp_path (date_now e)) = None ->
  (exists i head rest,
      new_calls w (snd (sendMail to subject body cc bcc e w)) !! 1%nat = Some i
      /\ inv_script i = send_script_of e subject to cc bcc
      /\ inv_script i =
           head +:+ q "set emailBody to read file POSIX file ~"
           +:+ tmp_path (date_now e) +:+ q "~ as " +:+ rest
      /\ inv_files i !! tmp_path (date_now e) = Some (trim body))
  /\ (exists lead trail,
        whitespace_only lead = true /\ whitespace_only trail = true
        /\ body = lead +:+ trim body +:+ trail)
  /\ starts_with_ws (trim body) = false
  /\ ends_with_ws (trim body) = false.
Proof.
  intros Hp Hto Hsub Hbody Hw.
  split; [|apply trim_spec].
  destruct (sendMail_valid_run e w v to subject body cc bcc Hp Hto Hsub Hbody Hw)
    as [Hc _].
  destruct (sendScript_reads_tmpFile (tmp_path (date_now e)) (escapeQuotes subject)
              (escapeQuotes to) (ccClause cc) (bccClause bcc))
    as (head & rest & Hs).
  rewrite Hc. eexists _, head, rest. simpl.
  split; [reflexivity|]. split; [reflexivity|]. split; [exact Hs|].
  apply lookup_insert_eq.
Qed.

Lemma sendMail_script_reads_trimmed_body_witness :
  exists i,
    new_calls empty_world
      (snd (sendMail "ann@example.com" "Hi" "  Hello  " None None
              (steady_env (Returns (VString "SUCCESS"))) empty_world)) !! 1%nat = Some i
    /\ inv_files i !! "/tmp/email-body-1700000000000.txt" = Some "Hello".
Proof.
  destruct (sendMail_script_reads_trimmed_body
              (steady_env (Returns (VString "SUCCESS"))) empty_world
              (VString "SUCCESS") "ann@example.com" "Hi" "  Hello  " None None)
    as [(i & head & rest & Hi & _ & _ & Hf) _]; try reflexivity.
  exists i. split; [exact Hi|exact Hf].
Defined.

(** ** Mailbox and account listings *)

(** getMailboxes and getAccounts decode both shapes of a reply: a native
    list is filtered to its non-empty text entries, a text is cut at the
    commas, trimmed and filtered for non-empty. *)
Lemma listings_accept_both_shapes (e : Env) (w : World) (v r : value) :
  bridge e w probeScript = Returns v ->
  (bridge e (log_call probeScript (Returns v) w) mailboxesScript = Returns r ->
   fst (getMailboxes e w) = Normal (names_of_reply r))
  /\ (bridge e (log_call probeScript (Returns v) w) accountsScript = Returns r ->
      fst (getAccounts e w) = Normal (names_of_reply r)).
Proof.
  intros Hp. split; intros Hr.
  - unfold getMailboxes. run_gate. rewrite Hp. run_steps.
    unfold log_call in Hr. rewrite Hr. reflexivity.
  - unfold getAccounts. run_gate. rewrite Hp. run_steps.
    unfold log_call in Hr. rewrite Hr. reflexivity.
Qed.

Example names_of_reply_demo :
  names_of_reply (VArray [VString "INBOX"; VString ""; VNumber (of_Z 3); VString "Sent"])
  = ["INBOX"; "Sent"]
  /\ names_of_reply (VString "INBOX, Sent , ,Drafts") = ["INBOX"; "Sent"; "Drafts"]
  /\ names_of_reply (VString "   ") = [].
Proof. repeat split; reflexivity. Qed.

(** C8, at the failing path. getMailboxesForAccount decodes a native list
    like its two siblings, and answers every text reply, a comma-joined one
    included, with the empty list: the branch for text that getMailboxes and
    getAccounts have is missing. *)
Theorem getMailboxesForAccount_drops_text_reply
    (e : Env) (w : World) (v : value) (accountName s : string) :
  bridge e w probeScript = Returns v ->
  whitespace_only accountName = false ->
  bridge e (log_call probeScript (Returns v) w) (mailboxesForAccountScript (escapeQuotes accountName))
    = Returns (VString s) ->
  fst (getMailboxesForAccount accountName e w) = Normal [].
Proof.
  intros Hp Ha Hr.
  unfold getMailboxesForAccount. run_gate. rewrite Hp, blank_guard, Ha. run_steps.
  unfold log_call in Hr. rewrite Hr. reflexivity.
Qed.

Lemma getMailboxesForAccount_drops_text_reply_witness :
  fst (getMailboxesForAccount "Work"
         (scripted_env (Returns (VString "Mail")) (Returns (VString "INBOX, Sent")))
         empty_world) = Normal []
  /\ fst (getMailboxes
            (scripted_env (Returns (VString "Mail")) (Returns (VString "INBOX, Sent")))
            empty_world) = Normal ["INBOX"; "Sent"].
Proof.
  split.
  - apply (getMailboxesForAccount_drops_text_reply
             (scripted_env (Returns (VString "Mail")) (Returns (VString "INBOX, Sent")))
             empty_world (VString "Mail") "Work" "INBOX, Sent");
      vm_compute; reflexivity.
  - vm_compute. reflexivity.
Defined.

(** On a native list getMailboxesForAccount does what its siblings do. *)
Lemma getMailboxesForAccount_accepts_list
    (e : Env) (w : World) (v : value) (accountName : string) (xs : list value) :
  bridge e w probeScript = Returns v ->
  whitespace_only accountName = false ->
  bridge e (log_call probeScript (Returns v) w) (mailboxesForAccountScript (escapeQuotes accountName))
    = Returns (VArray xs) ->
  fst (getMailboxesForAccount accountName e w) = Normal (filter_names xs).
Proof.
  intros Hp Ha Hr.
  unfold getMailboxesForAccount. run_gate. rewrite Hp, blank_guard, Ha. run_steps.
  unfold log_call in Hr. rewrite Hr. reflexivity.
Qed.

(** ** The latest-messages parser *)

Lemma parse_loop_spec (account now : string) (emailStrings : list string)
    (emailData : list EmailMessage) :
  parse_loop account now emailStrings emailData =
  emailData ++ List.map (email_of_fields account now)
                 (List.filter accepted (List.map (split FIELD_DELIM) emailStrings)).
Proof.
  revert emailData.
  induction emailStrings as [|emailStr rest IH]; intros emailData;
    cbn [parse_loop List.map List.filter].
  - symmetry. apply app_nil_r.
  - unfold accepted at 1.
    destruct (4 <=? length (split FIELD_DELIM emailStr))%nat; rewrite IH.
    + cbn [List.map]. rewrite <- app_assoc. reflexivity.
    + reflexivity.
Qed.

(** The parser yields one message per accepted record, in order. *)
Lemma parseLatest_spec (account now asResult : string) :
  parseLatest account now asResult =
  List.map (email_of_fields account now) (List.filter accepted (records_of asResult)).
Proof. unfold parseLatest, records_of. apply parse_loop_spec. Qed.

Lemma filter_length_le {A : Type} (f : A -> bool) (l : list A) :
  (length (List.filter f l) <= length l)%nat.
Proof.
  induction l as [|a l IH]; simpl; [lia|].
  destruct (f a); simpl; lia.
Qed.

Lemma parseLatest_length (account now asResult : string) :
  (length (parseLatest account now asResult) <= length (records_of asResult))%nat.
Proof.
  rewrite parseLatest_spec, length_map. apply filter_length_le.
Qed.

(** What getLatestMails does with each kind of reply to its script. *)
Lemma getLatestMails_run (account : string) (limit : option number) (e : Env) (w : World) (v : value) :
  bridge e w probeScript = Returns v ->
  let script := latestScript (escapeQuotes account) (Math_min (default (of_Z 5) limit) MAX_EMAILS) in
  scripts w (snd (getLatestMails account limit e w)) = [probeScript; script]
  /\ fst (getLatestMails account limit e w) =
     Normal match bridge e (log_call probeScript (Returns v) w) script with
            | Returns (VString s) =>
                if startsWith "ERROR:" s then []
                else parseLatest account (date_string e) s
            | _ => []
            end.
Proof.
  intros Hp. cbv zeta.
  unfold getLatestMails. run_gate. rewrite Hp. run_steps.
  destruct (bridge e _ (latestScript _ _)) as [r|msg]; simpl.
  - destruct r as [| |b|n|s|xs]; simpl;
      try (split; [settle_calls; reflexivity|reflexivity]).
    destruct (startsWith "ERROR:" s); simpl;
      (split; [settle_calls; reflexivity|reflexivity]).
  - split; [settle_calls; reflexivity|reflexivity].
Qed.

(** ** Limits *)

Example Number_toString_demo :
  Number_toString (of_Z 20) = "20"
  /\ Number_toString (of_Z (-3)) = "-3"
  /\ Number_toString (Finite true 0 0) = "0"
  /\ Number_toString NaN = "NaN"
  /\ Number_toString (Infinity true) = "-Infinity"
  /\ Number_toString minus_1e21 = "-1e+21"
  /\ Number_toString (Finite false 5 (-1)) = "2.5"
  /\ Number_toString (Finite false 1 60) = "1152921504606847000"
  /\ Number_toString (Finite false 7205759403792794 (-56)) = "0.1"
  /\ Number_toString (Finite false 7555786372591432 (-76)) = "1e-7"
  /\ Number_toString (Finite false 1 (-1074)) = "5e-324"
  /\ Number_toString (Finite false 4503599627370498 (-3)) = "562949953421312.2".
Proof. vm_compute. repeat split; reflexivity. Qed.

Example Math_min_demo :
  Math_min (of_Z 50) (of_Z 20) = of_Z 20
  /\ Math_min (of_Z 3) (of_Z 20) = of_Z 3
  /\ Math_min NaN (of_Z 20) = NaN
  /\ Math_min (Infinity false) (of_Z 20) = of_Z 20
  /\ Math_min (Infinity true) (of_Z 20) = Infinity true
  /\ Math_min (Finite false 5 (-1)) (of_Z 20) = Finite false 5 (-1)
  /\ Math_min minus_1e21 (of_Z 20) = minus_1e21
  /\ Math_min (Finite false 0 0) (Finite true 0 0) = Finite true 0 0.
Proof. vm_compute. repeat split; reflexivity. Qed.

Lemma of_Z_value (z : Z) : signed (z <? 0)%Z (Z.of_N (Z.to_N (Z.abs z))) = z.
Proof.
  unfold signed. rewrite Z2N.id by apply Z.abs_nonneg.
  destruct (z <? 0)%Z eqn:Hz.
  - apply Z.ltb_lt in Hz. lia.
  - apply Z.ltb_ge in Hz. lia.
Qed.

Lemma number_lt_of_Z (a b : Z) : number_lt (of_Z a) (of_Z b) = (a <? b)%Z.
Proof.
  unfold of_Z. cbn [number_lt]. cbv zeta.
  replace (0 - Z.min 0 0)%Z with 0%Z by reflexivity.
  rewrite !Z.pow_0_r, !Z.mul_1_r, !of_Z_value. reflexivity.
Qed.

Lemma min_step_first (x : number) :
  is_NaN x = false -> min_step (Infinity false) x = x.
Proof.
  destruct x as [|[]|s m e]; [discriminate|reflexivity|reflexivity|].
  intros _. unfold min_step.
  destruct (is_zero true (Finite s m e)); reflexivity.
Qed.

Lemma Math_min_finite (s1 s2 : bool) (m1 m2 : N) (e1 e2 : Z) :
  Math_min (Finite s1 m1 e1) (Finite s2 m2 e2)
  = min_step (Finite s1 m1 e1) (Finite s2 m2 e2).
Proof. unfold Math_min. rewrite min_step_first by reflexivity. reflexivity. Qed.

(** Against 20, Math.min gives NaN for NaN, 20 for what is above 20, and
    the other number as it is otherwise. *)
Lemma Math_min_20 (x : number) :
  Math_min x (of_Z 20) =
  if is_NaN x then NaN
  else if number_lt (of_Z 20) x then of_Z 20
  else x.
Proof.
  destruct x as [|[]|s m e]; try reflexivity.
  change (of_Z 20) with (Finite false 20 0).
  rewrite Math_min_finite. reflexivity.
Qed.

Lemma is_zero_of_Z (b : Z) : is_zero true (of_Z b) = false.
Proof.
  unfold of_Z, is_zero. destruct (Z.to_N (Z.abs b)) eqn:Hb; [|reflexivity].
  destruct (b <? 0)%Z eqn:Hlt; [|reflexivity].
  apply Z.ltb_lt in Hlt. lia.
Qed.

Lemma Math_min_of_Z (a b : Z) : Math_min (of_Z a) (of_Z b) = of_Z (Z.min a b).
Proof.
  unfold of_Z at 1 2. rewrite Math_min_finite.
  fold (of_Z a). fold (of_Z b).
  unfold min_step. rewrite is_zero_of_Z, number_lt_of_Z. cbn [andb].
  destruct (b <? a)%Z eqn:Hlt.
  - apply Z.ltb_lt in Hlt. rewrite Z.min_r by lia. reflexivity.
  - apply Z.ltb_ge in Hlt. rewrite Z.min_l by lia. reflexivity.
Qed.

Lemma string_of_Z_opp (p : positive) :
  string_of_Z (Z.neg p) = "-" +:+ string_of_Z (Z.pos p).
Proof. reflexivity. Qed.

(** An integer below 2^53 in magnitude prints in decimal. *)
Lemma Number_toString_of_Z (z : Z) :
  (Z.abs z < 2 ^ 53)%Z -> Number_toString (of_Z z) = string_of_Z z.
Proof.
  intros Hz. unfold Number_toString, of_Z. destruct z as [|p|p].
  - reflexivity.
  - assert (Hp : (Z.pos p <? 2 ^ 53)%Z = true) by (apply Z.ltb_lt; lia).
    change (Z.to_N (Z.abs (Z.pos p))) with (N.pos p).
    change (Z.pos p <? 0)%Z with false.
    change (N.pos p =? 0)%N with false. cbv iota.
    unfold positive_toString. change (Z.of_N (N.pos p)) with (Z.pos p).
    rewrite Z.pow_0_r, Z.mul_1_r, Hp. reflexivity.
  - assert (Hp : (Z.pos p <? 2 ^ 53)%Z = true) by (apply Z.ltb_lt; lia).
    change (Z.to_N (Z.abs (Z.neg p))) with (N.pos p).
    change (Z.neg p <? 0)%Z with true.
    change (N.pos p =? 0)%N with false. cbv iota.
    unfold positive_toString. change (Z.of_N (N.pos p)) with (Z.pos p).
    rewrite Z.pow_0_r, Z.mul_1_r, Hp. symmetry. apply string_of_Z_opp.
Qed.

(** The three listing scripts carry the number they are given as the bound
    of their loops. *)
Lemma scripts_interpolate_limit (n : number) (term account : string) :
  (exists pre post,
      unreadScript n =
      pre +:+ "if emailCount >= " +:+ Number_toString n +:+ " then exit repeat" +:+ post)
  /\ (exists pre post,
      searchScript term n =
      pre +:+ "if emailCount >= " +:+ Number_toString n +:+ " then exit repeat" +:+ post)
  /\ (exists pre post,
      latestScript account n =
      pre +:+ "if msgCount > " +:+ Number_toString n +:+ " then set msgCount to "
      +:+ Number_toString n +:+ post).
Proof.
  split; [|split].
  - with_strategy transparent [unreadScript] unfold unreadScript.
    match goal with
    | |- exists pre post, ?l1 +:+ ?hole +:+ ?l2 +:+ ?rest = _ =>
        let before := constr:("if emailCount >= ") in
        let after := constr:(" then exit repeat") in
        let pre := text_before l1 before in
        let post := text_after l2 after in
        exists pre, (post +:+ rest);
        exact (regroup_first_after l1 pre before hole l2 after post rest
                 ltac:(vm_compute; reflexivity) ltac:(vm_compute; reflexivity))
    end.
  - with_strategy transparent [searchScript] unfold searchScript.
    match goal with
    | |- exists pre post, ?l0 +:+ ?t +:+ ?l1 +:+ ?hole +:+ ?l2 +:+ ?rest = _ =>
        let before := constr:("if emailCount >= ") in
        let after := constr:(" then exit repeat") in
        let pre := text_before l1 before in
        let post := text_after l2 after in
        exists (l0 +:+ t +:+ pre), (post +:+ rest);
        exact (regroup_later_after l0 t l1 pre before hole l2 after post rest
                 ltac:(vm_compute; reflexivity) ltac:(vm_compute; reflexivity))
    end.
  - with_strategy transparent [latestScript] unfold latestScript.
    match goal with
    | |- exists pre post, ?l0 +:+ ?t +:+ ?l1 +:+ ?rest = _ =>
        let before := constr:("if msgCount > ") in
        let pre := text_before l1 before in
        match rest with
        | ?hole +:+ ?l2 +:+ ?hole' +:+ ?rest' =>
            exists (l0 +:+ t +:+ pre), rest';
            exact (regroup_later l0 t l1 pre before rest
                     ltac:(vm_compute; reflexivity))
        end
    end.
Qed.

Lemma getUnreadMails_scripts (limit : option number) (e : Env) (w : World) (v : value) :
  bridge e w probeScript = Returns v ->
  scripts w (snd (getUnreadMails limit e w)) =
  [probeScript; unreadScript (Math_min (default (of_Z 10) limit) MAX_EMAILS)].
Proof.
  intros Hp. unfold getUnreadMails. run_gate. rewrite Hp. run_steps.
  destruct (bridge e _ (unreadScript _)) as [r|msg]; simpl;
    [|settle_calls; reflexivity].
  destruct r as [| |[]|n|s|xs]; simpl; try (settle_calls; reflexivity).
  - destruct (negb (is_zero false n || is_zero true n || is_NaN n)); simpl; settle_calls; reflexivity.
  - destruct (truthy s); [destruct (startsWith _ s)|]; simpl; settle_calls; reflexivity.
Qed.

Lemma searchMails_scripts
    (searchTerm : string) (limit : option number) (e : Env) (w : World) (v : value) :
  bridge e w probeScript = Returns v ->
  whitespace_only searchTerm = false ->
  scripts w (snd (searchMails searchTerm limit e w)) =
  [probeScript;
   searchScript (toLowerCase searchTerm) (Math_min (default (of_Z 10) limit) MAX_EMAILS)].
Proof.
  intros Hp Ht. unfold searchMails. run_gate. rewrite Hp, blank_guard_eqb, Ht. run_steps.
  destruct (bridge e _ (searchScript _ _)) as [r|msg]; simpl;
    [|settle_calls; reflexivity].
  destruct r as [| |[]|n|s|xs]; simpl; try (settle_calls; reflexivity).
  - destruct (negb (is_zero false n || is_zero true n || is_NaN n)); simpl; settle_calls; reflexivity.
  - destruct (truthy s); [destruct (startsWith _ s)|]; simpl; settle_calls; reflexivity.
Qed.

(** C9, as stated, fails: the bound on the result lives in the generated
    script only.  A reply of 21 records to getLatestMails with limit 20 is
    decoded into 21 messages. *)
Lemma getLatestMails_returns_21_messages :
  exists l,
    fst (getLatestMails "Work" (Some (of_Z 20))
           (scripted_env (Returns (VString "Mail")) (Returns (VString (many_records 21))))
           empty_world) = Normal l
    /\ length l = 21%nat.
Proof. vm_compute. eexists. split; reflexivity. Qed.

(** C9, amended. Once access is granted (and, for searchMails, the term is
    not blank), the three listing operations interpolate into their script,
    as the bound of its loops, the text of Math.min of the limit (10 by
    default, 5 for getLatestMails) and 20, for every number the limit may be:
    that minimum is 20 where the limit is above 20, the limit itself where it
    is not, and NaN for NaN; for an integer limit below 2^53 in magnitude the
    text is the decimal of the smaller of the limit and 20.  getUnreadMails
    and searchMails return the empty list.  getLatestMails does not cut its
    result: it returns at most as many messages as the reply holds non-empty
    records, so at most 20 whenever the reply holds at most 20 records. *)
Theorem limit_is_clamped_in_scripts
    (limit : option number) (searchTerm account : string) (e : Env) (w : World) (v : value) :
  bridge e w probeScript = Returns v ->
  whitespace_only searchTerm = false ->
  (scripts w (snd (getUnreadMails limit e w)) =
     [probeScript; unreadScript (Math_min (default (of_Z 10) limit) (of_Z 20))]
   /\ scripts w (snd (searchMails searchTerm limit e w)) =
     [probeScript;
      searchScript (toLowerCase searchTerm) (Math_min (default (of_Z 10) limit) (of_Z 20))]
   /\ scripts w (snd (getLatestMails account limit e w)) =
     [probeScript;
      latestScript (escapeQuotes account) (Math_min (default (of_Z 5) limit) (of_Z 20))])
  /\ (forall n term' account',
        (exists pre post,
            unreadScript n =
            pre +:+ "if emailCount >= " +:+ Number_toString n +:+ " then exit repeat" +:+ post)
        /\ (exists pre post,
            searchScript term' n =
            pre +:+ "if emailCount >= " +:+ Number_toString n +:+ " then exit repeat" +:+ post)
        /\ (exists pre post,
            latestScript account' n =
            pre +:+ "if msgCount > " +:+ Number_toString n +:+ " then set msgCount to "
            +:+ Number_toString n +:+ post))
  /\ (forall x,
        Math_min x (of_Z 20) =
        if is_NaN x then NaN
        else if number_lt (of_Z 20) x then of_Z 20
        else x)
  /\ (forall z,
        (Z.abs z < 2 ^ 53)%Z ->
        Number_toString (Math_min (of_Z z) (of_Z 20)) = string_of_Z (Z.min z 20))
  /\ fst (getUnreadMails limit e w) = Normal []
  /\ fst (searchMails searchTerm limit e w) = Normal []
  /\ exists l,
       fst (getLatestMails account limit e w) = Normal l
       /\ match bridge e (log_call probeScript (Returns v) w)
                  (latestScript (escapeQuotes account)
                     (Math_min (default (of_Z 5) limit) (of_Z 20))) with
          | Returns (VString s) =>
              (length l <= length (records_of s))%nat
              /\ ((length (records_of s) <= 20)%nat -> (length l <= 20)%nat)
          | _ => l = []
          end.
Proof.
  intros Hp Ht.
  split; [|split; [|split; [|split; [|split; [|split]]]]].
  - split; [apply (getUnreadMails_scripts limit e w v Hp)|].
    split; [apply (searchMails_scripts searchTerm limit e w v Hp Ht)|].
    apply (getLatestMails_run account limit e w v Hp).
  - intros n term' account'. apply scripts_interpolate_limit.
  - apply Math_min_20.
  - intros z Hz. rewrite Math_min_of_Z. apply Number_toString_of_Z. lia.
  - apply getUnreadMails_empty.
  - apply searchMails_empty.
  - destruct (getLatestMails_run account limit e w v Hp) as [_ Hr].
    change MAX_EMAILS with (of_Z 20) in Hr.
    eexists. split; [exact Hr|].
    destruct (bridge e _ (latestScript _ _)) as [r|msg]; [|reflexivity].
    destruct r as [| |b|n|s|xs]; try reflexivity.
    destruct (startsWith "ERROR:" s).
    + simpl. split; lia.
    + pose proof (parseLatest_length account (date_string e) s). split; lia.
Qed.

Lemma limit_is_clamped_in_scripts_witness :
  scripts empty_world
    (snd (getUnreadMails (Some (of_Z 50)) (steady_env (Returns (VString "SUCCESS:0")))
            empty_world))
  = [probeScript; unreadScript (of_Z 20)]
  /\ scripts empty_world
       (snd (getLatestMails "Work" (Some (of_Z 3))
               (steady_env (Returns (VString "SUCCESS:0"))) empty_world))
     = [probeScript; latestScript "Work" (of_Z 3)]
  /\ scripts empty_world
       (snd (getUnreadMails (Some minus_1e21) (steady_env (Returns (VString "SUCCESS:0")))
               empty_world))
     = [probeScript; unreadScript minus_1e21]
  /\ scripts empty_world
       (snd (getUnreadMails (Some NaN) (steady_env (Returns (VString "SUCCESS:0")))
               empty_world))
     = [probeScript; unreadScript NaN]
  /\ Number_toString (Math_min (of_Z (-3)) (of_Z 20)) = "-3".
Proof.
  destruct (limit_is_clamped_in_scripts (Some (of_Z 50)) "invoice" "Work"
              (steady_env (Returns (VString "SUCCESS:0"))) empty_world
              (VString "SUCCESS:0") eq_refl eq_refl)
    as [(Hu & _ & _) _].
  destruct (limit_is_clamped_in_scripts (Some (of_Z 3)) "invoice" "Work"
              (steady_env (Returns (VString "SUCCESS:0"))) empty_world
              (VString "SUCCESS:0") eq_refl eq_refl)
    as [(_ & _ & Hl) _].
  destruct (limit_is_clamped_in_scripts (Some minus_1e21) "invoice" "Work"
              (steady_env (Returns (VString "SUCCESS:0"))) empty_world
              (VString "SUCCESS:0") eq_refl eq_refl)
    as [(Hm & _ & _) _].
  destruct (limit_is_clamped_in_scripts (Some NaN) "invoice" "Work"
              (steady_env (Returns (VString "SUCCESS:0"))) empty_world
              (VString "SUCCESS:0") eq_refl eq_refl)
    as [(Hn & _ & _) (_ & _ & Hz & _)].
  split; [exact Hu|]. split; [exact Hl|]. split; [exact Hm|]. split; [exact Hn|].
  exact (Hz (-3)%Z eq_refl).
Defined.

(** ** Escaping of interpolated literals *)

Lemma replaceAll_app (c : ascii) (by_ a b : string) :
  replaceAll c by_ (a +:+ b) = replaceAll c by_ a +:+ replaceAll c by_ b.
Proof.
  induction a as [|d a IH]; [reflexivity|].
  rewrite append_cons. cbn [replaceAll].
  destruct (Ascii.eqb d c); rewrite IH.
  - symmetry. apply append_assoc.
  - reflexivity.
Qed.

Lemma replaceAll_chr (c d : ascii) (by_ : string) :
  replaceAll c by_ (chr d) = if Ascii.eqb d c then by_ else chr d.
Proof.
  unfold chr. cbn [replaceAll]. destruct (Ascii.eqb d c); [apply append_nil_r|reflexivity].
Qed.

(** The quote step puts a backslash before every double quote and changes
    nothing else; the backslash step writes every backslash twice and
    changes nothing else. *)
Lemma escape_steps_spec :
  (forall a b, escapeQuotes (a +:+ b) = escapeQuotes a +:+ escapeQuotes b)
  /\ escapeQuotes (chr dquote) = String backslash (chr dquote)
  /\ (forall c, Ascii.eqb c dquote = false -> escapeQuotes (chr c) = chr c)
  /\ (forall a b, escapeBackslashes (a +:+ b) = escapeBackslashes a +:+ escapeBackslashes b)
  /\ escapeBackslashes (chr backslash) = String backslash (chr backslash)
  /\ (forall c, Ascii.eqb c backslash = false -> escapeBackslashes (chr c) = chr c).
Proof.
  unfold escapeQuotes, escapeBackslashes.
  repeat split; intros; try apply replaceAll_app; try reflexivity;
    rewrite replaceAll_chr, H; reflexivity.
Qed.

(** The scripts of the operations that find a message by subject and
    sender, and of the account listing. *)
Lemma archiveEmail_scripts (account subject sender : string) (e : Env) (w : World) (v : value) :
  bridge e w probeScript = Returns v ->
  scripts w (snd (archiveEmail account subject sender e w)) =
  [probeScript;
   archiveScript (escapeQuotes account) (escapeBackslashes (escapeQuotes subject))
                 (escapeQuotes sender)].
Proof.
  intros Hp. unfold archiveEmail. run_gate. rewrite Hp. run_steps.
  destruct (bridge e _ (archiveScript _ _ _)); simpl; settle_calls; reflexivity.
Qed.

Lemma deleteEmail_scripts (account subject sender : string) (e : Env) (w : World) (v : value) :
  bridge e w probeScript = Returns v ->
  scripts w (snd (deleteEmail account subject sender e w)) =
  [probeScript;
   deleteScript (escapeQuotes account) (escapeBackslashes (escapeQuotes subject))
                (escapeQuotes sender)].
Proof.
  intros Hp. unfold deleteEmail. run_gate. rewrite Hp. run_steps.
  destruct (bridge e _ (deleteScript _ _ _)); simpl; settle_calls; reflexivity.
Qed.

Lemma markAsRead_scripts (account subject sender : string) (e : Env) (w : World) (v : value) :
  bridge e w probeScript = Returns v ->
  scripts w (snd (markAsRead account subject sender e w)) =
  [probeScript;
   markAsReadScript (escapeQuotes account) (escapeBackslashes (escapeQuotes subject))
                    (escapeQuotes sender)].
Proof.
  intros Hp. unfold markAsRead. run_gate. rewrite Hp. run_steps.
  destruct (bridge e _ (markAsReadScript _ _ _)); simpl; settle_calls; reflexivity.
Qed.

Lemma checkIfReplied_scripts
    (account originalSubject originalSender : string) (e : Env) (w : World) (v : value) :
  bridge e w probeScript = Returns v ->
  scripts w (snd (checkIfReplied account originalSubject originalSender e w)) =
  [probeScript;
   checkIfRepliedScript (escapeQuotes account) (subjectPattern originalSubject)
                        (recipientPattern originalSender)].
Proof.
  intros Hp. unfold checkIfReplied. run_gate. rewrite Hp. run_steps.
  destruct (bridge e _ (checkIfRepliedScript _ _ _)); simpl; settle_calls; reflexivity.
Qed.

Lemma getMailboxesForAccount_scripts (accountName : string) (e : Env) (w : World) (v : value) :
  bridge e w probeScript = Returns v ->
  whitespace_only accountName = false ->
  scripts w (snd (getMailboxesForAccount accountName e w)) =
  [probeScript; mailboxesForAccountScript (escapeQuotes accountName)].
Proof.
  intros Hp Ha. unfold getMailboxesForAccount. run_gate.
  rewrite Hp, blank_guard, Ha. run_steps.
  destruct (bridge e _ (mailboxesForAccountScript _)) as [r|msg]; simpl;
    [destruct r|]; simpl; settle_calls; reflexivity.
Qed.

Lemma sendMail_scripts
    (to subject body : string) (cc bcc : option string) (e : Env) (w : World) (v : value) :
  bridge e w probeScript = Returns v ->
  whitespace_only to = false ->
  whitespace_only subject = false ->
  whitespace_only body = false ->
  write_error e (tmp_path (date_now e)) = None ->
  scripts w (snd (sendMail to subject body cc bcc e w)) =
  [probeScript; send_script_of e subject to cc bcc].
Proof.
  intros Hp Hto Hsub Hbody Hw.
  destruct (sendMail_valid_run e w v to subject body cc bcc Hp Hto Hsub Hbody Hw)
    as [Hc _].
  unfold scripts. rewrite Hc. reflexivity.
Qed.

(** C2, as stated, fails: no literal has its quotes doubled, and the
    backslash step is applied to one kind of literal only.  In archiveEmail
    an account name made of a, a double quote and b is interpolated with a
    backslash before the quote, where the stated escaping writes the quote
    twice; and a sender made of x, a backslash and y is interpolated
    unchanged, where the stated escaping writes the backslash twice. *)
Lemma archive_literals_are_not_spec_escaped :
  scripts empty_world
    (snd (archiveEmail (q "a~b") "s" "x\y"
            (steady_env (Returns (VString "SUCCESS:Message archived"))) empty_world))
  = [probeScript; archiveScript ("a\" +:+ q "~b") "s" "x\y"]
  /\ spec_escape (q "a~b") = q "a~~b"
  /\ spec_escape "x\y" = "x\\y"
  /\ String.eqb ("a\" +:+ q "~b") (spec_escape (q "a~b")) = false
  /\ String.eqb "x\y" (spec_escape "x\y") = false.
Proof. vm_compute. repeat split; reflexivity. Qed.

(** C2, amended. Every free-text literal interpolated into a generated
    script (account name, subject, sender, recipient addresses) first has a
    backslash put before each embedded double quote; where backslashes are
    escaped as well, which the subject of archiveEmail, deleteEmail,
    markAsRead and checkIfReplied is, every backslash is written twice
    after the quote step, in that order.  ([escaped raw lit] holds for the
    quote step alone and for the quote step followed by the backslash
    step.) *)
Theorem literals_get_quote_step_first
    (account subject sender to body accountName : string) (cc bcc : option string)
    (limit : option number) (e : Env) (w : World) (v : value) :
  bridge e w probeScript = Returns v ->
  whitespace_only accountName = false ->
  whitespace_only to = false ->
  whitespace_only subject = false ->
  whitespace_only body = false ->
  write_error e (tmp_path (date_now e)) = None ->
  (exists a s d,
      escaped account a
      /\ s = escapeBackslashes (escapeQuotes subject)
      /\ escaped sender d
      /\ scripts w (snd (archiveEmail account subject sender e w))
         = [probeScript; archiveScript a s d]
      /\ scripts w (snd (deleteEmail account subject sender e w))
         = [probeScript; deleteScript a s d]
      /\ scripts w (snd (markAsRead account subject sender e w))
         = [probeScript; markAsReadScript a s d])
  /\ (exists a s d,
      escaped account a
      /\ s = escapeBackslashes (escapeQuotes (stripReplyPrefix subject))
      /\ escaped (toLowerCase (sender_address sender)) d
      /\ scripts w (snd (checkIfReplied account subject sender e w))
         = [probeScript; checkIfRepliedScript a s d])
  /\ (exists a,
      escaped account a
      /\ scripts w (snd (getLatestMails account limit e w))
         = [probeScript; latestScript a (Math_min (default (of_Z 5) limit) (of_Z 20))])
  /\ (exists a,
      escaped accountName a
      /\ scripts w (snd (getMailboxesForAccount accountName e w))
         = [probeScript; mailboxesForAccountScript a])
  /\ (exists s t c b,
      escaped subject s
      /\ escaped to t
      /\ (forall x, cc = Some x -> truthy x = true ->
          exists x', escaped x x'
            /\ c = q "make new cc recipient with properties {address:~" +:+ x' +:+ q "~}")
      /\ (forall x, bcc = Some x -> truthy x = true ->
          exists x', escaped x x'
            /\ b = q "make new bcc recipient with properties {address:~" +:+ x' +:+ q "~}")
      /\ scripts w (snd (sendMail to subject body cc bcc e w))
         = [probeScript; sendScript (tmp_path (date_now e)) s t c b])
  /\ (forall a b, escapeQuotes (a +:+ b) = escapeQuotes a +:+ escapeQuotes b)
  /\ escapeQuotes (chr dquote) = String backslash (chr dquote)
  /\ (forall c, Ascii.eqb c dquote = false -> escapeQuotes (chr c) = chr c)
  /\ (forall a b, escapeBackslashes (a +:+ b) = escapeBackslashes a +:+ escapeBackslashes b)
  /\ escapeBackslashes (chr backslash) = String backslash (chr backslash)
  /\ (forall c, Ascii.eqb c backslash = false -> escapeBackslashes (chr c) = chr c).
Proof.
  intros Hp Ha Hto Hsub Hbody Hw.
  split; [|split; [|split; [|split; [|split]]]].
  - exists (escapeQuotes account), (escapeBackslashes (escapeQuotes subject)),
      (escapeQuotes sender).
    split; [constructor|]. split; [reflexivity|]. split; [constructor|].
    split; [apply (archiveEmail_scripts _ _ _ e w v Hp)|].
    split; [apply (deleteEmail_scripts _ _ _ e w v Hp)|].
    apply (markAsRead_scripts _ _ _ e w v Hp).
  - exists (escapeQuotes account), (subjectPattern subject), (recipientPattern sender).
    split; [constructor|]. split; [reflexivity|]. split; [constructor|].
    apply (checkIfReplied_scripts _ _ _ e w v Hp).
  - exists (escapeQuotes account). split; [constructor|].
    apply (getLatestMails_run account limit e w v Hp).
  - exists (escapeQuotes accountName). split; [constructor|].
    apply (getMailboxesForAccount_scripts _ e w v Hp Ha).
  - exists (escapeQuotes subject), (escapeQuotes to), (ccClause cc), (bccClause bcc).
    split; [constructor|]. split; [constructor|].
    split; [|split].
    + intros x -> Hx. exists (escapeQuotes x). split; [constructor|].
      unfold ccClause. rewrite Hx. reflexivity.
    + intros x -> Hx. exists (escapeQuotes x). split; [constructor|].
      unfold bccClause. rewrite Hx. reflexivity.
    + pose proof (sendMail_scripts to subject body cc bcc e w v Hp Hto Hsub Hbody Hw)
        as H.
      unfold send_script_of in H. exact H.
  - apply escape_steps_spec.
Qed.

Lemma literals_get_quote_step_first_witness :
  exists a s d,
    escaped (q "a~b") a
    /\ s = escapeBackslashes (escapeQuotes "Re: C:\temp")
    /\ escaped "x\y" d
    /\ scripts empty_world
         (snd (archiveEmail (q "a~b") "Re: C:\temp" "x\y"
                 (steady_env (Returns (VString "SUCCESS:Message archived"))) empty_world))
       = [probeScript; archiveScript a s d]
    /\ scripts empty_world
         (snd (deleteEmail (q "a~b") "Re: C:\temp" "x\y"
                 (steady_env (Returns (VString "SUCCESS:Message archived"))) empty_world))
       = [probeScript; deleteScript a s d]
    /\ scripts empty_world
         (snd (markAsRead (q "a~b") "Re: C:\temp" "x\y"
                 (steady_env (Returns (VString "SUCCESS:Message archived"))) empty_world))
       = [probeScript; markAsReadScript a s d].
Proof.
  refine (proj1 (literals_get_quote_step_first
                   (q "a~b") "Re: C:\temp" "x\y" "ann@example.com" "Hello" "Work"
                   None None None
                   (steady_env (Returns (VString "SUCCESS:Message archived"))) empty_world
                   (VString "SUCCESS:Message archived") _ _ _ _ _ _));
    reflexivity.
Defined.

(** ** Reply detection patterns *)

Lemma toLowerCase_app (a b : string) :
  toLowerCase (a +:+ b) = toLowerCase a +:+ toLowerCase b.
Proof.
  induction a as [|c a IH]; [reflexivity|].
  rewrite append_cons. cbn [toLowerCase]. rewrite IH. reflexivity.
Qed.

Lemma trimStart_app_ws (ws rest : string) :
  whitespace_only ws = true -> trimStart (ws +:+ rest) = trimStart rest.
Proof.
  induction ws as [|c ws IH]; [reflexivity|].
  rewrite whitespace_only_cons, append_cons. intros H.
  apply andb_prop in H as [Hc Hws]. cbn [trimStart]. rewrite Hc. auto.
Qed.

Lemma trimStart_id (s : string) : starts_with_ws s = false -> trimStart s = s.
Proof. destruct s as [|c r]; simpl; [reflexivity|]. intros ->. reflexivity. Qed.

Lemma toLowerCase_length (s : string) :
  String.length (toLowerCase s) = String.length s.
Proof.
  induction s as [|c s IH]; [reflexivity|].
  cbn [toLowerCase String.length]. rewrite IH. reflexivity.
Qed.

Lemma substring_from_app (p x : string) :
  substring_from (String.length p) (p +:+ x) = x.
Proof.
  induction p as [|c p IH]; [destruct x; reflexivity|].
  rewrite append_cons. cbn [String.length substring_from]. exact IH.
Qed.

(** The regular expression at work: its first two alternatives match when
    the subject starts with re: in any mix of cases, the last two when it
    starts with fwd:. *)
Lemma stripReplyPrefix_re (s : string) :
  String.prefix "re:" (toLowerCase s) = true ->
  stripReplyPrefix s = trimStart (substring_from 3 s).
Proof.
  intros H. unfold stripReplyPrefix, reply_prefixes, matches_ci. cbn [List.find].
  change (toLowerCase "Re:") with "re:". rewrite H. reflexivity.
Qed.

Lemma stripReplyPrefix_fwd (s : string) :
  String.prefix "re:" (toLowerCase s) = false ->
  String.prefix "fwd:" (toLowerCase s) = true ->
  stripReplyPrefix s = trimStart (substring_from 4 s).
Proof.
  intros Hre H. unfold stripReplyPrefix, reply_prefixes, matches_ci. cbn [List.find].
  change (toLowerCase "Re:") with "re:". change (toLowerCase "RE:") with "re:".
  change (toLowerCase "Fwd:") with "fwd:".
  rewrite Hre, H. reflexivity.
Qed.

Lemma prefix_re_fwd (t : string) : String.prefix "re:" ("fwd:" +:+ t) = false.
Proof. reflexivity. Qed.

(** A reply or forward prefix at the start is removed together with the
    white space after it, once. *)
Lemma stripReplyPrefix_strips (p ws rest : string) :
  is_reply_prefix p = true ->
  whitespace_only ws = true ->
  starts_with_ws rest = false ->
  stripReplyPrefix (p +:+ ws +:+ rest) = rest.
Proof.
  unfold is_reply_prefix. intros Hp Hws Hrest.
  apply orb_prop in Hp as [Hp|Hp]; apply String.eqb_eq in Hp.
  - assert (Hlen : String.length p = 3%nat)
      by (rewrite <- toLowerCase_length, Hp; reflexivity).
    rewrite stripReplyPrefix_re
      by (rewrite toLowerCase_app, Hp; apply string_prefix_app).
    rewrite <- Hlen, substring_from_app, trimStart_app_ws by exact Hws.
    apply trimStart_id, Hrest.
  - assert (Hlen : String.length p = 4%nat)
      by (rewrite <- toLowerCase_length, Hp; reflexivity).
    rewrite stripReplyPrefix_fwd;
      [|rewrite toLowerCase_app, Hp; apply prefix_re_fwd
       |rewrite toLowerCase_app, Hp; apply string_prefix_app].
    rewrite <- Hlen, substring_from_app, trimStart_app_ws by exact Hws.
    apply trimStart_id, Hrest.
Qed.

(** A subject without such a prefix is kept as it is. *)
Lemma stripReplyPrefix_keeps (s : string) :
  has_reply_prefix s = false -> stripReplyPrefix s = s.
Proof.
  unfold has_reply_prefix. intros H. apply orb_false_elim in H as [Hre Hfwd].
  unfold stripReplyPrefix, reply_prefixes, matches_ci. cbn [List.find].
  change (toLowerCase "Re:") with "re:". change (toLowerCase "RE:") with "re:".
  change (toLowerCase "Fwd:") with "fwd:". change (toLowerCase "FWD:") with "fwd:".
  rewrite Hre, Hfwd. reflexivity.
Qed.

Lemma free_of_cons (c d : ascii) (s : string) :
  free_of c (String d s) = negb (Ascii.eqb d c) && free_of c s.
Proof. reflexivity. Qed.

Lemma span_not_rangle_spec (s run rest : string) :
  span_not_rangle s = (run, rest) ->
  s = run +:+ rest
  /\ free_of rangle run = true
  /\ (rest = EmptyString \/ exists post, rest = String rangle post).
Proof.
  revert run rest. induction s as [|c r IH]; intros run rest; cbn [span_not_rangle].
  - intros H. injection H as <- <-. auto.
  - destruct (Ascii.eqb c rangle) eqn:Hc.
    + intros H. injection H as <- <-. apply Ascii.eqb_eq in Hc. subst c.
      split; [reflexivity|]. split; [reflexivity|]. right. eauto.
    + destruct (span_not_rangle r) as [run' rest'].
      intros H. injection H as <- <-.
      destruct (IH run' rest' eq_refl) as (Hr & Hf & Ht).
      rewrite append_cons, free_of_cons, Hc, Hf.
      split; [f_equal; exact Hr|]. split; [reflexivity|exact Ht].
Qed.

Lemma span_not_rangle_app (a post : string) :
  free_of rangle a = true ->
  span_not_rangle (a +:+ String rangle post) = (a, String rangle post).
Proof.
  induction a as [|c a IH].
  - intros _. rewrite append_nil_l. cbn [span_not_rangle].
    rewrite Ascii.eqb_refl. reflexivity.
  - rewrite free_of_cons, append_cons. intros H.
    apply andb_prop in H as [Hc Ha]. apply negb_true_iff in Hc.
    cbn [span_not_rangle]. rewrite Hc, (IH Ha). reflexivity.
Qed.

(** The match found is an angle-bracket form of the sender. *)
Lemma matchAngle_sound (s addr : string) :
  matchAngle s = Some addr ->
  exists pre post,
    s = pre +:+ chr langle +:+ addr +:+ chr rangle +:+ post
    /\ truthy addr = true
    /\ free_of rangle addr = true.
Proof.
  induction s as [|c r IH]; cbn [matchAngle]; [discriminate|].
  assert (Hrec : matchAngle r = Some addr ->
                 exists pre post,
                   String c r = pre +:+ chr langle +:+ addr +:+ chr rangle +:+ post
                   /\ truthy addr = true /\ free_of rangle addr = true).
  { intros H. destruct (IH H) as (pre & post & -> & Ht & Hf).
    exists (String c pre), post. rewrite append_cons. auto. }
  destruct (Ascii.eqb c langle) eqn:Hc; [|exact Hrec].
  destruct (span_not_rangle r) as [run rest] eqn:Hs.
  destruct run as [|a run]; [exact Hrec|].
  destruct rest as [|d rest]; [exact Hrec|].
  intros H. injection H as <-.
  apply Ascii.eqb_eq in Hc. subst c.
  destruct (span_not_rangle_spec _ _ _ Hs) as (Hr & Hf & [Ht|(post & Ht)]);
    [discriminate|].
  exists EmptyString, post. rewrite Hr, Ht.
  split; [reflexivity|]. split; [reflexivity|exact Hf].
Qed.

(** Every angle-bracket form is found. *)
Lemma matchAngle_complete (s : string) :
  bracket_form s -> exists addr, matchAngle s = Some addr.
Proof.
  intros (pre & addr & post & -> & Ht & Hf).
  induction pre as [|c pre IH].
  - rewrite append_nil_l. unfold chr. rewrite !append_cons, !append_nil_l.
    cbn [matchAngle]. rewrite Ascii.eqb_refl, (span_not_rangle_app addr post Hf).
    destruct addr as [|a addr]; [discriminate|]. eauto.
  - rewrite append_cons. cbn [matchAngle].
    destruct (Ascii.eqb c langle); [|exact IH].
    destruct (span_not_rangle _) as [[|a run] [|d rest]]; eauto.
Qed.

(** The leftmost form wins: after a name without an opening bracket, the
    text between the brackets is the match. *)
Lemma matchAngle_direct (name addr tail : string) :
  free_of langle name = true ->
  truthy addr = true ->
  free_of rangle addr = true ->
  matchAngle (name +:+ chr langle +:+ addr +:+ chr rangle +:+ tail) = Some addr.
Proof.
  intros Hn Ht Hf. induction name as [|c name IH].
  - rewrite append_nil_l. unfold chr. rewrite !append_cons, !append_nil_l.
    cbn [matchAngle]. rewrite Ascii.eqb_refl, (span_not_rangle_app addr tail Hf).
    destruct addr as [|a addr]; [discriminate|]. reflexivity.
  - rewrite free_of_cons in Hn. apply andb_prop in Hn as [Hc Hn].
    apply negb_true_iff in Hc.
    rewrite append_cons. cbn [matchAngle]. rewrite Hc. exact (IH Hn).
Qed.

Lemma str_or_same (s : string) : str_or s s = s.
Proof. unfold str_or. destruct (truthy s); reflexivity. Qed.

(** The address taken from a sender, in the words of the specification. *)
Lemma sender_address_spec :
  (forall name addr tail,
      free_of langle name = true -> truthy addr = true -> free_of rangle addr = true ->
      sender_address (name +:+ chr langle +:+ addr +:+ chr rangle +:+ tail) = addr)
  /\ (forall s, ~ bracket_form s -> sender_address s = s)
  /\ (forall s, bracket_form s ->
      exists pre post,
        s = pre +:+ chr langle +:+ sender_address s +:+ chr rangle +:+ post
        /\ truthy (sender_address s) = true
        /\ free_of rangle (sender_address s) = true).
Proof.
  unfold sender_address. split; [|split].
  - intros name addr tail Hn Ht Hf.
    rewrite (matchAngle_direct name addr tail Hn Ht Hf).
    unfold str_or. rewrite Ht. reflexivity.
  - intros s Hno. destruct (matchAngle s) as [addr|] eqn:Hm.
    + exfalso. apply Hno. destruct (matchAngle_sound s addr Hm) as (pre & post & H).
      exists pre, addr, post. exact H.
    + apply str_or_same.
  - intros s Hb. destruct (matchAngle_complete s Hb) as (addr & Hm). rewrite Hm.
    destruct (matchAngle_sound s addr Hm) as (pre & post & Hs & Ht & Hf).
    unfold str_or. rewrite Ht. eauto.
Qed.

(** The script of checkIfReplied compares with the two patterns it is
    given. *)
Lemma checkIfRepliedScript_patterns (safeAccount safeSubject senderEmail : string) :
  exists pre post,
    checkIfRepliedScript safeAccount safeSubject senderEmail =
    pre +:+ q "set subjectPattern to ~" +:+ safeSubject +:+ q "~
        set recipientPattern to ~" +:+ senderEmail +:+ q "~" +:+ post.
Proof.
  with_strategy transparent [checkIfRepliedScript] unfold checkIfRepliedScript.
  match goal with
  | |- exists pre post, ?l0 +:+ ?a +:+ ?l1 +:+ ?s +:+ ?l2 +:+ ?d +:+ ?l3 = _ =>
      let before := constr:(q "set subjectPattern to ~") in
      let after := constr:(q "~") in
      let pre := text_before l1 before in
      let post := text_after l3 after in
      exists (l0 +:+ a +:+ pre), post;
      replace l3 with (after +:+ post) by (vm_compute; reflexivity);
      exact (regroup_later l0 a l1 pre before (s +:+ l2 +:+ d +:+ after +:+ post)
               ltac:(vm_compute; reflexivity))
  end.
Qed.

(** C7. Once access is granted, checkIfReplied hands the interpreter a
    script whose subject pattern is built from the original subject with one
    leading Re:, RE:, Fwd: or FWD: (in any mix of cases) and the white space
    after it removed, a subject without such a prefix being taken whole; and
    whose recipient pattern is built from the text between the brackets of
    the sender's leftmost angle-bracket form, or from the whole sender when
    it holds no such form, put in lower case.  (Both are then escaped as
    literals.) *)
Theorem checkIfReplied_builds_patterns
    (account originalSubject originalSender : string) (e : Env) (w : World) (v : value) :
  bridge e w probeScript = Returns v ->
  (exists pre post,
      scripts w (snd (checkIfReplied account originalSubject originalSender e w)) =
      [probeScript;
       pre +:+ q "set subjectPattern to ~"
       +:+ escapeBackslashes (escapeQuotes (stripReplyPrefix originalSubject))
       +:+ q "~
        set recipientPattern to ~"
       +:+ escapeQuotes (toLowerCase (sender_address originalSender))
       +:+ q "~" +:+ post])
  /\ (forall p ws rest,
        is_reply_prefix p = true ->
        whitespace_only ws = true ->
        starts_with_ws rest = false ->
        stripReplyPrefix (p +:+ ws +:+ rest) = rest)
  /\ (forall s, has_reply_prefix s = false -> stripReplyPrefix s = s)
  /\ (forall name addr tail,
        free_of langle name = true -> truthy addr = true -> free_of rangle addr = true ->
        sender_address (name +:+ chr langle +:+ addr +:+ chr rangle +:+ tail) = addr)
  /\ (forall s, ~ bracket_form s -> sender_address s = s)
  /\ (forall s, bracket_form s ->
        exists pre post,
          s = pre +:+ chr langle +:+ sender_address s +:+ chr rangle +:+ post
          /\ truthy (sender_address s) = true
          /\ free_of rangle (sender_address s) = true).
Proof.
  intros Hp.
  split; [|split; [exact stripReplyPrefix_strips|split; [exact stripReplyPrefix_keeps|]]].
  - rewrite (checkIfReplied_scripts account originalSubject originalSender e w v Hp).
    destruct (checkIfRepliedScript_patterns (escapeQuotes account)
                (subjectPattern originalSubject) (recipientPattern originalSender))
      as (pre & post & ->).
    exists pre, post. reflexivity.
  - exact sender_address_spec.
Qed.

Lemma checkIfReplied_builds_patterns_witness :
  exists pre post,
    scripts empty_world
      (snd (checkIfReplied "Work" "Re: Project update" "John Doe <John@Example.com>"
              (steady_env (Returns (VString "NOREPLYFOUND"))) empty_world)) =
    [probeScript;
     pre +:+ q "set subjectPattern to ~"
     +:+ escapeBackslashes (escapeQuotes (stripReplyPrefix "Re: Project update"))
     +:+ q "~
        set recipientPattern to ~"
     +:+ escapeQuotes (toLowerCase (sender_address "John Doe <John@Example.com>"))
     +:+ q "~" +:+ post].
Proof.
  exact (proj1 (checkIfReplied_builds_patterns
                  "Work" "Re: Project update" "John Doe <John@Example.com>"
                  (steady_env (Returns (VString "NOREPLYFOUND"))) empty_world
                  (VString "NOREPLYFOUND") eq_refl)).
Defined.

Example checkIfReplied_patterns_demo :
  subjectPattern "Re: Project update" = "Project update"
  /\ subjectPattern "FWD:Re: Project update" = "Re: Project update"
  /\ subjectPattern "Project update" = "Project update"
  /\ recipientPattern "John Doe <John@Example.com>" = "john@example.com"
  /\ recipientPattern "John@Example.com" = "john@example.com".
Proof. vm_compute. repeat split; reflexivity. Qed.

(** ** Cutting a reply at its delimiters *)

Section Cutting.
Variable sep : string.

Lemma split_go_nonempty (k : nat) (s : string) : split_go sep k s <> [].
Proof.
  revert k. induction s as [|c r IH]; intros k; cbn [split_go]; [discriminate|].
  destruct k; [|apply IH].
  destruct (String.prefix sep (String c r)); [discriminate|].
  destruct (split_go sep 0 r); discriminate.
Qed.

Lemma split_go_skip (x rest : string) :
  split_go sep (String.length x) (x +:+ rest) = split_go sep 0 rest.
Proof.
  induction x as [|c x IH]; [reflexivity|].
  rewrite append_cons. cbn [String.length split_go]. exact IH.
Qed.

(** Where no separator starts, the text stays in the first piece. *)
Lemma split_go_unmatched (x y : string) :
  unmatched sep x y = true ->
  split_go sep 0 (x +:+ y) = cons_first x (split_go sep 0 y).
Proof.
  induction x as [|c x IH]; cbn [unmatched].
  - intros _. rewrite append_nil_l.
    pose proof (split_go_nonempty 0 y) as Hne.
    destruct (split_go sep 0 y); [contradiction|reflexivity].
  - intros H. apply andb_prop in H as [Hc Hx]. apply negb_true_iff in Hc.
    rewrite append_cons in *. cbn [split_go]. rewrite Hc, (IH Hx).
    pose proof (split_go_nonempty 0 y) as Hne.
    destruct (split_go sep 0 y); [contradiction|reflexivity].
Qed.

(** A text that holds no separator is one piece. *)
Lemma split_whole (x : string) :
  unmatched sep x EmptyString = true -> split sep x = [x].
Proof.
  intros H. unfold split. rewrite <- (append_nil_r x) at 1.
  rewrite (split_go_unmatched _ _ H). cbn [split_go cons_first].
  rewrite append_nil_r. reflexivity.
Qed.

Lemma unmatched_app (a b y : string) :
  unmatched sep (a +:+ b) y = unmatched sep a (b +:+ y) && unmatched sep b y.
Proof.
  induction a as [|c a IH]; [reflexivity|].
  rewrite append_cons. cbn [unmatched]. rewrite IH, <- append_cons, append_assoc.
  apply andb_assoc.
Qed.
End Cutting.

(** A separator that no earlier position matches ends the first piece. *)
Lemma split_at_sep (c : ascii) (sep' x rest : string) :
  unmatched (String c sep') x (String c sep' +:+ rest) = true ->
  split (String c sep') (x +:+ String c sep' +:+ rest) = x :: split (String c sep') rest.
Proof.
  intros H. unfold split. rewrite (split_go_unmatched _ _ _ H).
  rewrite append_cons. cbn [split_go].
  rewrite <- append_cons, string_prefix_app.
  replace (String.length (String c sep') - 1)%nat with (String.length sep')
    by (cbn [String.length]; lia).
  rewrite split_go_skip.
  cbn [cons_first]. rewrite append_nil_r. reflexivity.
Qed.

Lemma unmatched_plain (c : ascii) (sep' x y : string) :
  free_of c x = true -> unmatched (String c sep') x y = true.
Proof.
  induction x as [|d x IH]; [reflexivity|].
  rewrite free_of_cons. intros H. apply andb_prop in H as [Hd Hx].
  apply negb_true_iff in Hd.
  cbn [unmatched]. rewrite append_cons, (prefix_head_differs c d _ _ Hd), (IH Hx).
  reflexivity.
Qed.

(** The record delimiter never starts inside a field delimiter. *)
Lemma unmatched_DELIM_FIELD_DELIM (y : string) : unmatched DELIM FIELD_DELIM y = true.
Proof. vm_compute. reflexivity. Qed.

Lemma join_cons (sep f g : string) (fs : list string) :
  join sep (f :: g :: fs) = f +:+ sep +:+ join sep (g :: fs).
Proof. reflexivity. Qed.

Lemma split_at_DELIM (x rest : string) :
  unmatched DELIM x (DELIM +:+ rest) = true ->
  split DELIM (x +:+ DELIM +:+ rest) = x :: split DELIM rest.
Proof. exact (split_at_sep langle "<<EMAIL_SEP>>>" x rest). Qed.

Lemma split_at_FIELD_DELIM (x rest : string) :
  unmatched FIELD_DELIM x (FIELD_DELIM +:+ rest) = true ->
  split FIELD_DELIM (x +:+ FIELD_DELIM +:+ rest) = x :: split FIELD_DELIM rest.
Proof. exact (split_at_sep langle "<<FIELD>>>" x rest). Qed.

Lemma unmatched_plain_DELIM (x y : string) :
  free_of langle x = true -> unmatched DELIM x y = true.
Proof. exact (unmatched_plain langle "<<EMAIL_SEP>>>" x y). Qed.

Lemma unmatched_plain_FIELD_DELIM (x y : string) :
  free_of langle x = true -> unmatched FIELD_DELIM x y = true.
Proof. exact (unmatched_plain langle "<<FIELD>>>" x y). Qed.

Lemma unmatched_join (fields : list string) (y : string) :
  forallb (free_of langle) fields = true ->
  unmatched DELIM (join FIELD_DELIM fields) y = true.
Proof.
  induction fields as [|f fs IH]; [reflexivity|].
  cbn [forallb]. intros H. apply andb_prop in H as [Hf Hfs].
  destruct fs as [|g fs].
  - apply unmatched_plain_DELIM, Hf.
  - rewrite join_cons, !unmatched_app.
    rewrite (unmatched_plain_DELIM _ _ Hf), (IH Hfs), unmatched_DELIM_FIELD_DELIM.
    reflexivity.
Qed.

(** Cutting a joined record at the field delimiter gives its fields back. *)
Lemma split_join (fields : list string) :
  fields <> [] ->
  forallb (free_of langle) fields = true ->
  split FIELD_DELIM (join FIELD_DELIM fields) = fields.
Proof.
  induction fields as [|f fs IH]; [contradiction|].
  intros _. cbn [forallb]. intros H. apply andb_prop in H as [Hf Hfs].
  destruct fs as [|g fs].
  - apply split_whole, unmatched_plain_FIELD_DELIM, Hf.
  - rewrite join_cons, split_at_FIELD_DELIM
      by (apply unmatched_plain_FIELD_DELIM, Hf).
    f_equal. apply IH; [discriminate|exact Hfs].
Qed.

Lemma encode_reply_cons (r : list string) (rs : list (list string)) :
  encode_reply (r :: rs) = join FIELD_DELIM r +:+ DELIM +:+ encode_reply rs.
Proof. unfold encode_reply, encode_record. cbn [fold_right]. apply append_assoc. Qed.

(** Cutting an encoded reply at the record delimiter gives the joined
    records, and one empty fragment after the last delimiter. *)
Lemma split_encode_reply (records : list (list string)) :
  plain_records records = true ->
  split DELIM (encode_reply records) =
  List.map (join FIELD_DELIM) records ++ [EmptyString].
Proof.
  unfold plain_records.
  induction records as [|r rs IH]; [reflexivity|].
  cbn [forallb]. intros H. apply andb_prop in H as [Hr Hrs].
  rewrite encode_reply_cons, split_at_DELIM by (apply unmatched_join, Hr).
  rewrite (IH Hrs). reflexivity.
Qed.

Lemma truthy_app_r (a b : string) : truthy b = true -> truthy (a +:+ b) = true.
Proof. destruct a; [trivial|reflexivity]. Qed.

Lemma blank_join_short (fields : list string) :
  truthy (join FIELD_DELIM fields) = false -> accepted fields = false.
Proof.
  destruct fields as [|f [|g fs]]; try reflexivity.
  rewrite join_cons, truthy_app_r by reflexivity. discriminate.
Qed.

Lemma filter_truthy_app_empty (l : list string) :
  List.filter truthy (l ++ [EmptyString]) = List.filter truthy l.
Proof. rewrite List.filter_app. cbn. apply app_nil_r. Qed.

(** Decoding after encoding: the accepted records of an encoded reply are
    the records of four or more fields that were encoded, in order. *)
Lemma records_roundtrip (records : list (list string)) :
  plain_records records = true ->
  List.filter accepted (records_of (encode_reply records)) = List.filter accepted records.
Proof.
  intros Hp. unfold records_of.
  rewrite (split_encode_reply records Hp), filter_truthy_app_empty.
  unfold plain_records in Hp.
  induction records as [|r rs IH]; [reflexivity|].
  cbn [forallb] in Hp. apply andb_prop in Hp as [Hr Hrs].
  cbn [List.map List.filter].
  destruct (truthy (join FIELD_DELIM r)) eqn:Ht.
  - cbn [List.map List.filter].
    rewrite split_join; [|intros ->; discriminate|exact Hr].
    rewrite (IH Hrs). reflexivity.
  - rewrite (blank_join_short r Ht). exact (IH Hrs).
Qed.

Lemma parseLatest_roundtrip (account now : string) (records : list (list string)) :
  plain_records records = true ->
  parseLatest account now (encode_reply records) =
  List.map (email_of_fields account now) (List.filter accepted records).
Proof.
  intros Hp. rewrite parseLatest_spec, (records_roundtrip records Hp). reflexivity.
Qed.

(** The fields of a decoded message, placeholder by placeholder. *)
Lemma email_of_fields_spec (account now : string) (fields : list string) :
  email_of_fields account now fields =
  {| subject := or_placeholder fields 0 "No subject";
     sender := or_placeholder fields 1 "Unknown sender";
     dateSent := or_placeholder fields 2 now;
     content := or_placeholder fields 4 "[Content not available]";
     isRead := String.eqb (nth 3 fields EmptyString) "true";
     mailbox := account +:+ " - INBOX" |}.
Proof.
  assert (H : forall i ph, field_or fields i ph = or_placeholder fields i ph).
  { intros i ph. unfold field_or, or_placeholder, str_or.
    revert i. induction fields as [|f fs IH]; intros [|i]; cbn; try reflexivity.
    - destruct f; reflexivity.
    - apply IH. }
  unfold email_of_fields. rewrite !H. f_equal.
  unfold field_is_true.
  destruct fields as [|a [|b [|c [|d fs]]]]; reflexivity.
Qed.

(** C4. The parser of getLatestMails (lines 563 to 580) cuts the reply at
    the record delimiter and discards the empty fragments, cuts each record
    at the field delimiter, yields one message per record of four or more
    fields, in order, and drops the records of fewer than four fields; in a
    message an absent or empty subject, sender, date or content is replaced
    by No subject, Unknown sender, the current time and [Content not
    available].  For a reply that is the delimited encoding of records whose
    fields are free of the opening angle bracket, the messages are those of
    the encoded records of four or more fields.  getLatestMails returns what
    the parser yields whenever the reply to its script is a text that does
    not start with the error mark. *)
Theorem parser_decodes_records (account now s : string) :
  parseLatest account now s =
    List.map (email_of_fields account now) (List.filter accepted (records_of s))
  /\ records_of s = List.map (split FIELD_DELIM) (List.filter truthy (split DELIM s))
  /\ (forall fields,
        email_of_fields account now fields =
        {| subject := or_placeholder fields 0 "No subject";
           sender := or_placeholder fields 1 "Unknown sender";
           dateSent := or_placeholder fields 2 now;
           content := or_placeholder fields 4 "[Content not available]";
           isRead := String.eqb (nth 3 fields EmptyString) "true";
           mailbox := account +:+ " - INBOX" |})
  /\ (forall records,
        plain_records records = true ->
        parseLatest account now (encode_reply records) =
        List.map (email_of_fields account now) (List.filter accepted records))
  /\ (forall limit e w v,
        bridge e w probeScript = Returns v ->
        bridge e (log_call probeScript (Returns v) w)
               (latestScript (escapeQuotes account) (Math_min (default (of_Z 5) limit) MAX_EMAILS))
          = Returns (VString s) ->
        startsWith "ERROR:" s = false ->
        fst (getLatestMails account limit e w) =
        Normal (parseLatest account (date_string e) s)).
Proof.
  split; [apply parseLatest_spec|].
  split; [reflexivity|].
  split; [intros fields; apply email_of_fields_spec|].
  split; [intros records Hplain; apply (parseLatest_roundtrip _ _ _ Hplain)|].
  intros limit e w v Hp Hr He.
  destruct (getLatestMails_run account limit e w v Hp) as [_ Hrun].
  rewrite Hr, He in Hrun. exact Hrun.
Qed.

Lemma parser_decodes_records_witness :
  fst (getLatestMails "Work" None
         (scripted_env (Returns (VString "Mail"))
                       (Returns (VString (encode_reply demo_records))))
         empty_world) =
  Normal
    [ {| subject := "Hello"; sender := "ann@example.com"; dateSent := "Monday";
         content := "[Content not available]"; isRead := true;
         mailbox := "Work - INBOX" |};
      {| subject := "No subject"; sender := "Unknown sender"; dateSent := today;
         content := "Body"; isRead := false; mailbox := "Work - INBOX" |} ].
Proof.
  destruct (parser_decodes_records "Work" today (encode_reply demo_records))
    as (_ & _ & _ & _ & Hrun).
  rewrite (Hrun None
             (scripted_env (Returns (VString "Mail"))
                           (Returns (VString (encode_reply demo_records))))
             empty_world (VString "Mail"));
    vm_compute; reflexivity.
Defined.

Example parseLatest_demo :
  split DELIM (encode_reply demo_records) =
    ["Hello<<<FIELD>>>ann@example.com<<<FIELD>>>Monday<<<FIELD>>>true";
     "<<<FIELD>>><<<FIELD>>><<<FIELD>>>false<<<FIELD>>>Body";
     "a<<<FIELD>>>b<<<FIELD>>>c"; ""]
  /\ length (parseLatest "Work" today (encode_reply demo_records)) = 2%nat
  /\ parseLatest "Work" today "" = []
  /\ parseLatest "Work" today "only<<<FIELD>>>three<<<FIELD>>>fields<<<EMAIL_SEP>>>" = [].
Proof. vm_compute. repeat split; reflexivity. Qed.

(** * Further properties of the operations *)

(** ** The access gate *)

(** X1. requestMailAccess never throws: it grants access exactly when the
    probe returns, answers a failed probe with the four-step instructions
    (the text of its own catch block is never produced), invokes the probe
    and nothing else, and leaves the files alone. *)
Theorem requestMailAccess_outcome (e : Env) (w : World) :
  fst (requestMailAccess e w) =
    Normal match bridge e w probeScript with
           | Returns _ => mkAccessResult true "Mail access is already granted."
           | Raises _ => mkAccessResult false access_instructions
           end
  /\ scripts w (snd (requestMailAccess e w)) = [probeScript]
  /\ files (snd (requestMailAccess e w)) = files w.
Proof.
  unfold requestMailAccess, checkMailAccess. run_steps.
  destruct (bridge e w probeScript); simpl;
    (split; [reflexivity|split; [settle_calls; reflexivity|reflexivity]]).
Qed.

(** ** Round trips and files *)

Ltac trace_done :=
  run_steps;
  split;
  [ unfold probe_then_at_most_one; eexists;
    split; [settle_calls; reflexivity|simpl; lia]
  | reflexivity ].

Lemma getUnreadMails_trace (limit : option number) (e : Env) (w : World) :
  probe_then_at_most_one w (snd (getUnreadMails limit e w))
  /\ files (snd (getUnreadMails limit e w)) = files w.
Proof.
  unfold getUnreadMails. run_gate.
  destruct (bridge e w probeScript) as [v|msg]; [|trace_done].
  run_steps. destruct (bridge e _ _) as [r|msg]; [|trace_done].
  destruct r as [| |[]|n|s|xs]; simpl; try trace_done.
  - destruct (negb (is_zero false n || is_zero true n || is_NaN n)); trace_done.
  - destruct (truthy s); [destruct (startsWith _ s)|]; trace_done.
Qed.

Lemma searchMails_trace (searchTerm : string) (limit : option number) (e : Env) (w : World) :
  probe_then_at_most_one w (snd (searchMails searchTerm limit e w))
  /\ files (snd (searchMails searchTerm limit e w)) = files w.
Proof.
  unfold searchMails. run_gate.
  destruct (bridge e w probeScript) as [v|msg]; [|trace_done].
  destruct (negb (truthy searchTerm) || String.eqb (trim searchTerm) "");
    [trace_done|].
  run_steps. destruct (bridge e _ _) as [r|msg]; [|trace_done].
  destruct r as [| |[]|n|s|xs]; simpl; try trace_done.
  - destruct (negb (is_zero false n || is_zero true n || is_NaN n)); trace_done.
  - destruct (truthy s); [destruct (startsWith _ s)|]; trace_done.
Qed.

Lemma getMailboxes_trace (e : Env) (w : World) :
  probe_then_at_most_one w (snd (getMailboxes e w))
  /\ files (snd (getMailboxes e w)) = files w.
Proof.
  unfold getMailboxes. run_gate.
  destruct (bridge e w probeScript) as [v|msg]; [|trace_done].
  run_steps. destruct (bridge e _ _) as [r|msg]; trace_done.
Qed.

Lemma getAccounts_trace (e : Env) (w : World) :
  probe_then_at_most_one w (snd (getAccounts e w))
  /\ files (snd (getAccounts e w)) = files w.
Proof.
  unfold getAccounts. run_gate.
  destruct (bridge e w probeScript) as [v|msg]; [|trace_done].
  run_steps. destruct (bridge e _ _) as [r|msg]; trace_done.
Qed.

Lemma getMailboxesForAccount_trace (accountName : string) (e : Env) (w : World) :
  probe_then_at_most_one w (snd (getMailboxesForAccount accountName e w))
  /\ files (snd (getMailboxesForAccount accountName e w)) = files w.
Proof.
  unfold getMailboxesForAccount. run_gate.
  destruct (bridge e w probeScript) as [v|msg]; [|trace_done].
  destruct (negb (truthy accountName) || negb (truthy (trim accountName)));
    [trace_done|].
  run_steps. destruct (bridge e _ _) as [r|msg]; [destruct r|]; trace_done.
Qed.

Lemma getLatestMails_trace (account : string) (limit : option number) (e : Env) (w : World) :
  probe_then_at_most_one w (snd (getLatestMails account limit e w))
  /\ files (snd (getLatestMails account limit e w)) = files w.
Proof.
  unfold getLatestMails. run_gate.
  destruct (bridge e w probeScript) as [v|msg]; [|trace_done].
  run_steps. destruct (bridge e _ _) as [r|msg]; [|trace_done].
  destruct r as [| |b|n|s|xs]; simpl; try trace_done.
  destruct (startsWith "ERROR:" s); trace_done.
Qed.

Lemma archiveEmail_trace (account subject sender : string) (e : Env) (w : World) :
  probe_then_at_most_one w (snd (archiveEmail account subject sender e w))
  /\ files (snd (archiveEmail account subject sender e w)) = files w.
Proof.
  unfold archiveEmail. run_gate.
  destruct (bridge e w probeScript) as [v|msg]; [|trace_done].
  run_steps. destruct (bridge e _ _) as [r|msg]; trace_done.
Qed.

Lemma deleteEmail_trace (account subject sender : string) (e : Env) (w : World) :
  probe_then_at_most_one w (snd (deleteEmail account subject sender e w))
  /\ files (snd (deleteEmail account subject sender e w)) = files w.
Proof.
  unfold deleteEmail. run_gate.
  destruct (bridge e w probeScript) as [v|msg]; [|trace_done].
  run_steps. destruct (bridge e _ _) as [r|msg]; trace_done.
Qed.

Lemma markAsRead_trace (account subject sender : string) (e : Env) (w : World) :
  probe_then_at_most_one w (snd (markAsRead account subject sender e w))
  /\ files (snd (markAsRead account subject sender e w)) = files w.
Proof.
  unfold markAsRead. run_gate.
  destruct (bridge e w probeScript) as [v|msg]; [|trace_done].
  run_steps. destruct (bridge e _ _) as [r|msg]; trace_done.
Qed.

Lemma checkIfReplied_trace
    (account originalSubject originalSender : string) (e : Env) (w : World) :
  probe_then_at_most_one w (snd (checkIfReplied account originalSubject originalSender e w))
  /\ files (snd (checkIfReplied account originalSubject originalSender e w)) = files w.
Proof.
  unfold checkIfReplied. run_gate.
  destruct (bridge e w probeScript) as [v|msg]; [|trace_done].
  run_steps. destruct (bridge e _ _) as [r|msg]; trace_done.
Qed.

Ltac send_leaf :=
  run_steps;
  split;
  [ unfold probe_then_at_most_one; eexists;
    split; [settle_calls; reflexivity|simpl; lia]
  | intros p Hp; simpl;
    rewrite ?lookup_delete_ne, ?lookup_insert_ne by congruence; reflexivity ].

Lemma sendMail_trace
    (to subject body : string) (cc bcc : option string) (e : Env) (w : World) :
  probe_then_at_most_one w (snd (sendMail to subject body cc bcc e w))
  /\ (forall p, p <> tmp_path (date_now e) ->
      files (snd (sendMail to subject body cc bcc e w)) !! p = files w !! p).
Proof.
  unfold sendMail. run_gate.
  destruct (bridge e w probeScript) as [v|msg]; [|send_leaf].
  rewrite !blank_guard.
  destruct (whitespace_only to); [send_leaf|].
  destruct (whitespace_only subject); [send_leaf|].
  destruct (whitespace_only body); [send_leaf|].
  run_steps.
  destruct (write_error e _); simpl;
    [destruct (write_partial e _ _); simpl; send_leaf|].
  destruct (bridge e _ (sendScript _ _ _ _ _)) as [x|msg]; simpl; [|send_leaf].
  rewrite lookup_insert_eq.
  destruct (unlink_error e _); simpl; destruct (strict_eq x "SUCCESS"); send_leaf.
Qed.

(** X2. Every public operation makes the access probe its first interpreter
    invocation and at most one invocation after it: one round trip for its
    own script, none when the gate or a guard stops it. *)
Theorem operations_make_one_round_trip
    (e : Env) (w : World) (limit : option number)
    (searchTerm accountName account subject sender to body : string)
    (cc bcc : option string) :
  probe_then_at_most_one w (snd (getUnreadMails limit e w))
  /\ probe_then_at_most_one w (snd (searchMails searchTerm limit e w))
  /\ probe_then_at_most_one w (snd (sendMail to subject body cc bcc e w))
  /\ probe_then_at_most_one w (snd (getMailboxes e w))
  /\ probe_then_at_most_one w (snd (getAccounts e w))
  /\ probe_then_at_most_one w (snd (getMailboxesForAccount accountName e w))
  /\ probe_then_at_most_one w (snd (getLatestMails account limit e w))
  /\ probe_then_at_most_one w (snd (archiveEmail account subject sender e w))
  /\ probe_then_at_most_one w (snd (deleteEmail account subject sender e w))
  /\ probe_then_at_most_one w (snd (markAsRead account subject sender e w))
  /\ probe_then_at_most_one w (snd (checkIfReplied account subject sender e w)).
Proof.
  split; [exact (proj1 (getUnreadMails_trace limit e w))|].
  split; [exact (proj1 (searchMails_trace searchTerm limit e w))|].
  split; [exact (proj1 (sendMail_trace to subject body cc bcc e w))|].
  split; [exact (proj1 (getMailboxes_trace e w))|].
  split; [exact (proj1 (getAccounts_trace e w))|].
  split; [exact (proj1 (getMailboxesForAccount_trace accountName e w))|].
  split; [exact (proj1 (getLatestMails_trace account limit e w))|].
  split; [exact (proj1 (archiveEmail_trace account subject sender e w))|].
  split; [exact (proj1 (deleteEmail_trace account subject sender e w))|].
  split; [exact (proj1 (markAsRead_trace account subject sender e w))|].
  exact (proj1 (checkIfReplied_trace account subject sender e w)).
Qed.

(** X3. No operation other than sendMail changes the file system, and
    sendMail changes it at the path of its own body file only. *)
Theorem only_sendMail_touches_files
    (e : Env) (w : World) (limit : option number)
    (searchTerm accountName account subject sender to body : string)
    (cc bcc : option string) :
  files (snd (getUnreadMails limit e w)) = files w
  /\ files (snd (searchMails searchTerm limit e w)) = files w
  /\ files (snd (getMailboxes e w)) = files w
  /\ files (snd (getAccounts e w)) = files w
  /\ files (snd (getMailboxesForAccount accountName e w)) = files w
  /\ files (snd (getLatestMails account limit e w)) = files w
  /\ files (snd (archiveEmail account subject sender e w)) = files w
  /\ files (snd (deleteEmail account subject sender e w)) = files w
  /\ files (snd (markAsRead account subject sender e w)) = files w
  /\ files (snd (checkIfReplied account subject sender e w)) = files w
  /\ (forall p, p <> tmp_path (date_now e) ->
      files (snd (sendMail to subject body cc bcc e w)) !! p = files w !! p).
Proof.
  split; [exact (proj2 (getUnreadMails_trace limit e w))|].
  split; [exact (proj2 (searchMails_trace searchTerm limit e w))|].
  split; [exact (proj2 (getMailboxes_trace e w))|].
  split; [exact (proj2 (getAccounts_trace e w))|].
  split; [exact (proj2 (getMailboxesForAccount_trace accountName e w))|].
  split; [exact (proj2 (getLatestMails_trace account limit e w))|].
  split; [exact (proj2 (archiveEmail_trace account subject sender e w))|].
  split; [exact (proj2 (deleteEmail_trace account subject sender e w))|].
  split; [exact (proj2 (markAsRead_trace account subject sender e w))|].
  split; [exact (proj2 (checkIfReplied_trace account subject sender e w))|].
  exact (proj2 (sendMail_trace to subject body cc bcc e w)).
Qed.

Lemma only_sendMail_touches_files_witness :
  files (snd (sendMail "ann@example.com" "Hi" "Hello" None None
                (sticky_env (Returns (VString "SUCCESS"))) empty_world))
    !! "/tmp/other.txt"
  = files empty_world !! "/tmp/other.txt".
Proof.
  destruct (only_sendMail_touches_files
              (sticky_env (Returns (VString "SUCCESS"))) empty_world
              None "" "" "" "Hi" "" "ann@example.com" "Hello" None None)
    as (_ & _ & _ & _ & _ & _ & _ & _ & _ & _ & H).
  apply H. vm_compute. discriminate.
Defined.

(** ** Access denied *)

Ltac denied Hp op :=
  unfold op; run_gate; rewrite Hp; run_steps; try settle_calls; reflexivity.

(** X4. When the access probe fails, no operation invokes its own script:
    the six listing operations return the empty list, archiveEmail,
    deleteEmail, markAsRead and checkIfReplied return a failure whose message
    is their own prefix followed by the four-step instructions, and sendMail
    throws those instructions under its prefix. *)
Theorem access_denied_stops_every_operation
    (e : Env) (w : World) (msg : string) (limit : option number)
    (searchTerm accountName account subject sender to body : string)
    (cc bcc : option string) :
  bridge e w probeScript = Raises msg ->
  (fst (getUnreadMails limit e w) = Normal []
   /\ fst (searchMails searchTerm limit e w) = Normal []
   /\ fst (getMailboxes e w) = Normal []
   /\ fst (getAccounts e w) = Normal []
   /\ fst (getMailboxesForAccount accountName e w) = Normal []
   /\ fst (getLatestMails account limit e w) = Normal [])
  /\ (fst (archiveEmail account subject sender e w) =
        Normal (mkOperationResult false ("Error archiving email: " +:+ access_instructions))
      /\ fst (deleteEmail account subject sender e w) =
        Normal (mkOperationResult false ("Error deleting email: " +:+ access_instructions))
      /\ fst (markAsRead account subject sender e w) =
        Normal (mkOperationResult false
                  ("Error marking email as read: " +:+ access_instructions))
      /\ fst (checkIfReplied account subject sender e w) =
        Normal (mkReplyResult false None
                  ("Error checking for reply: " +:+ access_instructions))
      /\ fst (sendMail to subject body cc bcc e w) =
        Throw ("Error sending email: " +:+ access_instructions))
  /\ (scripts w (snd (getUnreadMails limit e w)) = [probeScript]
      /\ scripts w (snd (searchMails searchTerm limit e w)) = [probeScript]
      /\ scripts w (snd (getMailboxes e w)) = [probeScript]
      /\ scripts w (snd (getAccounts e w)) = [probeScript]
      /\ scripts w (snd (getMailboxesForAccount accountName e w)) = [probeScript]
      /\ scripts w (snd (getLatestMails account limit e w)) = [probeScript]
      /\ scripts w (snd (archiveEmail account subject sender e w)) = [probeScript]
      /\ scripts w (snd (deleteEmail account subject sender e w)) = [probeScript]
      /\ scripts w (snd (markAsRead account subject sender e w)) = [probeScript]
      /\ scripts w (snd (checkIfReplied account subject sender e w)) = [probeScript]
      /\ scripts w (snd (sendMail to subject body cc bcc e w)) = [probeScript]).
Proof.
  intros Hp. split; [|split].
  - split; [denied Hp getUnreadMails|].
    split; [denied Hp searchMails|].
    split; [denied Hp getMailboxes|].
    split; [denied Hp getAccounts|].
    split; [denied Hp getMailboxesForAccount|].
    denied Hp getLatestMails.
  - split; [denied Hp archiveEmail|].
    split; [denied Hp deleteEmail|].
    split; [denied Hp markAsRead|].
    split; [denied Hp checkIfReplied|].
    denied Hp sendMail.
  - split; [denied Hp getUnreadMails|].
    split; [denied Hp searchMails|].
    split; [denied Hp getMailboxes|].
    split; [denied Hp getAccounts|].
    split; [denied Hp getMailboxesForAccount|].
    split; [denied Hp getLatestMails|].
    split; [denied Hp archiveEmail|].
    split; [denied Hp deleteEmail|].
    split; [denied Hp markAsRead|].
    split; [denied Hp checkIfReplied|].
    denied Hp sendMail.
Qed.

Lemma access_denied_stops_every_operation_witness :
  fst (archiveEmail "Work" "Invoice" "ann@example.com"
         (steady_env (Raises "Not authorised")) empty_world) =
    Normal (mkOperationResult false ("Error archiving email: " +:+ access_instructions))
  /\ scripts empty_world
       (snd (sendMail "ann@example.com" "Hi" "Hello" None None
               (steady_env (Raises "Not authorised")) empty_world)) = [probeScript].
Proof.
  destruct (access_denied_stops_every_operation
              (steady_env (Raises "Not authorised")) empty_world "Not authorised"
              None "" "" "Work" "Invoice" "ann@example.com" "ann@example.com" "Hello"
              None None eq_refl)
    as (_ & (Ha & _) & _).
  destruct (access_denied_stops_every_operation
              (steady_env (Raises "Not authorised")) empty_world "Not authorised"
              None "" "" "" "Hi" "" "ann@example.com" "Hello"
              None None eq_refl)
    as (_ & _ & (_ & _ & _ & _ & _ & _ & _ & _ & _ & _ & Hs)).
  split; [exact Ha|exact Hs].
Defined.

(** ** Reported outcomes *)

Lemma startsWith_split (p s : string) :
  startsWith p s = true -> s = p +:+ substring_from (String.length p) s.
Proof.
  unfold startsWith. revert s. induction p as [|a p IH]; intros s.
  - intros _. reflexivity.
  - destruct s as [|b s]; cbn [String.prefix]; [discriminate|].
    destruct (ascii_dec a b) as [->|]; [|discriminate].
    intros H. rewrite append_cons. cbn [String.length substring_from].
    f_equal. exact (IH s H).
Qed.

Lemma operation_result_success (r : value) :
  success (operation_result r) = true ->
  r = VString ("SUCCESS:" +:+ op_message (operation_result r)).
Proof.
  destruct r as [| |b|n|s|xs]; cbn [operation_result success]; try discriminate.
  destruct (startsWith "SUCCESS:" s) eqn:Hs.
  - intros _. cbn [op_message]. f_equal. exact (startsWith_split "SUCCESS:" s Hs).
  - destruct (startsWith "ERROR:" s); cbn [success]; discriminate.
Qed.

Ltac marked_success :=
  unfold success_means_marked, archiveEmail, deleteEmail, markAsRead;
  run_gate;
  let v := fresh "v" in
  let Hp := fresh "Hp" in
  let r := fresh "r" in
  let Hr := fresh "Hr" in
  let Hs := fresh "Hs" in
  match goal with
  | |- context [bridge ?e ?w probeScript] =>
      destruct (bridge e w probeScript) as [v|?] eqn:Hp
  end;
  [ run_steps;
    match goal with
    | |- context [bridge ?e ?w' ?s] =>
        destruct (bridge e w' s) as [r|?] eqn:Hr
    end;
    simpl;
    [ eexists; split; [reflexivity|];
      intros Hs; exists v; split; [reflexivity|];
      unfold log_call; rewrite Hr; f_equal;
      exact (operation_result_success r Hs)
    | eexists; split; [reflexivity|]; simpl; discriminate ]
  | run_steps; eexists; split; [reflexivity|]; simpl; discriminate ].

(** X5. archiveEmail, deleteEmail and markAsRead never throw, and report
    success only when access was granted and the reply to their own script
    was the text SUCCESS: followed by the message they report; any other
    reply, a failed probe and a failed invocation are reported as failure. *)
Theorem mutations_succeed_only_on_success_mark
    (account subject sender : string) (e : Env) (w : World) :
  success_means_marked (archiveEmail account subject sender)
    (archiveScript (escapeQuotes account) (escapeBackslashes (escapeQuotes subject))
                   (escapeQuotes sender)) e w
  /\ success_means_marked (deleteEmail account subject sender)
    (deleteScript (escapeQuotes account) (escapeBackslashes (escapeQuotes subject))
                  (escapeQuotes sender)) e w
  /\ success_means_marked (markAsRead account subject sender)
    (markAsReadScript (escapeQuotes account) (escapeBackslashes (escapeQuotes subject))
                      (escapeQuotes sender)) e w.
Proof.
  split; [marked_success|split; marked_success].
Qed.

Lemma mutations_succeed_only_on_success_mark_witness :
  exists v,
    bridge (steady_env (Returns (VString "SUCCESS:Message archived"))) empty_world
      probeScript = Returns v
    /\ bridge (steady_env (Returns (VString "SUCCESS:Message archived")))
         (log_call probeScript (Returns v) empty_world)
         (archiveScript (escapeQuotes "Work") (escapeBackslashes (escapeQuotes "Invoice"))
                        (escapeQuotes "ann@example.com"))
       = Returns (VString ("SUCCESS:" +:+ "Message archived")).
Proof.
  destruct (mutations_succeed_only_on_success_mark "Work" "Invoice" "ann@example.com"
              (steady_env (Returns (VString "SUCCESS:Message archived"))) empty_world)
    as [(r & Hr & Hs) _].
  assert (Hval : r = mkOperationResult true "Message archived").
  { assert (H : fst (archiveEmail "Work" "Invoice" "ann@example.com"
                       (steady_env (Returns (VString "SUCCESS:Message archived")))
                       empty_world)
                = Normal (mkOperationResult true "Message archived"))
      by (vm_compute; reflexivity).
    rewrite H in Hr. injection Hr as <-. reflexivity. }
  subst r. exact (Hs eq_refl).
Defined.

Lemma error_is_not_success (p : string) :
  startsWith "SUCCESS:" ("ERROR:" +:+ p) = false.
Proof. vm_compute. reflexivity. Qed.

Lemma operation_result_marks (p : string) :
  operation_result (VString ("SUCCESS:" +:+ p)) = mkOperationResult true p
  /\ operation_result (VString ("ERROR:" +:+ p)) = mkOperationResult false p.
Proof.
  unfold operation_result. split.
  - unfold startsWith at 1. rewrite string_prefix_app.
    change 8%nat with (String.length "SUCCESS:"). rewrite substring_from_app.
    reflexivity.
  - rewrite error_is_not_success. unfold startsWith. rewrite string_prefix_app.
    change 6%nat with (String.length "ERROR:"). rewrite substring_from_app.
    reflexivity.
Qed.

Ltac decode_reply Hp Hr op :=
  unfold op; run_gate; rewrite Hp; run_steps;
  unfold log_call in Hr; rewrite Hr; cbv beta iota zeta delta [fst];
  rewrite ?(proj1 (operation_result_marks _)), ?(proj2 (operation_result_marks _));
  reflexivity.

(** X6. Once access is granted, archiveEmail, deleteEmail and markAsRead
    decode the reply to their script by its mark: SUCCESS: followed by a text
    gives success with that text, ERROR: followed by a text gives failure
    with that text, and an invocation that raises an error gives failure with
    the operation's own prefix before the error text. *)
Theorem mutations_decode_marked_replies
    (account subject sender p : string) (e : Env) (w : World) (v : value) :
  bridge e w probeScript = Returns v ->
  (bridge e (log_call probeScript (Returns v) w)
       (archiveScript (escapeQuotes account) (escapeBackslashes (escapeQuotes subject))
          (escapeQuotes sender)) = Returns (VString ("SUCCESS:" +:+ p)) ->
     fst (archiveEmail account subject sender e w) = Normal (mkOperationResult true p))
  /\ (bridge e (log_call probeScript (Returns v) w)
       (archiveScript (escapeQuotes account) (escapeBackslashes (escapeQuotes subject))
          (escapeQuotes sender)) = Returns (VString ("ERROR:" +:+ p)) ->
     fst (archiveEmail account subject sender e w) = Normal (mkOperationResult false p))
  /\ (bridge e (log_call probeScript (Returns v) w)
       (archiveScript (escapeQuotes account) (escapeBackslashes (escapeQuotes subject))
          (escapeQuotes sender)) = Raises p ->
     fst (archiveEmail account subject sender e w) =
     Normal (mkOperationResult false ("Error archiving email: " +:+ p)))
  /\ (bridge e (log_call probeScript (Returns v) w)
       (deleteScript (escapeQuotes account) (escapeBackslashes (escapeQuotes subject))
          (escapeQuotes sender)) = Returns (VString ("SUCCESS:" +:+ p)) ->
     fst (deleteEmail account subject sender e w) = Normal (mkOperationResult true p))
  /\ (bridge e (log_call probeScript (Returns v) w)
       (deleteScript (escapeQuotes account) (escapeBackslashes (escapeQuotes subject))
          (escapeQuotes sender)) = Returns (VString ("ERROR:" +:+ p)) ->
     fst (deleteEmail account subject sender e w) = Normal (mkOperationResult false p))
  /\ (bridge e (log_call probeScript (Returns v) w)
       (deleteScript (escapeQuotes account) (escapeBackslashes (escapeQuotes subject))
          (escapeQuotes sender)) = Raises p ->
     fst (deleteEmail account subject sender e w) =
     Normal (mkOperationResult false ("Error deleting email: " +:+ p)))
  /\ (bridge e (log_call probeScript (Returns v) w)
       (markAsReadScript (escapeQuotes account) (escapeBackslashes (escapeQuotes subject))
          (escapeQuotes sender)) = Returns (VString ("SUCCESS:" +:+ p)) ->
     fst (markAsRead account subject sender e w) = Normal (mkOperationResult true p))
  /\ (bridge e (log_call probeScript (Returns v) w)
       (markAsReadScript (escapeQuotes account) (escapeBackslashes (escapeQuotes subject))
          (escapeQuotes sender)) = Returns (VString ("ERROR:" +:+ p)) ->
     fst (markAsRead account subject sender e w) = Normal (mkOperationResult false p))
  /\ (bridge e (log_call probeScript (Returns v) w)
       (markAsReadScript (escapeQuotes account) (escapeBackslashes (escapeQuotes subject))
          (escapeQuotes sender)) = Raises p ->
     fst (markAsRead account subject sender e w) =
     Normal (mkOperationResult false ("Error marking email as read: " +:+ p))).
Proof.
  intros Hp.
  split; [intros Hr; decode_reply Hp Hr archiveEmail|].
  split; [intros Hr; decode_reply Hp Hr archiveEmail|].
  split; [intros Hr; decode_reply Hp Hr archiveEmail|].
  split; [intros Hr; decode_reply Hp Hr deleteEmail|].
  split; [intros Hr; decode_reply Hp Hr deleteEmail|].
  split; [intros Hr; decode_reply Hp Hr deleteEmail|].
  split; [intros Hr; decode_reply Hp Hr markAsRead|].
  split; [intros Hr; decode_reply Hp Hr markAsRead|].
  intros Hr; decode_reply Hp Hr markAsRead.
Qed.

Lemma mutations_decode_marked_replies_witness :
  fst (deleteEmail "Work" "Invoice" "ann@example.com"
         (steady_env (Returns (VString ("ERROR:" +:+ "Message not found")))) empty_world)
  = Normal (mkOperationResult false "Message not found").
Proof.
  destruct (mutations_decode_marked_replies "Work" "Invoice" "ann@example.com"
              "Message not found"
              (steady_env (Returns (VString ("ERROR:" +:+ "Message not found"))))
              empty_world (VString ("ERROR:" +:+ "Message not found")) eq_refl)
    as (_ & _ & _ & _ & He & _).
  exact (He eq_refl).
Defined.

Lemma reply_result_replied (r : value) :
  (replied (reply_result r) = true ->
   exists d, r = VString ("REPLIED:" +:+ d)
             /\ replySentAt (reply_result r) = Some d
             /\ reply_message (reply_result r) = "Reply found")
  /\ (replied (reply_result r) = false -> replySentAt (reply_result r) = None).
Proof.
  destruct r as [| |b|n|s|xs]; cbn [reply_result replied replySentAt];
    try (split; [discriminate|reflexivity]).
  destruct (startsWith "REPLIED:" s) eqn:Hs.
  - cbn [replied replySentAt reply_message]. split; [|discriminate].
    intros _. exists (substring_from 8 s).
    split; [f_equal; exact (startsWith_split "REPLIED:" s Hs)|]. split; reflexivity.
  - destruct (String.eqb s "NOREPLYFOUND"); [|destruct (startsWith "ERROR:" s)];
      cbn [replied replySentAt]; (split; [discriminate|reflexivity]).
Qed.

Lemma reply_result_of_replied (d : string) :
  reply_result (VString ("REPLIED:" +:+ d)) = mkReplyResult true (Some d) "Reply found".
Proof.
  unfold reply_result, startsWith. rewrite string_prefix_app.
  change 8%nat with (String.length "REPLIED:"). rewrite substring_from_app.
  reflexivity.
Qed.

(** X7. checkIfReplied never throws.  It reports a reply only when access
    was granted and the reply to its script was the text REPLIED: followed by
    a date, which it returns as the time the reply was sent; whenever it
    reports no reply it returns no such time.  A reply REPLIED: followed by
    a date is always decoded to that date. *)
Theorem checkIfReplied_reports_only_marked_replies
    (account originalSubject originalSender : string) (e : Env) (w : World) :
  (exists r,
      fst (checkIfReplied account originalSubject originalSender e w) = Normal r
      /\ (replied r = true ->
          exists v d,
            bridge e w probeScript = Returns v
            /\ bridge e (log_call probeScript (Returns v) w)
                 (checkIfRepliedScript (escapeQuotes account)
                    (subjectPattern originalSubject) (recipientPattern originalSender))
               = Returns (VString ("REPLIED:" +:+ d))
            /\ replySentAt r = Some d
            /\ reply_message r = "Reply found")
      /\ (replied r = false -> replySentAt r = None))
  /\ (forall d,
        reply_result (VString ("REPLIED:" +:+ d))
        = mkReplyResult true (Some d) "Reply found").
Proof.
  split; [|exact reply_result_of_replied].
  unfold checkIfReplied. run_gate.
  destruct (bridge e w probeScript) as [v|msg] eqn:Hp.
  - run_steps.
    destruct (bridge e _ (checkIfRepliedScript _ _ _)) as [r|msg] eqn:Hr; simpl.
    + eexists. split; [reflexivity|].
      destruct (reply_result_replied r) as [Hyes Hno].
      split; [|exact Hno].
      intros H. destruct (Hyes H) as (d & -> & Hd & Hm).
      exists v, d. unfold log_call. rewrite Hr. auto.
    + eexists. split; [reflexivity|]. simpl. split; [discriminate|reflexivity].
  - run_steps. eexists. split; [reflexivity|]. simpl.
    split; [discriminate|reflexivity].
Qed.

Lemma checkIfReplied_reports_only_marked_replies_witness :
  fst (checkIfReplied "Work" "Re: Plan" "Ann <ann@example.com>"
         (steady_env (Returns (VString ("REPLIED:" +:+ "Monday")))) empty_world)
  = Normal (mkReplyResult true (Some "Monday") "Reply found").
Proof.
  destruct (checkIfReplied_reports_only_marked_replies
              "Work" "Re: Plan" "Ann <ann@example.com>"
              (steady_env (Returns (VString ("REPLIED:" +:+ "Monday")))) empty_world)
    as [_ H].
  assert (Hrun : fst (checkIfReplied "Work" "Re: Plan" "Ann <ann@example.com>"
                        (steady_env (Returns (VString ("REPLIED:" +:+ "Monday"))))
                        empty_world)
                 = Normal (reply_result (VString ("REPLIED:" +:+ "Monday"))))
    by (vm_compute; reflexivity).
  rewrite Hrun, (H "Monday"). reflexivity.
Defined.

(** ** More on sending *)

(** X8. On accepted arguments, with access granted and the body file
    written, sendMail hands the interpreter its script once; when the reply
    is exactly the text SUCCESS it returns a confirmation that quotes the
    recipient and the subject as they were given, and on every other returned
    reply it throws that it failed to send. *)
Theorem sendMail_confirms_only_on_success
    (e : Env) (w : World) (v : value) (to subject body : string) (cc bcc : option string) :
  bridge e w probeScript = Returns v ->
  whitespace_only to = false ->
  whitespace_only subject = false ->
  whitespace_only body = false ->
  write_error e (tmp_path (date_now e)) = None ->
  scripts w (snd (sendMail to subject body cc bcc e w))
    = [probeScript; send_script_of e subject to cc bcc]
  /\ (bridge e (world_at_send e w (Returns v) body) (send_script_of e subject to cc bcc)
      = Returns (VString "SUCCESS") ->
      fst (sendMail to subject body cc bcc e w) =
      Normal ("Email sent to " +:+ to +:+ " with subject " +:+ chr dquote
              +:+ subject +:+ chr dquote))
  /\ (forall x,
      bridge e (world_at_send e w (Returns v) body) (send_script_of e subject to cc bcc)
      = Returns x ->
      strict_eq x "SUCCESS" = false ->
      fst (sendMail to subject body cc bcc e w) =
      Throw "Error sending email: Failed to send email").
Proof.
  intros Hp Hto Hsub Hbody Hw.
  destruct (sendMail_valid_run e w v to subject body cc bcc Hp Hto Hsub Hbody Hw)
    as [Hc H].
  split; [unfold scripts; rewrite Hc; reflexivity|].
  split.
  - intros Hr. rewrite Hr in H. destruct H as [-> _]. reflexivity.
  - intros x Hr Hx. rewrite Hr, Hx in H. destruct H as [-> _]. reflexivity.
Qed.

Lemma sendMail_confirms_only_on_success_witness :
  fst (sendMail "ann@example.com" "Hi" "Hello" None None
         (steady_env (Returns (VString "SUCCESS"))) empty_world) =
  Normal ("Email sent to " +:+ "ann@example.com" +:+ " with subject " +:+ chr dquote
          +:+ "Hi" +:+ chr dquote).
Proof.
  destruct (sendMail_confirms_only_on_success
              (steady_env (Returns (VString "SUCCESS"))) empty_world (VString "SUCCESS")
              "ann@example.com" "Hi" "Hello" None None
              eq_refl eq_refl eq_refl eq_refl eq_refl)
    as (_ & H & _).
  exact (H eq_refl).
Defined.

(** X9. With access granted, sendMail checks its arguments in the order
    recipient, subject, body and throws at the first that is empty or white
    space only, naming it: a blank recipient is reported whatever the subject
    and body are, a blank subject only when the recipient is not blank, a
    blank body only when both are not. *)
Theorem sendMail_validates_in_order
    (e : Env) (w : World) (v : value) (to subject body : string) (cc bcc : option string) :
  bridge e w probeScript = Returns v ->
  (whitespace_only to = true ->
   fst (sendMail to subject body cc bcc e w) =
   Throw ("Error sending email: " +:+ "To address is required"))
  /\ (whitespace_only to = false -> whitespace_only subject = true ->
      fst (sendMail to subject body cc bcc e w) =
      Throw ("Error sending email: " +:+ "Subject is required"))
  /\ (whitespace_only to = false -> whitespace_only subject = false ->
      whitespace_only body = true ->
      fst (sendMail to subject body cc bcc e w) =
      Throw ("Error sending email: " +:+ "Email body is required")).
Proof.
  intros Hp. split; [|split].
  - intros Hto. unfold sendMail. run_gate. rewrite Hp, !blank_guard, Hto. reflexivity.
  - intros Hto Hsub. unfold sendMail. run_gate.
    rewrite Hp, !blank_guard, Hto, Hsub. reflexivity.
  - intros Hto Hsub Hbody. unfold sendMail. run_gate.
    rewrite Hp, !blank_guard, Hto, Hsub, Hbody. reflexivity.
Qed.

Lemma sendMail_validates_in_order_witness :
  fst (sendMail " " "" "" None None (steady_env (Returns (VString "Mail"))) empty_world)
  = Throw ("Error sending email: " +:+ "To address is required")
  /\ fst (sendMail "ann@example.com" "Hi" "  " None None
            (steady_env (Returns (VString "Mail"))) empty_world)
     = Throw ("Error sending email: " +:+ "Email body is required").
Proof.
  destruct (sendMail_validates_in_order
              (steady_env (Returns (VString "Mail"))) empty_world (VString "Mail")
              " " "" "" None None eq_refl) as (Hto & _).
  destruct (sendMail_validates_in_order
              (steady_env (Returns (VString "Mail"))) empty_world (VString "Mail")
              "ann@example.com" "Hi" "  " None None eq_refl) as (_ & _ & Hbody).
  split; [exact (Hto eq_refl)|exact (Hbody eq_refl eq_refl eq_refl)].
Defined.

(** X10. When the write of the body file fails, sendMail throws the error
    of the write under its prefix and never invokes its script.  It removes
    nothing: every other path keeps its content, and the path of the body
    file keeps what the failed write left there, its old state when the file
    could not be opened and the part that was written otherwise. *)
Theorem sendMail_stops_when_write_fails
    (e : Env) (w : World) (v : value) (to subject body msg : string)
    (cc bcc : option string) :
  bridge e w probeScript = Returns v ->
  whitespace_only to = false ->
  whitespace_only subject = false ->
  whitespace_only body = false ->
  write_error e (tmp_path (date_now e)) = Some msg ->
  fst (sendMail to subject body cc bcc e w) = Throw ("Error sending email: " +:+ msg)
  /\ scripts w (snd (sendMail to subject body cc bcc e w)) = [probeScript]
  /\ (forall p, p <> tmp_path (date_now e) ->
        files (snd (sendMail to subject body cc bcc e w)) !! p = files w !! p)
  /\ files (snd (sendMail to subject body cc bcc e w)) !! tmp_path (date_now e)
     = match write_partial e (tmp_path (date_now e)) (trim body) with
       | None => files w !! tmp_path (date_now e)
       | Some part => Some part
       end.
Proof.
  intros Hp Hto Hsub Hbody Hw.
  unfold sendMail. run_gate. rewrite Hp, !blank_guard, Hto, Hsub, Hbody.
  run_steps. rewrite Hw.
  destruct (write_partial e _ _) as [part|]; simpl.
  - split; [reflexivity|]. split; [settle_calls; reflexivity|].
    split; [|apply lookup_insert_eq].
    intros p Hne. apply lookup_insert_ne. congruence.
  - split; [reflexivity|]. split; [settle_calls; reflexivity|].
    split; reflexivity.
Qed.

Lemma sendMail_stops_when_write_fails_witness :
  (fst (sendMail "ann@example.com" "Hi" "Hello" None None
          (read_only_env (Returns (VString "SUCCESS"))) empty_world)
   = Throw ("Error sending email: " +:+ "EACCES: permission denied")
   /\ files (snd (sendMail "ann@example.com" "Hi" "Hello" None None
                    (read_only_env (Returns (VString "SUCCESS"))) empty_world))
        !! tmp_path (date_now (read_only_env (Returns (VString "SUCCESS"))))
      = None)
  /\ (fst (sendMail "ann@example.com" "Hi" "Hello" None None
             (full_disk_env (Returns (VString "SUCCESS"))) empty_world)
      = Throw ("Error sending email: " +:+ "ENOSPC: no space left on device")
      /\ files (snd (sendMail "ann@example.com" "Hi" "Hello" None None
                       (full_disk_env (Returns (VString "SUCCESS"))) empty_world))
           !! tmp_path (date_now (full_disk_env (Returns (VString "SUCCESS"))))
         = Some "He").
Proof.
  destruct (sendMail_stops_when_write_fails
              (read_only_env (Returns (VString "SUCCESS"))) empty_world (VString "SUCCESS")
              "ann@example.com" "Hi" "Hello" "EACCES: permission denied" None None
              eq_refl eq_refl eq_refl eq_refl eq_refl) as (Hr & _ & _ & Hf).
  destruct (sendMail_stops_when_write_fails
              (full_disk_env (Returns (VString "SUCCESS"))) empty_world (VString "SUCCESS")
              "ann@example.com" "Hi" "Hello" "ENOSPC: no space left on device" None None
              eq_refl eq_refl eq_refl eq_refl eq_refl) as (Hr' & _ & _ & Hf').
  split; split; [exact Hr|exact Hf|exact Hr'|exact Hf'].
Defined.

(** X11. A removal that fails is swallowed: what sendMail returns or throws,
    and what it hands to the interpreter, are the same as on a file system
    that never refuses a removal; when the removal fails after the script's
    invocation returned, the body file stays. *)
Theorem sendMail_ignores_failed_removal
    (e : Env) (w : World) (to subject body : string) (cc bcc : option string) :
  fst (sendMail to subject body cc bcc e w)
    = fst (sendMail to subject body cc bcc (with_working_unlink e) w)
  /\ scripts w (snd (sendMail to subject body cc bcc e w))
     = scripts w (snd (sendMail to subject body cc bcc (with_working_unlink e) w))
  /\ (forall v x msg,
        bridge e w probeScript = Returns v ->
        whitespace_only to = false ->
        whitespace_only subject = false ->
        whitespace_only body = false ->
        write_error e (tmp_path (date_now e)) = None ->
        bridge e (world_at_send e w (Returns v) body) (send_script_of e subject to cc bcc)
          = Returns x ->
        unlink_error e (tmp_path (date_now e)) = Some msg ->
        files (snd (sendMail to subject body cc bcc e w)) !! tmp_path (date_now e)
        = Some (trim body)).
Proof.
  split; [|split].
  - unfold sendMail, with_working_unlink. unfold try_catch, bind.
    rewrite !require_access_run. cbn [bridge date_now write_error write_partial unlink_error].
    destruct (bridge e w probeScript) as [v|msg]; [|reflexivity].
    rewrite !blank_guard.
    destruct (whitespace_only to); [reflexivity|].
    destruct (whitespace_only subject); [reflexivity|].
    destruct (whitespace_only body); [reflexivity|].
    run_steps.
    destruct (write_error e _); simpl;
      [destruct (write_partial e _ _); reflexivity|].
    destruct (bridge e _ (sendScript _ _ _ _ _)) as [x|msg]; simpl; [|reflexivity].
    rewrite lookup_insert_eq.
    destruct (unlink_error e _); simpl; destruct (strict_eq x "SUCCESS"); reflexivity.
  - unfold sendMail, with_working_unlink. unfold try_catch, bind.
    rewrite !require_access_run. cbn [bridge date_now write_error write_partial unlink_error].
    destruct (bridge e w probeScript) as [v|msg]; [|reflexivity].
    rewrite !blank_guard.
    destruct (whitespace_only to); [reflexivity|].
    destruct (whitespace_only subject); [reflexivity|].
    destruct (whitespace_only body); [reflexivity|].
    run_steps.
    destruct (write_error e _); simpl;
      [destruct (write_partial e _ _); reflexivity|].
    destruct (bridge e _ (sendScript _ _ _ _ _)) as [x|msg]; simpl; [|reflexivity].
    rewrite lookup_insert_eq.
    destruct (unlink_error e _); simpl; destruct (strict_eq x "SUCCESS"); reflexivity.
  - intros v x msg Hp Hto Hsub Hbody Hw Hr Hu.
    destruct (sendMail_valid_run e w v to subject body cc bcc Hp Hto Hsub Hbody Hw)
      as [_ H].
    rewrite Hr, Hu in H. destruct H as [_ ->]. apply lookup_insert_eq.
Qed.

Lemma sendMail_ignores_failed_removal_witness :
  files (snd (sendMail "ann@example.com" "Hi" "Hello" None None
                (sticky_env (Returns (VString "SUCCESS"))) empty_world))
    !! tmp_path (date_now (sticky_env (Returns (VString "SUCCESS"))))
  = Some (trim "Hello").
Proof.
  destruct (sendMail_ignores_failed_removal
              (sticky_env (Returns (VString "SUCCESS"))) empty_world
              "ann@example.com" "Hi" "Hello" None None) as (_ & _ & H).
  exact (H (VString "SUCCESS") (VString "SUCCESS") "EPERM: operation not permitted"
           eq_refl eq_refl eq_refl eq_refl eq_refl eq_refl eq_refl).
Defined.

(** ** More on the latest messages *)

Lemma field_or_truthy (fields : list string) (i : nat) (placeholder : string) :
  truthy placeholder = true -> truthy (field_or fields i placeholder) = true.
Proof.
  intros H. unfold field_or, str_or.
  destruct (fields !! i) as [f|]; [|exact H].
  destruct (truthy f) eqn:Hf; [exact Hf|exact H].
Qed.

Lemma email_of_fields_well_labelled (account now : string) (fields : list string) :
  well_labelled account (email_of_fields account now fields).
Proof.
  unfold well_labelled, email_of_fields.
  cbn [mailbox subject sender content].
  repeat split; apply field_or_truthy; reflexivity.
Qed.

Lemma parseLatest_well_labelled (account now asResult : string) :
  Forall (well_labelled account) (parseLatest account now asResult).
Proof.
  rewrite parseLatest_spec.
  induction (List.filter accepted (records_of asResult)) as [|r rs IH];
    cbn [List.map]; constructor; [apply email_of_fields_well_labelled|exact IH].
Qed.

(** X12. Whatever the interpreter does, getLatestMails returns a list, and
    every message of it carries the label made of the account name and
    INBOX and has a subject, a sender and a content that are not empty. *)
Theorem getLatestMails_messages_are_well_labelled
    (account : string) (limit : option number) (e : Env) (w : World) :
  exists l,
    fst (getLatestMails account limit e w) = Normal l
    /\ Forall (well_labelled account) l.
Proof.
  destruct (bridge e w probeScript) as [v|msg] eqn:Hp.
  - destruct (getLatestMails_run account limit e w v Hp) as [_ H].
    cbv zeta in H. rewrite H. eexists. split; [reflexivity|].
    destruct (bridge e _ (latestScript _ _)) as [[| |b|n|s|xs]|m]; try constructor.
    destruct (startsWith "ERROR:" s); [constructor|apply parseLatest_well_labelled].
  - exists []. split; [|constructor].
    unfold getLatestMails. run_gate. rewrite Hp. reflexivity.
Qed.

Lemma startsWith_join_head (p x sep rest : string) (fields : list string) :
  startsWith p (join sep ((p +:+ x) :: fields) +:+ rest) = true.
Proof.
  unfold startsWith. destruct fields as [|g fs].
  - cbn [join]. rewrite append_assoc. apply string_prefix_app.
  - rewrite join_cons, !append_assoc. apply string_prefix_app.
Qed.

(** X13. A reply is taken for an error report as soon as its text starts
    with the error mark: when the subject of the first message starts with
    it, getLatestMails returns the empty list, although the parser decodes
    the same reply to a list that starts with that message. *)
Theorem error_subject_hides_every_message
    (account : string) (limit : option number) (e : Env) (w : World) (v : value)
    (subj : string) (fields : list string) (records : list (list string)) :
  bridge e w probeScript = Returns v ->
  bridge e (log_call probeScript (Returns v) w)
         (latestScript (escapeQuotes account) (Math_min (default (of_Z 5) limit) MAX_EMAILS))
    = Returns (VString (encode_reply ((("ERROR:" +:+ subj) :: fields) :: records))) ->
  accepted (("ERROR:" +:+ subj) :: fields) = true ->
  plain_records ((("ERROR:" +:+ subj) :: fields) :: records) = true ->
  fst (getLatestMails account limit e w) = Normal []
  /\ exists m ms,
       parseLatest account (date_string e)
         (encode_reply ((("ERROR:" +:+ subj) :: fields) :: records)) = m :: ms
       /\ subject m = "ERROR:" +:+ subj.
Proof.
  intros Hp Hr Ha Hplain. split.
  - destruct (getLatestMails_run account limit e w v Hp) as [_ H].
    cbv zeta in H. rewrite H, Hr, encode_reply_cons, startsWith_join_head. reflexivity.
  - rewrite (parseLatest_roundtrip _ _ _ Hplain).
    cbn [List.filter]. rewrite Ha. cbn [List.map].
    eexists. eexists. split; [reflexivity|]. reflexivity.
Qed.

Lemma error_subject_hides_every_message_witness :
  fst (getLatestMails "Work" None
         (scripted_env (Returns (VString "Mail"))
            (Returns (VString (encode_reply
               [["ERROR:" +:+ " disk full"; "ops@example.com"; "Monday"; "true"; "See log"]]))))
         empty_world) = Normal [].
Proof.
  exact (proj1 (error_subject_hides_every_message "Work" None
           (scripted_env (Returns (VString "Mail"))
              (Returns (VString (encode_reply
                 [["ERROR:" +:+ " disk full"; "ops@example.com"; "Monday"; "true"; "See log"]]))))
           empty_world (VString "Mail") " disk full"
           ["ops@example.com"; "Monday"; "true"; "See log"] []
           eq_refl eq_refl eq_refl eq_refl)).
Defined.

Lemma email_of_fields_app (account now : string) (fields extra : list string) :
  (5 <= length fields)%nat ->
  email_of_fields account now (fields ++ extra) = email_of_fields account now fields.
Proof.
  intros H. unfold email_of_fields, field_or, field_is_true.
  rewrite !lookup_app_l by lia. reflexivity.
Qed.

Lemma forallb_app_l {A : Type} (f : A -> bool) (l1 l2 : list A) :
  forallb f (l1 ++ l2) = true -> forallb f l1 = true.
Proof. rewrite forallb_app. intros H. apply andb_prop in H as [H _]. exact H. Qed.

(** X14. Only the first five fields of a record are read: a reply whose
    records carry further fields, as a content holding the field delimiter
    gives, decodes to the same messages as the reply with those fields cut
    off. *)
Theorem fields_after_the_fifth_are_ignored
    (account now : string) (rs : list (list string * list string)) :
  plain_records (List.map (fun p => fst p ++ snd p) rs) = true ->
  Forall (fun p => (5 <= length (fst p))%nat) rs ->
  parseLatest account now (encode_reply (List.map (fun p => fst p ++ snd p) rs))
  = parseLatest account now (encode_reply (List.map fst rs)).
Proof.
  intros Hplain Hlen.
  assert (Hplain' : plain_records (List.map fst rs) = true).
  { unfold plain_records in *. clear Hlen.
    induction rs as [|p rs IH]; [reflexivity|].
    cbn [List.map forallb] in *. apply andb_prop in Hplain as [Hp Hrs].
    rewrite (forallb_app_l _ _ _ Hp), (IH Hrs). reflexivity. }
  rewrite (parseLatest_roundtrip _ _ _ Hplain), (parseLatest_roundtrip _ _ _ Hplain').
  clear Hplain Hplain'.
  induction Hlen as [|p rs Hp _ IH]; [reflexivity|].
  assert (Hall : accepted (fst p ++ snd p) = true).
  { unfold accepted. rewrite length_app. apply Nat.leb_le. lia. }
  assert (Hfst : accepted (fst p) = true).
  { unfold accepted. apply Nat.leb_le. lia. }
  cbn [List.map List.filter]. rewrite Hall, Hfst.
  cbn [List.map]. rewrite IH, (email_of_fields_app _ _ _ _ Hp). reflexivity.
Qed.

Lemma fields_after_the_fifth_are_ignored_witness :
  parseLatest "Work" today
    (encode_reply [["Hello"; "ann@example.com"; "Monday"; "true"; "first part"; "rest"]])
  = parseLatest "Work" today
      (encode_reply [["Hello"; "ann@example.com"; "Monday"; "true"; "first part"]]).
Proof.
  apply (fields_after_the_fifth_are_ignored "Work" today
           [(["Hello"; "ann@example.com"; "Monday"; "true"; "first part"], ["rest"])]).
  - reflexivity.
  - repeat constructor.
Defined.

(** ** More on the listings *)

Lemma filter_names_truthy (xs : list value) :
  Forall (fun n => truthy n = true) (filter_names xs).
Proof.
  unfold filter_names.
  induction xs as [|x xs IH]; [constructor|].
  cbn [omap list_omap]. destruct x as [| |b|n|s|ys]; cbn [text_entry]; try exact IH.
  destruct (truthy s) eqn:Hs; [constructor; assumption|exact IH].
Qed.

Lemma free_of_app (c : ascii) (a b : string) :
  free_of c (a +:+ b) = free_of c a && free_of c b.
Proof.
  induction a as [|d a IH]; [reflexivity|].
  rewrite append_cons, !free_of_cons, IH. apply andb_assoc.
Qed.

Lemma trim_free_of (c : ascii) (s : string) :
  free_of c s = true -> free_of c (trim s) = true.
Proof.
  destruct (trim_spec s) as ((lead & trail & _ & _ & Hs) & _).
  intros H. rewrite Hs, !free_of_app in H.
  apply andb_prop in H as [_ H]. apply andb_prop in H as [H _]. exact H.
Qed.

Lemma split_comma_free (s : string) :
  Forall (fun p => free_of ","%char p = true) (split "," s).
Proof.
  unfold split. induction s as [|c r IH]; cbn [split_go].
  - repeat constructor.
  - cbn [String.prefix]. destruct (ascii_dec ","%char c) as [<-|Hne].
    + replace (String.prefix "" r) with true by (destruct r; reflexivity).
      cbn [String.length Nat.sub]. constructor; [reflexivity|exact IH].
    + destruct (split_go "," 0 r) as [|p ps].
      * constructor; [|constructor]. unfold chr. rewrite free_of_cons.
        apply andb_true_intro. split; [|reflexivity].
        apply negb_true_iff, Ascii.eqb_neq. congruence.
      * inversion IH as [|? ? Hp Hps]; subst. constructor; [|exact Hps].
        rewrite free_of_cons, Hp.
        apply andb_true_intro. split; [|reflexivity].
        apply negb_true_iff, Ascii.eqb_neq. congruence.
Qed.

Lemma split_names_clean (s : string) : Forall clean_name (split_names s).
Proof.
  unfold split_names.
  pose proof (split_comma_free s) as H.
  induction H as [|p ps Hp _ IH]; cbn [List.map List.filter]; [constructor|].
  destruct (truthy (trim p)) eqn:Ht; [|exact IH].
  constructor; [|exact IH].
  destruct (trim_spec p) as (_ & Hstart & Hend).
  unfold clean_name. repeat split; [exact Ht|exact Hstart|exact Hend|].
  apply trim_free_of, Hp.
Qed.

Lemma names_of_reply_truthy (r : value) :
  Forall (fun n => truthy n = true) (names_of_reply r).
Proof.
  destruct r as [| |b|n|s|xs]; cbn [names_of_reply]; try constructor.
  - destruct (truthy (trim s)); [|constructor].
    eapply Forall_impl; [apply split_names_clean|].
    intros n (H & _). exact H.
  - apply filter_names_truthy.
Qed.

(** X15. Whatever the interpreter does, the three listing operations
    return a list, and no name in it is empty. *)
Theorem listed_names_are_never_empty (accountName : string) (e : Env) (w : World) :
  (exists l, fst (getMailboxes e w) = Normal l /\ Forall (fun n => truthy n = true) l)
  /\ (exists l, fst (getAccounts e w) = Normal l /\ Forall (fun n => truthy n = true) l)
  /\ (exists l, fst (getMailboxesForAccount accountName e w) = Normal l
                /\ Forall (fun n => truthy n = true) l).
Proof.
  split; [|split].
  - unfold getMailboxes. run_gate.
    destruct (bridge e w probeScript) as [v|msg];
      [|eexists; split; [reflexivity|constructor]].
    run_steps.
    destruct (bridge e _ mailboxesScript) as [r|m]; simpl;
      eexists; (split; [reflexivity|]); [apply names_of_reply_truthy|constructor].
  - unfold getAccounts. run_gate.
    destruct (bridge e w probeScript) as [v|msg];
      [|eexists; split; [reflexivity|constructor]].
    run_steps.
    destruct (bridge e _ accountsScript) as [r|m]; simpl;
      eexists; (split; [reflexivity|]); [apply names_of_reply_truthy|constructor].
  - unfold getMailboxesForAccount. run_gate.
    destruct (bridge e w probeScript) as [v|msg];
      [|eexists; split; [reflexivity|constructor]].
    rewrite blank_guard.
    destruct (whitespace_only accountName);
      [eexists; split; [reflexivity|constructor]|].
    run_steps.
    destruct (bridge e _ (mailboxesForAccountScript _)) as [r|m]; simpl;
      [|eexists; split; [reflexivity|constructor]].
    destruct r as [| |b|n|s|xs]; simpl;
      eexists; (split; [reflexivity|]); try constructor.
    apply filter_names_truthy.
Qed.

(** X16. The names getMailboxes and getAccounts read from a comma-joined
    text reply are not empty, have no white space at either end and hold no
    comma. *)
Theorem text_listings_give_clean_names (e : Env) (w : World) (v : value) (s : string) :
  bridge e w probeScript = Returns v ->
  (bridge e (log_call probeScript (Returns v) w) mailboxesScript = Returns (VString s) ->
   exists l, fst (getMailboxes e w) = Normal l /\ Forall clean_name l)
  /\ (bridge e (log_call probeScript (Returns v) w) accountsScript = Returns (VString s) ->
      exists l, fst (getAccounts e w) = Normal l /\ Forall clean_name l).
Proof.
  intros Hp.
  destruct (listings_accept_both_shapes e w v (VString s) Hp) as [Hm Ha].
  split; intros Hr.
  - exists (names_of_reply (VString s)). split; [exact (Hm Hr)|].
    cbn [names_of_reply].
    destruct (truthy (trim s)); [apply split_names_clean|constructor].
  - exists (names_of_reply (VString s)). split; [exact (Ha Hr)|].
    cbn [names_of_reply].
    destruct (truthy (trim s)); [apply split_names_clean|constructor].
Qed.

Lemma text_listings_give_clean_names_witness :
  exists l,
    fst (getMailboxes (steady_env (Returns (VString " INBOX, ,Sent ,Drafts"))) empty_world)
      = Normal l
    /\ Forall clean_name l.
Proof.
  destruct (text_listings_give_clean_names
              (steady_env (Returns (VString " INBOX, ,Sent ,Drafts"))) empty_world
              (VString " INBOX, ,Sent ,Drafts") " INBOX, ,Sent ,Drafts" eq_refl)
    as [H _].
  exact (H eq_refl).
Defined.

(** ** More on the escaping steps *)

Lemma escapeQuotes_cons (c : ascii) (r : string) :
  escapeQuotes (String c r) =
  if Ascii.eqb c dquote then String backslash (String dquote (escapeQuotes r))
  else String c (escapeQuotes r).
Proof. unfold escapeQuotes. cbn [replaceAll]. destruct (Ascii.eqb c dquote); reflexivity. Qed.

Lemma escapeBackslashes_cons (c : ascii) (r : string) :
  escapeBackslashes (String c r) =
  if Ascii.eqb c backslash then String backslash (String backslash (escapeBackslashes r))
  else String c (escapeBackslashes r).
Proof.
  unfold escapeBackslashes. cbn [replaceAll].
  destruct (Ascii.eqb c backslash); reflexivity.
Qed.

Lemma dquote_is_not_backslash (c : ascii) :
  Ascii.eqb c dquote = true -> Ascii.eqb c backslash = false.
Proof. intros H. apply Ascii.eqb_eq in H. subst c. reflexivity. Qed.

Lemma escapeQuotes_quotes_preceded (prev : bool) (s : string) :
  quotes_preceded prev (escapeQuotes s) = true.
Proof.
  revert prev. induction s as [|c r IH]; intros prev; [reflexivity|].
  rewrite escapeQuotes_cons. destruct (Ascii.eqb c dquote) eqn:Hc.
  - cbn [quotes_preceded]. rewrite Ascii.eqb_refl.
    change (Ascii.eqb backslash dquote) with false.
    change (Ascii.eqb dquote backslash) with false.
    apply IH.
  - cbn [quotes_preceded]. rewrite Hc. apply IH.
Qed.

Lemma escapeQuotes_length (s : string) :
  String.length (escapeQuotes s) = (String.length s + count_char dquote s)%nat.
Proof.
  induction s as [|c r IH]; [reflexivity|].
  rewrite escapeQuotes_cons. cbn [count_char String.length].
  destruct (Ascii.eqb c dquote); cbn [String.length]; rewrite IH; lia.
Qed.

Lemma escapeQuotes_id (s : string) : free_of dquote s = true -> escapeQuotes s = s.
Proof.
  induction s as [|c r IH]; [reflexivity|].
  rewrite free_of_cons, escapeQuotes_cons. intros H.
  apply andb_prop in H as [Hc Hr]. apply negb_true_iff in Hc.
  rewrite Hc, (IH Hr). reflexivity.
Qed.

Lemma escapeQuotes_odd_runs (s : string) :
  free_of backslash s = true -> quotes_after_run false true (escapeQuotes s) = true.
Proof.
  induction s as [|c r IH]; [reflexivity|].
  rewrite free_of_cons, escapeQuotes_cons. intros H.
  apply andb_prop in H as [Hc Hr]. apply negb_true_iff in Hc.
  destruct (Ascii.eqb c dquote) eqn:Hq.
  - cbn [quotes_after_run]. rewrite !Ascii.eqb_refl.
    change (Ascii.eqb dquote backslash) with false.
    cbn [negb Bool.eqb andb]. exact (IH Hr).
  - cbn [quotes_after_run]. rewrite Hc, Hq. exact (IH Hr).
Qed.

(** X17. The quote step leaves every double quote right after a backslash,
    lengthens the text by one character for each double quote, and returns a
    text without double quotes as it is; on a text without backslashes every
    double quote of the result follows a run of backslashes of odd length. *)
Theorem escapeQuotes_guards_every_quote (s : string) :
  quotes_preceded false (escapeQuotes s) = true
  /\ String.length (escapeQuotes s) = (String.length s + count_char dquote s)%nat
  /\ (free_of dquote s = true -> escapeQuotes s = s)
  /\ (free_of backslash s = true -> quotes_after_run false true (escapeQuotes s) = true).
Proof.
  split; [apply escapeQuotes_quotes_preceded|].
  split; [apply escapeQuotes_length|].
  split; [apply escapeQuotes_id|apply escapeQuotes_odd_runs].
Qed.

Lemma escapeQuotes_guards_every_quote_witness :
  escapeQuotes "plain subject" = "plain subject"
  /\ quotes_after_run false true (escapeQuotes (q "say ~hi~ twice")) = true.
Proof.
  destruct (escapeQuotes_guards_every_quote "plain subject") as (_ & _ & Hid & _).
  destruct (escapeQuotes_guards_every_quote (q "say ~hi~ twice")) as (_ & _ & _ & Hodd).
  split; [exact (Hid eq_refl)|exact (Hodd eq_refl)].
Defined.

Lemma escapeBackslashes_even_runs (s : string) :
  quotes_after_run true true (escapeBackslashes s) = true.
Proof.
  induction s as [|c r IH]; [reflexivity|].
  rewrite escapeBackslashes_cons. destruct (Ascii.eqb c backslash) eqn:Hc.
  - cbn [quotes_after_run]. rewrite Ascii.eqb_refl. cbn [negb]. exact IH.
  - cbn [quotes_after_run]. rewrite Hc, IH.
    destruct (Ascii.eqb c dquote); reflexivity.
Qed.

(** X18. In a subject literal, which gets the quote step and then the
    backslash step, every double quote of the subject comes out as two
    backslashes and the quote, and every double quote of the literal follows
    a run of backslashes of even length. *)
Theorem subject_literal_quotes_follow_even_runs (a b : string) :
  escapeBackslashes (escapeQuotes (a +:+ chr dquote +:+ b))
    = escapeBackslashes (escapeQuotes a)
      +:+ String backslash (String backslash (chr dquote))
      +:+ escapeBackslashes (escapeQuotes b)
  /\ quotes_after_run true true (escapeBackslashes (escapeQuotes (a +:+ chr dquote +:+ b)))
     = true.
Proof.
  split; [|apply escapeBackslashes_even_runs].
  unfold escapeQuotes, escapeBackslashes.
  rewrite !replaceAll_app, replaceAll_chr, Ascii.eqb_refl.
  reflexivity.
Qed.

(** ** The search term *)

Lemma lower_char_keeps_dquote (c : ascii) :
  Ascii.eqb (lower_char c) dquote = Ascii.eqb c dquote.
Proof. destruct c as [[] [] [] [] [] [] [] []]; vm_compute; reflexivity. Qed.

Lemma lower_char_keeps_backslash (c : ascii) :
  Ascii.eqb (lower_char c) backslash = Ascii.eqb c backslash.
Proof. destruct c as [[] [] [] [] [] [] [] []]; vm_compute; reflexivity. Qed.

Lemma toLowerCase_quotes_preceded (prev : bool) (s : string) :
  quotes_preceded prev (toLowerCase s) = quotes_preceded prev s.
Proof.
  revert prev. induction s as [|c r IH]; intros prev; [reflexivity|].
  cbn [toLowerCase quotes_preceded].
  rewrite lower_char_keeps_dquote, lower_char_keeps_backslash, IH. reflexivity.
Qed.

Lemma searchScript_term (term : string) (n : number) :
  exists pre post,
    searchScript term n =
    pre +:+ ("set searchTerm to " +:+ chr dquote) +:+ term +:+ chr dquote +:+ post.
Proof.
  with_strategy transparent [searchScript] unfold searchScript.
  match goal with
  | |- exists pre post, ?l1 +:+ ?hole +:+ ?l2 +:+ ?rest = _ =>
      let before := constr:("set searchTerm to " +:+ chr dquote) in
      let after := constr:(chr dquote) in
      let pre := text_before l1 before in
      let post := text_after l2 after in
      exists pre, (post +:+ rest);
      exact (regroup_first_after l1 pre before hole l2 after post rest
               ltac:(vm_compute; reflexivity) ltac:(vm_compute; reflexivity))
  end.
Qed.

(** X19. The search term reaches the script of searchMails in lower case
    between two double quotes and with no escaping step: a double quote of
    the term stands in the literal after a backslash only where it did in
    the term. *)
Theorem searchMails_term_is_not_escaped
    (searchTerm : string) (limit : option number) (e : Env) (w : World) (v : value) :
  bridge e w probeScript = Returns v ->
  whitespace_only searchTerm = false ->
  (exists pre post,
      scripts w (snd (searchMails searchTerm limit e w)) =
      [probeScript;
       pre +:+ ("set searchTerm to " +:+ chr dquote) +:+ toLowerCase searchTerm
           +:+ chr dquote +:+ post])
  /\ quotes_preceded false (toLowerCase searchTerm) = quotes_preceded false searchTerm.
Proof.
  intros Hp Hs. split; [|apply toLowerCase_quotes_preceded].
  destruct (searchScript_term (toLowerCase searchTerm) (Math_min (default (of_Z 10) limit) MAX_EMAILS))
    as (pre & post & H).
  exists pre, post. rewrite (searchMails_scripts searchTerm limit e w v Hp Hs), H.
  reflexivity.
Qed.

Lemma searchMails_term_is_not_escaped_witness :
  quotes_preceded false (toLowerCase (q "Invoice ~March~")) =
  quotes_preceded false (q "Invoice ~March~").
Proof.
  exact (proj2 (searchMails_term_is_not_escaped (q "Invoice ~March~") None
                  (steady_env (Returns (VString "Mail"))) empty_world (VString "Mail")
                  eq_refl eq_refl)).
Defined.

(** ** The error console *)

Lemma logged_app (w w' : World) (l : list string) :
  console w' = console w ++ l -> logged w w' = l.
Proof. unfold logged. intros ->. apply drop_app_length. Qed.

Ltac settle_log :=
  erewrite logged_app
    by (simpl; rewrite <- ?app_assoc; first [reflexivity|symmetry; apply app_nil_r]).

Ltac quiet op :=
  unfold op; run_gate;
  destruct (bridge _ _ probeScript) as [?|?]; run_steps;
  [match goal with
   | |- context [bridge ?e ?w ?s] => destruct (bridge e w s) as [?|?]
   end; simpl; settle_log; reflexivity
  |settle_log; reflexivity].

(** X20. archiveEmail, deleteEmail, markAsRead and checkIfReplied write
    nothing of their own to the error console: the only line a call can add
    is the one of the access probe when it fails. *)
Theorem outcome_operations_log_only_the_probe
    (account subject sender : string) (e : Env) (w : World) :
  logged w (snd (archiveEmail account subject sender e w)) = probe_line e w
  /\ logged w (snd (deleteEmail account subject sender e w)) = probe_line e w
  /\ logged w (snd (markAsRead account subject sender e w)) = probe_line e w
  /\ logged w (snd (checkIfReplied account subject sender e w)) = probe_line e w
  /\ logged w (snd (requestMailAccess e w)) = probe_line e w.
Proof.
  unfold probe_line. repeat split.
  - quiet archiveEmail.
  - quiet deleteEmail.
  - quiet markAsRead.
  - quiet checkIfReplied.
  - unfold requestMailAccess, checkMailAccess. run_steps.
    destruct (bridge e w probeScript) as [?|?]; simpl; settle_log; reflexivity.
Qed.

Ltac loud Hp op :=
  unfold op; run_gate; rewrite Hp; run_steps; settle_log; reflexivity.

(** X21. When the access probe fails, every operation that reports its
    failures on the error console writes two lines: the one of the probe
    with the probe's error, and its own with the instructions for granting
    access. *)
Theorem denied_access_is_logged_twice
    (e : Env) (w : World) (msg : string) (limit : option number)
    (searchTerm accountName to subject body : string) (cc bcc : option string) :
  bridge e w probeScript = Raises msg ->
  logged w (snd (getUnreadMails limit e w))
    = ["Cannot access Mail app: " +:+ msg;
       "Error getting unread emails: " +:+ access_instructions]
  /\ logged w (snd (searchMails searchTerm limit e w))
     = ["Cannot access Mail app: " +:+ msg;
        "Error searching emails: " +:+ access_instructions]
  /\ logged w (snd (sendMail to subject body cc bcc e w))
     = ["Cannot access Mail app: " +:+ msg;
        "Error sending email: " +:+ access_instructions]
  /\ logged w (snd (getMailboxes e w))
     = ["Cannot access Mail app: " +:+ msg;
        "Error getting mailboxes: " +:+ access_instructions]
  /\ logged w (snd (getAccounts e w))
     = ["Cannot access Mail app: " +:+ msg;
        "Error getting accounts: " +:+ access_instructions]
  /\ logged w (snd (getMailboxesForAccount accountName e w))
     = ["Cannot access Mail app: " +:+ msg;
        "Error getting mailboxes for account: " +:+ access_instructions].
Proof.
  intros Hp. repeat split.
  - loud Hp getUnreadMails.
  - loud Hp searchMails.
  - loud Hp sendMail.
  - loud Hp getMailboxes.
  - loud Hp getAccounts.
  - loud Hp getMailboxesForAccount.
Qed.

Lemma denied_access_is_logged_twice_witness :
  logged empty_world (snd (getMailboxes (steady_env (Raises "not allowed")) empty_world))
  = ["Cannot access Mail app: " +:+ "not allowed";
     "Error getting mailboxes: " +:+ access_instructions].
Proof.
  destruct (denied_access_is_logged_twice (steady_env (Raises "not allowed")) empty_world
              "not allowed" None "" "" "" "" "" None None eq_refl)
    as (_ & _ & _ & H & _).
  exact H.
Defined.

(** X22. With access granted, the three listing operations write to the
    error console exactly when the invocation of their script raises: one
    line with the error under the operation's prefix, and nothing when the
    invocation returns, whatever it returns. *)
Theorem listings_log_exactly_their_failures
    (e : Env) (w : World) (v : value) (accountName : string) :
  bridge e w probeScript = Returns v ->
  logged w (snd (getMailboxes e w))
    = match bridge e (log_call probeScript (Returns v) w) mailboxesScript with
      | Returns _ => []
      | Raises m => ["Error getting mailboxes: " +:+ m]
      end
  /\ logged w (snd (getAccounts e w))
     = match bridge e (log_call probeScript (Returns v) w) accountsScript with
       | Returns _ => []
       | Raises m => ["Error getting accounts: " +:+ m]
       end
  /\ (whitespace_only accountName = false ->
      logged w (snd (getMailboxesForAccount accountName e w))
      = match bridge e (log_call probeScript (Returns v) w)
                (mailboxesForAccountScript (escapeQuotes accountName)) with
        | Returns _ => []
        | Raises m => ["Error getting mailboxes for account: " +:+ m]
        end).
Proof.
  intros Hp. split; [|split].
  - unfold getMailboxes. run_gate. rewrite Hp. run_steps.
    destruct (bridge e _ mailboxesScript) as [r|m]; simpl; settle_log; reflexivity.
  - unfold getAccounts. run_gate. rewrite Hp. run_steps.
    destruct (bridge e _ accountsScript) as [r|m]; simpl; settle_log; reflexivity.
  - intros Hs. unfold getMailboxesForAccount. run_gate. rewrite Hp, blank_guard, Hs.
    run_steps.
    destruct (bridge e _ (mailboxesForAccountScript _)) as [r|m]; simpl;
      [destruct r; simpl|]; settle_log; reflexivity.
Qed.

Lemma listings_log_exactly_their_failures_witness :
  logged empty_world
    (snd (getAccounts (scripted_env (Returns (VString "Mail")) (Raises "timed out"))
            empty_world))
  = ["Error getting accounts: " +:+ "timed out"].
Proof.
  destruct (listings_log_exactly_their_failures
              (scripted_env (Returns (VString "Mail")) (Raises "timed out")) empty_world
              (VString "Mail") "Work" eq_refl)
    as (_ & H & _).
  exact H.
Defined.
